(** * The [bootstrap] command of osd-pm

    A shallow embedding of [packages/osd-pm/src/commands/bootstrap.ts]
    together with the collaborators it drives: the topological batching of
    projects, the batch scheduler and the bootstrap cache file.  The command
    itself is translated from its source; collaborators whose source is not
    part of the development are modelled from the specification and are
    marked as such. *)

From stdpp Require Import gmap strings list fin_maps relations pretty.

(** ** Projects and the project graph *)

(** The part of [Project] that the command consults: its name (the identity
    of the project), the workspace flag, and the answers of
    [hasDependencies()], [hasScript(name)] and [hasBuildTargets()]. *)
Record Project := {
  name : string;
  isWorkspaceProject : bool;
  hasDependencies : bool;
  scripts : list string;
  hasBuildTargets : bool;
}.

#[global] Instance Project_eq_dec : EqDecision Project.
Proof. solve_decision. Defined.

Definition hasScript (p : Project) (script : string) : bool :=
  bool_decide (script ∈ scripts p).

(** [ProjectGraph]: every project name is mapped to the names of the
    projects it depends on (edges go from the dependent to the dependency). *)
Abbreviation ProjectGraph := (gmap string (list string)).

Definition dependenciesOf (g : ProjectGraph) (n : string) : list string :=
  default [] (g !! n).

Definition dependsOn (g : ProjectGraph) (a b : string) : Prop :=
  b ∈ dependenciesOf g a.

(** A graph is acyclic when no project reaches itself along one or more
    edges. *)
Definition acyclic (g : ProjectGraph) : Prop :=
  ∀ a, ¬ tc (dependsOn g) a a.

(** ** Errors *)

#[local] Set Warnings "-register-all".

Inductive Error :=
| CyclicDependencyError (unresolved : list string)
| InstallError (project detail : string)
| LockValidationError (detail : string)
| BuildError (project detail : string)
| AggregateError (failures : list Error).

#[local] Set Warnings "register-all".

(** ** Topological batching *)

Module Batching.

Inductive BatchResult :=
| Batched (batches : list (list Project))
| Cyclic (unresolved : list string)
| OutOfFuel.

Definition isAggregator (projects : list Project) (n : string) : Prop :=
  ∃ p, p ∈ projects ∧ name p = n ∧ isWorkspaceProject p = true.

#[global] Instance isAggregator_dec projects n : Decision (isAggregator projects n).
Proof.
  refine (cast_if (decide (Exists (λ p, name p = n ∧ isWorkspaceProject p = true) projects)));
    abstract (unfold isAggregator; rewrite Exists_exists in *; naive_solver).
Defined.

(** Whether the edge from [a] to its dependency [b] gates batching.  With
    [scopeToInstallableOnly] set, edges into or out of a workspace
    aggregator are treated as always satisfied. *)
Definition gates (scopeToInstallableOnly : bool) (projects : list Project)
    (a b : string) : Prop :=
  scopeToInstallableOnly = true →
  ¬ isAggregator projects a ∧ ¬ isAggregator projects b.

#[global] Instance gates_dec s projects a b : Decision (gates s projects a b).
Proof. unfold gates. apply _. Defined.

Section Layering.
Variable scopeToInstallableOnly : bool.
Variable projects : list Project.
Variable edges : ProjectGraph.

(** The dependencies of [p] that are still unresolved: gating edges whose
    target has not been placed in a batch yet. *)
Definition unresolved (remaining : list Project) (p : Project) : list string :=
  filter (λ d, d ∈ name <$> remaining
               ∧ gates scopeToInstallableOnly projects (name p) d)
         (dependenciesOf edges (name p)).

Definition ready (remaining : list Project) (p : Project) : Prop :=
  length (unresolved remaining p) = 0.

#[global] Instance ready_dec remaining p : Decision (ready remaining p).
Proof. unfold ready. apply _. Defined.

(** Repeated layering: a batch is every remaining project with no
    unresolved dependency; the batch is removed and the rest is layered
    again.  An empty batch over a non-empty remainder is a cycle. *)
Fixpoint layers (fuel : nat) (remaining : list Project) : BatchResult :=
  match remaining with
  | [] => Batched []
  | _ :: _ =>
      match fuel with
      | O => OutOfFuel
      | S fuel' =>
          match filter (ready remaining) remaining with
          | [] => Cyclic (name <$> remaining)
          | batch =>
              match layers fuel' (filter (λ p, ¬ ready remaining p) remaining) with
              | Batched rest => Batched (batch :: rest)
              | failure => failure
              end
          end
      end
  end.
End Layering.

End Batching.

(** Modelled from the spec: [topologicallyBatchProjects] of
    [utils/projects], whose source is not part of the development.  It is
    the layering operation [batch(projects, edges, {scopeToInstallableOnly})]
    of the dependency graph component; the option is the [batchByWorkspace]
    argument of the call sites.  Batch members keep the input order.  On a
    cyclic graph the result names the projects that could not be layered,
    among which every cycle lies. *)
Definition topologicallyBatchProjects (projects : list Project)
    (projectGraph : ProjectGraph) (batchByWorkspace : bool) : Batching.BatchResult :=
  Batching.layers batchByWorkspace projects projectGraph (length projects) projects.

(** Membership of a project in the batch with a given index. *)
Definition inBatch (batches : list (list Project)) (i : nat) (p : Project) : Prop :=
  ∃ batch, batches !! i = Some batch ∧ p ∈ batch.

(** ** Caller options *)

(** The options the command reads: [cache], ['frozen-lockfile'],
    ['prefer-offline'] and ['single-version']. *)
Record Options := {
  cache : bool;
  frozen_lockfile : bool;
  prefer_offline : bool;
  single_version : option string;
}.

(** ** Observable effects *)

Inductive LogLevel := Verbose | Debug | Info | Success.

Abbreviation Fingerprint := string.

(** Every call that leaves the command is recorded, in program order, at the
    moment it is issued. *)
Inductive Event :=
| Log (level : LogLevel) (message : string)
| InstallDependencies (project : string) (extraArgs : list string)
| ReadYarnLock
| ValidateDependencies (singleVersion : option string)
| LinkProjectExecutables
| GetAllChecksums
| CacheIsValid (project : string)
| CacheDelete (project : string)
| BuildForTargets (project : string) (sourceMaps : bool)
| RunScriptStreaming (project : string) (script : string)
| CacheWrite (project : string) (fingerprint : Fingerprint).

(** The persisted record of a project: the fingerprint of its last
    successful bootstrap and the (logical) time it was recorded at. *)
Record CacheRecord := {
  fingerprint : Fingerprint;
  recordedAt : nat;
}.

Record World := {
  cacheStore : gmap string CacheRecord;
  trace : list Event;
}.

(** ** The effect monad: state, exceptions and interruption *)

(** An awaited call returns, throws, or never returns: it hangs, or the
    process is interrupted while it is pending. *)
Inductive Result (A : Type) :=
| Ok (a : A)
| Throw (e : Error)
| Halt.

Arguments Ok {A} a.
Arguments Throw {A} e.
Arguments Halt {A}.

Definition M (A : Type) : Type := World → Result A * World.

#[global] Instance M_ret : MRet M := λ A a w, (Ok a, w).

#[global] Instance M_bind : MBind M := λ A B f m w,
  match m w with
  | (Ok a, w') => f a w'
  | (Throw e, w') => (Throw e, w')
  | (Halt, w') => (Halt, w')
  end.

Definition throw {A} (e : Error) : M A := λ w, (Throw e, w).

Definition record (e : Event) (w : World) : World :=
  {| cacheStore := cacheStore w; trace := trace w ++ [e] |}.

(** An external call: the event is recorded, then the collaborator's
    outcome is the outcome of the call. *)
Definition call {A} (e : Event) (outcome : Result A) : M A :=
  λ w, (outcome, record e w).

Definition log (level : LogLevel) (message : string) : M unit :=
  call (Log level message) (Ok tt).

(** An invocation that is not awaited at once: issuing it records the
    event and hands back the outcome that awaiting it will have. *)
Definition issue {A} (e : Event) (outcome : Result A) : M (Result A) :=
  λ w, (Ok outcome, record e w).

(** [await] of an invocation that has settled with [outcome]. *)
Definition await {A} (outcome : Result A) : M A := λ w, (outcome, w).

(** What a caller that does not await sees of a computation: a promise,
    which is fulfilled, is rejected, or stays pending for ever.  The caller
    goes on in every case. *)
Definition attempt {A} (m : M A) : M (Result A) := λ w,
  let '(r, w') := m w in (Ok r, w').

Fixpoint forEach {A} (items : list A) (body : A → M unit) : M unit :=
  match items with
  | [] => mret tt
  | item :: rest => body item ;; forEach rest body
  end.

(** ** External collaborators *)

Abbreviation YarnLock := (list (string * string)).
Abbreviation ChecksumMap := (string → Fingerprint).

(** What one run gets from outside the core: the outcomes of the
    invocations that leave it, the string conversion of the platform, and
    the time the build step of each project takes.  [getAllChecksums]
    yields the fresh fingerprint of every project, by name.  [toLowerCase]
    is [String.prototype.toLowerCase]: the development takes it as given
    and depends on no property of it.  [buildDuration] settles the order in
    which the build steps that are pending together come back: in the order
    of their durations, those of equal duration in the order in which they
    were issued. *)
Record Env := {
  installDependencies : Project → list string → Result unit;
  readYarnLock : Result YarnLock;
  validateDependencies : YarnLock → option string → Result unit;
  linkProjectExecutables : list Project → ProjectGraph → Result unit;
  getAllChecksums : YarnLock → Result ChecksumMap;
  buildForTargets : Project → bool → Result unit;
  runScriptStreaming : Project → string → Result unit;
  toLowerCase : string → string;
  buildDuration : Project → nat;
}.

(** ** The bootstrap cache file *)

Module BootstrapCacheFile.

(** Modelled from the spec: [BootstrapCacheFile] of
    [utils/bootstrap_cache_file], whose source is not part of the
    development.  A handle owns one project's record of the cache store
    and carries the freshly computed fingerprint of that project. *)
Record t := {
  project : string;
  expectedValue : Fingerprint;
}.

Definition new (p : Project) (checksums : ChecksumMap) : t :=
  {| project := name p; expectedValue := checksums (name p) |}.

(** Modelled from the spec: a record exists and its fingerprint equals the
    fresh one (the caller supplies the [cachingEnabled] conjunct). *)
Definition valid (store : gmap string CacheRecord) (file : t) : bool :=
  match store !! project file with
  | Some r => bool_decide (fingerprint r = expectedValue file)
  | None => false
  end.

Definition isValid (file : t) : M bool :=
  λ w, (Ok (valid (cacheStore w) file), record (CacheIsValid (project file)) w).

(** Modelled from the spec: [invalidate] deletes the project's record. *)
Definition delete (file : t) : M unit :=
  λ w, (Ok tt,
        {| cacheStore := base.delete (project file) (cacheStore w);
           trace := trace w ++ [CacheDelete (project file)] |}).

(** Modelled from the spec: [commit] writes the record with the fresh
    fingerprint. *)
Definition write (file : t) : M unit :=
  λ w, (Ok tt,
        {| cacheStore :=
             <[project file :=
                 {| fingerprint := expectedValue file;
                    recordedAt := length (trace w) |}]> (cacheStore w);
           trace := trace w ++ [CacheWrite (project file) (expectedValue file)] |}).

End BootstrapCacheFile.

(** ** The batch scheduler *)

(** Modelled from the spec: what the scheduler holds of an asynchronous
    unit of work that it has started.  The unit has returned without
    suspending, or it is suspended at the [await] of an invocation that
    will settle with [outcome], to go on with [resume]. *)
Inductive Started :=
| Returned
| Awaiting (outcome : Result unit) (resume : M unit).

(** Modelled from the spec: the rest of a started unit, run when what it
    awaits has settled.  A unit that failed before it suspended is settled
    with that failure. *)
Definition resumeUnit (started : Result Started) : M unit :=
  match started with
  | Ok Returned => mret tt
  | Ok (Awaiting outcome resume) => await outcome;; resume
  | Throw e => throw e
  | Halt => await Halt
  end.

(** Modelled from the spec: the order in which pending units settle, by
    increasing rank, units of equal rank in the order of the list. *)
Fixpoint insertBy {A} (rank : A → nat) (x : A) (sorted : list A) : list A :=
  match sorted with
  | [] => [x]
  | y :: rest =>
      if decide (rank x ≤ rank y) then x :: y :: rest
      else y :: insertBy rank x rest
  end.

Fixpoint sortBy {A} (rank : A → nat) (items : list A) : list A :=
  match items with
  | [] => []
  | x :: rest => insertBy rank x (sortBy rank rest)
  end.

(** Modelled from the spec: the units of a batch are all started, in input
    order, each running up to its first suspension (the call site sets no
    concurrency limit). *)
Fixpoint startAll {A} (fn : A → M Started) (batch : list A)
    : M (list (A * Result Started)) :=
  match batch with
  | [] => mret []
  | item :: rest =>
      started ← attempt (fn item);
      others ← startAll fn rest;
      mret ((item, started) :: others)
  end.

(** Modelled from the spec: the pending units go on one by one, as what
    they await settles, each to its end whether or not a sibling has failed
    or stays pending; the failures are collected as they occur.  A batch
    with a unit that stays pending for ever never settles. *)
Fixpoint settleAll {A} (pending : list (A * Result Started)) : M (list Error) :=
  match pending with
  | [] => mret []
  | unit :: rest =>
      settled ← attempt (resumeUnit unit.2);
      failures ← settleAll rest;
      match settled with
      | Ok _ => mret failures
      | Throw e => mret (e :: failures)
      | Halt => await Halt
      end
  end.

(** Modelled from the spec: one batch of [parallelize].  [duration] gives
    the time that what a unit awaits takes to settle. *)
Definition settleBatch {A} (duration : A → nat) (fn : A → M Started)
    (batch : list A) : M (list Error) :=
  pending ← startAll fn batch;
  settleAll (sortBy (λ unit, duration unit.1) pending).

(** Modelled from the spec: [parallelizeBatches] of [utils/parallelize],
    whose source is not part of the development.  Batches run strictly one
    after another; a batch with a failure propagates the failure (an
    aggregate when there are several) once it has settled, and the next
    batch is not started. *)
Fixpoint parallelizeBatches {A} (duration : A → nat) (batches : list (list A))
    (fn : A → M Started) : M unit :=
  match batches with
  | [] => mret tt
  | batch :: rest =>
      failures ← settleBatch duration fn batch;
      match failures with
      | [] => parallelizeBatches duration rest fn
      | [e] => throw e
      | _ => throw (AggregateError failures)
      end
  end.

(** ** The command *)

(** The value stored in [caches] for a project: its cache file handle and
    the decision taken for this run.  [caches] is a [Map] keyed by the
    project; projects are identified by their name, which is unique in the
    [ProjectMap] the command receives. *)
Record CacheEntry := {
  file : BootstrapCacheFile.t;
  valid : bool;
}.

(** The result of a batching call inside the command: a cycle is thrown.
    Running out of fuel stands for a call that never returns; it does not
    happen ([topologicallyBatchProjects_terminates]). *)
Definition batched (r : Batching.BatchResult) : M (list (list Project)) :=
  match r with
  | Batching.Batched batches => mret batches
  | Batching.Cyclic unresolved => throw (CyclicDependencyError unresolved)
  | Batching.OutOfFuel => λ w, (Halt, w)
  end.

Section Bootstrap.
Variable env : Env.

(** Lines 57-68: the install loop over [batchedProjectsByWorkspace]. *)
Definition installPhase (extraArgs : list string)
    (batchedProjectsByWorkspace : list (list Project)) : M unit :=
  forEach batchedProjectsByWorkspace (λ batch,
    forEach batch (λ project,
      if isWorkspaceProject project then
        log Verbose ("Skipping workspace project: " +:+ name project)
      else if hasDependencies project then
        call (InstallDependencies (name project) extraArgs)
             (installDependencies env project extraArgs)
      else mret tt)).

(** Lines 87-99: the loop that fills [caches] and counts the cached
    projects; both are threaded through the iteration. *)
Fixpoint cacheDecisions (options : Options) (checksums : ChecksumMap)
    (projects : list Project) (caches : gmap string CacheEntry)
    (cachedProjectCount : nat) : M (gmap string CacheEntry * nat) :=
  match projects with
  | [] => mret (caches, cachedProjectCount)
  | project :: rest =>
      if hasScript project "osd:bootstrap" || hasBuildTargets project then
        let file := BootstrapCacheFile.new project checksums in
        valid ← (if cache options then BootstrapCacheFile.isValid file
                 else mret false);
        cachedProjectCount ←
          (if valid : bool then
             log Debug ("[" +:+ name project +:+ "] cache up to date");;
             mret (cachedProjectCount + 1)
           else mret cachedProjectCount);
        cacheDecisions options checksums rest
          (<[name project := {| file := file; valid := valid |}]> caches)
          cachedProjectCount
      else cacheDecisions options checksums rest caches cachedProjectCount
  end.

(** Lines 105-130: the unit of work handed to [parallelizeBatches], from
    its start to its end. *)
Definition buildUnit (caches : gmap string CacheEntry) (project : Project) : M unit :=
  match caches !! name project with
  | Some cache =>
      if negb (valid cache) then
        (if hasBuildTargets project then
           (if hasScript project "osd:bootstrap" then
              log Debug ("[" +:+ name project +:+
                "] ignoring [osd:bootstrap] script since build targets are provided")
            else mret tt);;
           log Info ("[" +:+ name project +:+ "] running [osd:bootstrap] build targets");;
           BootstrapCacheFile.delete (file cache);;
           call (BuildForTargets (name project) true)
                (buildForTargets env project true)
         else
           log Info ("[" +:+ name project +:+ "] running [osd:bootstrap] script");;
           BootstrapCacheFile.delete (file cache);;
           call (RunScriptStreaming (name project) "osd:bootstrap")
                (runScriptStreaming env project "osd:bootstrap"));;
        BootstrapCacheFile.write (file cache);;
        log Success ("[" +:+ name project +:+ "] bootstrap complete")
      else mret tt
  | None => mret tt
  end.

(** Lines 105-130 as the asynchronous function they are: started, the unit
    of work runs up to its [await], where the build of the targets or the
    script has been issued, and it goes on with the write once that has
    settled ([buildUnit_async]). *)
Definition startUnit (caches : gmap string CacheEntry) (project : Project)
    : M Started :=
  match caches !! name project with
  | Some cache =>
      if negb (valid cache) then
        outcome ←
          (if hasBuildTargets project then
             (if hasScript project "osd:bootstrap" then
                log Debug ("[" +:+ name project +:+
                  "] ignoring [osd:bootstrap] script since build targets are provided")
              else mret tt);;
             log Info ("[" +:+ name project +:+ "] running [osd:bootstrap] build targets");;
             BootstrapCacheFile.delete (file cache);;
             issue (BuildForTargets (name project) true)
                   (buildForTargets env project true)
           else
             log Info ("[" +:+ name project +:+ "] running [osd:bootstrap] script");;
             BootstrapCacheFile.delete (file cache);;
             issue (RunScriptStreaming (name project) "osd:bootstrap")
                   (runScriptStreaming env project "osd:bootstrap"));
        mret (Awaiting outcome
                (BootstrapCacheFile.write (file cache);;
                 log Success ("[" +:+ name project +:+ "] bootstrap complete")))
      else mret Returned
  | None => mret Returned
  end.

(** Lines 84-130: the cache decisions followed by the batched builds. *)
Definition bootstrapBuilds (options : Options) (checksums : ChecksumMap)
    (projects : list Project) (batchedProjects : list (list Project)) : M unit :=
  '(caches, cachedProjectCount) ← cacheDecisions options checksums projects ∅ 0;
  (if bool_decide (0 < cachedProjectCount) then
     log Success (pretty cachedProjectCount +:+ " bootstrap builds are cached")
   else mret tt);;
  parallelizeBatches (buildDuration env) batchedProjects (startUnit caches).

(** [BootstrapCommand.run]. *)
Definition run (projects : list Project) (projectGraph : ProjectGraph)
    (options : Options) : M unit :=
  batchedProjectsByWorkspace ← batched (topologicallyBatchProjects projects projectGraph true);
  batchedProjects ← batched (topologicallyBatchProjects projects projectGraph false);
  let extraArgs :=
    ((if frozen_lockfile options then ["--frozen-lockfile"] else []) ++
     (if prefer_offline options then ["--prefer-offline"] else []))%list in
  installPhase extraArgs batchedProjectsByWorkspace;;
  yarnLock ← call ReadYarnLock (readYarnLock env);
  let singleVersion := toLowerCase env <$> single_version options in
  call (ValidateDependencies singleVersion)
       (validateDependencies env yarnLock singleVersion);;
  call LinkProjectExecutables (linkProjectExecutables env projects projectGraph);;
  checksums ← call GetAllChecksums (getAllChecksums env yarnLock);
  bootstrapBuilds options checksums projects batchedProjects.

End Bootstrap.

(** ** Vocabulary of the properties *)

Definition emptyWorld : World := {| cacheStore := ∅; trace := [] |}.

(** The cache store that a sequence of events leaves behind, when the first
    of them is issued at time [now]. *)
Fixpoint replay (now : nat) (events : list Event)
    (store : gmap string CacheRecord) : gmap string CacheRecord :=
  match events with
  | [] => store
  | CacheDelete n :: rest => replay (S now) rest (delete n store)
  | CacheWrite n fp :: rest =>
      replay (S now) rest (<[n := {| fingerprint := fp; recordedAt := now |}]> store)
  | _ :: rest => replay (S now) rest store
  end.

(** The world after [events] have been issued from [w]. *)
Definition extend (w : World) (events : list Event) : World :=
  {| cacheStore := replay (length (trace w)) events (cacheStore w);
     trace := trace w ++ events |}.

(** [behaves m r events]: whatever the world, [m] issues exactly [events]
    and ends with [r]. *)
Definition behaves {A} (m : M A) (r : Result A) (events : list Event) : Prop :=
  ∀ w, m w = (r, extend w events).

Definition resultOf {A} (m : M A) : Result A := (m emptyWorld).1.
Definition eventsOf {A} (m : M A) : list Event := trace (m emptyWorld).2.

Definition isLog (e : Event) : bool :=
  match e with Log _ _ => true | _ => false end.

(** The events other than log output. *)
Definition effects (events : list Event) : list Event :=
  filter (λ e, isLog e = false) events.

(** The invocations of the build phase that concern the project named [n]:
    deleting or writing its cache record, building its targets, running
    its script. *)
Definition buildEffectOn (n : string) (e : Event) : bool :=
  match e with
  | CacheDelete m | BuildForTargets m _ | RunScriptStreaming m _ | CacheWrite m _ =>
      bool_decide (m = n)
  | _ => false
  end.

(** The steps of the build phase on the project named [n], in the order
    they are issued. *)
Definition stepsOn (n : string) (events : list Event) : list Event :=
  filter (λ e, buildEffectOn n e = true) events.

(** The events of the build phase: the steps on the projects and log
    output. *)
Definition isBuildEvent (e : Event) : bool :=
  match e with
  | CacheDelete _ | BuildForTargets _ _ | RunScriptStreaming _ _
  | CacheWrite _ _ | Log _ _ => true
  | _ => false
  end.

Definition isCacheMutation (e : Event) : bool :=
  match e with
  | CacheDelete _ | CacheWrite _ _ => true
  | _ => false
  end.

Definition isInvocation (e : Event) : bool :=
  match e with
  | BuildForTargets _ _ | RunScriptStreaming _ _ => true
  | _ => false
  end.

(** A computation is oblivious when its result and its events do not depend
    on the world it starts from. *)
Definition oblivious {A} (m : M A) : Prop := behaves m (resultOf m) (eventsOf m).

(** The build step of a project and its outcome: the build targets when the
    project has any, the [osd:bootstrap] script otherwise. *)
Definition buildStep (p : Project) : Event :=
  if hasBuildTargets p then BuildForTargets (name p) true
  else RunScriptStreaming (name p) "osd:bootstrap".

Definition buildOutcome (env : Env) (p : Project) : Result unit :=
  if hasBuildTargets p then buildForTargets env p true
  else runScriptStreaming env p "osd:bootstrap".

(** A project takes part in the bootstrap cache when it declares the
    [osd:bootstrap] script or build targets. *)
Definition needsBootstrap (p : Project) : bool :=
  hasScript p "osd:bootstrap" || hasBuildTargets p.

(** The outcome of a project's unit of work whose build step has the given
    outcome. *)
Definition unitOutcome (outcome : Result unit) : Result unit :=
  match outcome with
  | Ok _ => Ok tt
  | Throw e => Throw e
  | Halt => Halt
  end.

(** The handles stored in [caches] belong to the project they are stored
    under. *)
Definition ownHandles (caches : gmap string CacheEntry) : Prop :=
  ∀ n entry, caches !! n = Some entry → BootstrapCacheFile.project (file entry) = n.

(** A persisted record with the given fingerprint exists for the project
    named [n]. *)
Definition recorded (store : gmap string CacheRecord) (n : string)
    (fp : Fingerprint) : Prop :=
  ∃ r, store !! n = Some r ∧ fingerprint r = fp.

Definition succeeded (r : Result unit) : bool :=
  match r with Ok _ => true | _ => false end.

(** The awaited call never returns. *)
Definition hangs (r : Result unit) : bool :=
  match r with Halt => true | _ => false end.

(** The items of a list up to and including the first one at which the
    iteration stops. *)
Fixpoint upToFirst {A} (stops : A → bool) (items : list A) : list A :=
  match items with
  | [] => []
  | item :: rest => item :: if stops item then [] else upToFirst stops rest
  end.

(** The units of a sequence of batches that are started: those of a batch
    are all started, and only when every unit of the batches before it
    succeeded. *)
Fixpoint startedBatches {A} (outcome : A → Result unit)
    (batches : list (list A)) : list A :=
  match batches with
  | [] => []
  | batch :: rest =>
      batch ++
      (if forallb (λ item, succeeded (outcome item)) batch
       then startedBatches outcome rest else [])
  end.

(** What a schedule issues: batch by batch, what the units of the batch
    issue up to their suspension, in input order, then what they issue
    when they go on, in the order in which they settle. *)
Fixpoint scheduleEvents {A} (starts finishes : A → list Event)
    (outcome : A → Result unit) (duration : A → nat)
    (batches : list (list A)) : list Event :=
  match batches with
  | [] => []
  | batch :: rest =>
      mjoin (starts <$> batch) ++
      mjoin (finishes <$> sortBy duration batch) ++
      (if forallb (λ item, succeeded (outcome item)) batch
       then scheduleEvents starts finishes outcome duration rest else [])
  end.

(** The failures of a batch, in the order of the list. *)
Definition failuresOf {A} (outcome : A → Result unit) (batch : list A) : list Error :=
  omap (λ item, match outcome item with Throw e => Some e | _ => None end) batch.

(** What the scheduler propagates for the failures of a batch. *)
Definition propagated (failures : list Error) : Error :=
  match failures with
  | [e] => e
  | _ => AggregateError failures
  end.

(** The arguments passed to every install invocation, and the package name
    passed to the lock validation. *)
Definition extraArgsOf (options : Options) : list string :=
  (if frozen_lockfile options then ["--frozen-lockfile"] else []) ++
  (if prefer_offline options then ["--prefer-offline"] else []).

Definition singleVersionOf (env : Env) (options : Options) : option string :=
  toLowerCase env <$> single_version options.

(** The invocations between the install phase and the cache decisions, in
    program order. *)
Definition lockSteps (env : Env) (options : Options) : list Event :=
  [ReadYarnLock; ValidateDependencies (singleVersionOf env options);
   LinkProjectExecutables; GetAllChecksums].

(** The events of the install phase: install invocations and log output. *)
Definition isInstallEvent (e : Event) : bool :=
  match e with
  | InstallDependencies _ _ | Log _ _ => true
  | _ => false
  end.

(** The projects the install phase installs, in the order it visits them:
    those that are not workspace aggregators and declare dependencies. *)
Definition installable (batches : list (list Project)) : list Project :=
  filter (λ p, isWorkspaceProject p = false ∧ hasDependencies p = true)
         (mjoin batches).

(** The events of the cache decisions: validity checks and log output. *)
Definition isDecisionEvent (e : Event) : bool :=
  match e with
  | CacheIsValid _ | Log _ _ => true
  | _ => false
  end.

(** The entry that the command stores in [caches] for a project, given the
    cache store it reads. *)
Definition decisionFor (options : Options) (checksums : ChecksumMap)
    (store : gmap string CacheRecord) (p : Project) : CacheEntry :=
  {| file := BootstrapCacheFile.new p checksums;
     valid := cache options &&
              BootstrapCacheFile.valid store (BootstrapCacheFile.new p checksums) |}.

(** [caches] holds the decisions of the command for [projects]: an entry
    for every project that takes part in the bootstrap cache, and nothing
    else. *)
Definition decides (options : Options) (checksums : ChecksumMap)
    (store : gmap string CacheRecord) (projects : list Project)
    (caches : gmap string CacheEntry) : Prop :=
  (∀ p, p ∈ projects →
     caches !! name p =
       if needsBootstrap p then Some (decisionFor options checksums store p)
       else None)
  ∧ (∀ n entry, caches !! n = Some entry →
       ∃ p, p ∈ projects ∧ name p = n ∧ needsBootstrap p = true ∧
            entry = decisionFor options checksums store p).

(** The outcome of settling one batch, and of the whole schedule. *)
Definition settled {A} (outcome : A → Result unit) (batch : list A) : Result (list Error) :=
  if existsb (λ item, hangs (outcome item)) batch then Halt
  else Ok (failuresOf outcome batch).

Fixpoint scheduleOutcome {A} (outcome : A → Result unit)
    (batches : list (list A)) : Result unit :=
  match batches with
  | [] => Ok tt
  | batch :: rest =>
      match settled outcome batch with
      | Ok [] => scheduleOutcome outcome rest
      | Ok failures => Throw (propagated failures)
      | Throw e => Throw e
      | Halt => Halt
      end
  end.

(** The result and the events of a project's unit of work, and the events
    of the units that the scheduler starts. *)
Definition unitResult (env : Env) (caches : gmap string CacheEntry)
    (p : Project) : Result unit :=
  resultOf (buildUnit env caches p).

Definition unitEvents (env : Env) (caches : gmap string CacheEntry)
    (p : Project) : list Event :=
  eventsOf (buildUnit env caches p).

(** What a project's unit of work issues up to its suspension, and what it
    issues when it goes on. *)
Definition startEvents (env : Env) (caches : gmap string CacheEntry)
    (p : Project) : list Event :=
  eventsOf (startUnit env caches p).

Definition finishEvents (env : Env) (caches : gmap string CacheEntry)
    (p : Project) : list Event :=
  eventsOf (resumeUnit (resultOf (startUnit env caches p))).

(** The batches, each in the order in which its units settle. *)
Definition settleOrder (env : Env) (batches : list (list Project))
    : list (list Project) :=
  sortBy (buildDuration env) <$> batches.

Definition buildEvents (env : Env) (caches : gmap string CacheEntry)
    (batches : list (list Project)) : list Event :=
  scheduleEvents (startEvents env caches) (finishEvents env caches)
    (unitResult env caches) (buildDuration env) batches.

(** The events of a batch that is started: its units are started in input
    order, and go on in the order in which they settle. *)
Definition batchEvents (env : Env) (caches : gmap string CacheEntry)
    (batch : list Project) : list Event :=
  mjoin (startEvents env caches <$> batch) ++
  mjoin (finishEvents env caches <$> sortBy (buildDuration env) batch).

(** ** Vocabulary of the further properties *)

(** Lines 70-130: what the command does once the install loop is over. *)
Definition afterInstall (env : Env) (projects : list Project)
    (projectGraph : ProjectGraph) (options : Options)
    (batchedProjects : list (list Project)) : M unit :=
  yarnLock ← call ReadYarnLock (readYarnLock env);
  call (ValidateDependencies (singleVersionOf env options))
       (validateDependencies env yarnLock (singleVersionOf env options));;
  call LinkProjectExecutables (linkProjectExecutables env projects projectGraph);;
  checksums ← call GetAllChecksums (getAllChecksums env yarnLock);
  bootstrapBuilds env options checksums projects batchedProjects.

(** A project the install loop installs. *)
Definition needsInstall (p : Project) : bool :=
  negb (isWorkspaceProject p) && hasDependencies p.

(** What one iteration of the install loop issues for a project. *)
Definition installEvent (extraArgs : list string) (p : Project) : option Event :=
  if isWorkspaceProject p then
    Some (Log Verbose ("Skipping workspace project: " +:+ name p))
  else if hasDependencies p then Some (InstallDependencies (name p) extraArgs)
  else None.

(** The install loop ends at a project whose install does not succeed. *)
Definition installStops (env : Env) (extraArgs : list string) (p : Project) : bool :=
  needsInstall p && negb (succeeded (installDependencies env p extraArgs)).

(** The result of the install loop over the projects in the order it visits
    them: the outcome of the first install that does not succeed. *)
Fixpoint installOutcome (env : Env) (extraArgs : list string)
    (ps : list Project) : Result unit :=
  match ps with
  | [] => Ok tt
  | p :: rest =>
      if installStops env extraArgs p then installDependencies env p extraArgs
      else installOutcome env extraArgs rest
  end.

(** The decision of a project is valid, respectively stale. *)
Definition isCached (options : Options) (checksums : ChecksumMap)
    (store : gmap string CacheRecord) (p : Project) : bool :=
  needsBootstrap p && valid (decisionFor options checksums store p).

Definition isStale (options : Options) (checksums : ChecksumMap)
    (store : gmap string CacheRecord) (p : Project) : bool :=
  needsBootstrap p && negb (valid (decisionFor options checksums store p)).

(** What the decision loop issues for a project: nothing unless the project
    takes part in the bootstrap cache and caching is enabled, the validity
    check otherwise, followed by a message when the record is valid. *)
Definition decisionEvents (options : Options) (checksums : ChecksumMap)
    (store : gmap string CacheRecord) (p : Project) : list Event :=
  if needsBootstrap p && cache options then
    CacheIsValid (name p) ::
    (if isCached options checksums store p
     then [Log Debug ("[" +:+ name p +:+ "] cache up to date")] else [])
  else [].

(** The projects with a valid decision, in the order of [projects]. *)
Definition cachedProjects (options : Options) (checksums : ChecksumMap)
    (store : gmap string CacheRecord) (projects : list Project) : list Project :=
  filter (λ p, isCached options checksums store p = true) projects.

(** What the unit of work of a stale project issues, in program order. *)
Definition unitTrace (env : Env) (checksums : ChecksumMap) (p : Project) : list Event :=
  (if hasBuildTargets p then
     (if hasScript p "osd:bootstrap" then
        [Log Debug ("[" +:+ name p +:+
           "] ignoring [osd:bootstrap] script since build targets are provided")]
      else []) ++
     [Log Info ("[" +:+ name p +:+ "] running [osd:bootstrap] build targets")]
   else [Log Info ("[" +:+ name p +:+ "] running [osd:bootstrap] script")]) ++
  [CacheDelete (name p); buildStep p] ++
  match buildOutcome env p with
  | Ok _ => [CacheWrite (name p) (checksums (name p));
             Log Success ("[" +:+ name p +:+ "] bootstrap complete")]
  | _ => []
  end.

(** The last character of a message. *)
Fixpoint lastChar (s : string) : option Ascii.ascii :=
  match s with
  | EmptyString => None
  | String c EmptyString => Some c
  | String _ rest => lastChar rest
  end.

(** The message that follows the decisions. *)
Definition cachedSummary (cachedProjectCount : nat) : list Event :=
  if bool_decide (0 < cachedProjectCount) then
    [Log Success (pretty cachedProjectCount +:+ " bootstrap builds are cached")]
  else [].

(** ** A sample workspace

    A workspace root, a core package, a plugin that depends on it and a UI
    package on top of both; used to evaluate the definitions. *)

Module Sample.

Definition root : Project :=
  {| name := "root"; isWorkspaceProject := true; hasDependencies := true;
     scripts := []; hasBuildTargets := false |}.

Definition core : Project :=
  {| name := "core"; isWorkspaceProject := false; hasDependencies := true;
     scripts := []; hasBuildTargets := true |}.

Definition plugin : Project :=
  {| name := "plugin"; isWorkspaceProject := false; hasDependencies := true;
     scripts := ["osd:bootstrap"]; hasBuildTargets := true |}.

Definition ui : Project :=
  {| name := "ui"; isWorkspaceProject := false; hasDependencies := false;
     scripts := ["osd:bootstrap"]; hasBuildTargets := false |}.

Definition docs : Project :=
  {| name := "docs"; isWorkspaceProject := false; hasDependencies := true;
     scripts := ["lint"]; hasBuildTargets := false |}.

Definition projects : list Project := [ui; plugin; docs; root; core].

Definition graph : ProjectGraph :=
  {[ "ui" := ["plugin"; "core"]; "plugin" := ["core"]; "docs" := [];
     "core" := ["root"]; "root" := [] ]}.

Definition rank (n : string) : nat :=
  if bool_decide (n = "ui") then 3
  else if bool_decide (n = "plugin") then 2
  else if bool_decide (n = "core") then 1
  else 0.

Definition options : Options :=
  {| cache := true; frozen_lockfile := true; prefer_offline := false;
     single_version := Some "LoDash" |}.

Definition checksums : ChecksumMap := λ n, "sha1:" +:+ n.

(** A string conversion for the sample: the ASCII letters in lower
    case. *)
Definition lowerAscii (c : Ascii.ascii) : Ascii.ascii :=
  let n := Ascii.nat_of_ascii c in
  if ((65 <=? n) && (n <=? 90))%nat then Ascii.ascii_of_nat (n + 32) else c.

Fixpoint lowerCase (s : string) : string :=
  match s with
  | EmptyString => EmptyString
  | String c rest => String (lowerAscii c) (lowerCase rest)
  end.

(** The build of a project takes as long as its name: [ui] settles before
    [core], and [core] before [plugin]. *)
Definition duration (p : Project) : nat := String.length (name p).

(** Every collaborator succeeds. *)
Definition env : Env :=
  {| installDependencies := λ _ _, Ok tt;
     readYarnLock := Ok [("lodash", "4.17.21")];
     validateDependencies := λ _ _, Ok tt;
     linkProjectExecutables := λ _ _, Ok tt;
     getAllChecksums := λ _, Ok checksums;
     buildForTargets := λ _ _, Ok tt;
     runScriptStreaming := λ _ _, Ok tt;
     toLowerCase := lowerCase;
     buildDuration := duration |}.

(** As [env], but the build of [core] throws. *)
Definition failingEnv : Env :=
  {| installDependencies := λ _ _, Ok tt;
     readYarnLock := Ok [("lodash", "4.17.21")];
     validateDependencies := λ _ _, Ok tt;
     linkProjectExecutables := λ _ _, Ok tt;
     getAllChecksums := λ _, Ok checksums;
     buildForTargets := λ p _,
       if bool_decide (name p = "core")
       then Throw (BuildError "core" "exit code 1") else Ok tt;
     runScriptStreaming := λ _ _, Ok tt;
     toLowerCase := lowerCase;
     buildDuration := duration |}.

(** Every build of build targets throws; scripts succeed. *)
Definition brokenEnv : Env :=
  {| installDependencies := λ _ _, Ok tt;
     readYarnLock := Ok [("lodash", "4.17.21")];
     validateDependencies := λ _ _, Ok tt;
     linkProjectExecutables := λ _ _, Ok tt;
     getAllChecksums := λ _, Ok checksums;
     buildForTargets := λ p _, Throw (BuildError (name p) "exit code 1");
     runScriptStreaming := λ _ _, Ok tt;
     toLowerCase := lowerCase;
     buildDuration := duration |}.

(** As [env], but the build of [core] never returns. *)
Definition hangingEnv : Env :=
  {| installDependencies := λ _ _, Ok tt;
     readYarnLock := Ok [("lodash", "4.17.21")];
     validateDependencies := λ _ _, Ok tt;
     linkProjectExecutables := λ _ _, Ok tt;
     getAllChecksums := λ _, Ok checksums;
     buildForTargets := λ p _, if bool_decide (name p = "core") then Halt else Ok tt;
     runScriptStreaming := λ _ _, Ok tt;
     toLowerCase := lowerCase;
     buildDuration := duration |}.

(** The lock validation throws. *)
Definition lockedEnv : Env :=
  {| installDependencies := λ _ _, Ok tt;
     readYarnLock := Ok [("lodash", "4.17.21"); ("lodash", "3.10.1")];
     validateDependencies := λ _ singleVersion,
       match singleVersion with
       | Some package => Throw (LockValidationError package)
       | None => Ok tt
       end;
     linkProjectExecutables := λ _ _, Ok tt;
     getAllChecksums := λ _, Ok checksums;
     buildForTargets := λ _ _, Ok tt;
     runScriptStreaming := λ _ _, Ok tt;
     toLowerCase := lowerCase;
     buildDuration := duration |}.

Definition batches : list (list Project) := [[docs; root]; [core]; [plugin]; [ui]].

Definition batchesByWorkspace : list (list Project) :=
  [[docs; root; core]; [plugin]; [ui]].

(** The decisions over an empty cache store: everything is stale. *)
Definition caches : gmap string CacheEntry :=
  {[ "core" := decisionFor options checksums ∅ core;
     "plugin" := decisionFor options checksums ∅ plugin;
     "ui" := decisionFor options checksums ∅ ui ]}.

(** A cache store in which [core] and [plugin] are up to date. *)
Definition warmWorld : World :=
  {| cacheStore :=
       {[ "core" := {| fingerprint := "sha1:core"; recordedAt := 13 |};
          "plugin" := {| fingerprint := "sha1:plugin"; recordedAt := 17 |} ]};
     trace := [] |}.

(** The install of [core] throws. *)
Definition installFailEnv : Env :=
  {| installDependencies := λ p _,
       if bool_decide (name p = "core")
       then Throw (InstallError "core" "network") else Ok tt;
     readYarnLock := Ok [("lodash", "4.17.21")];
     validateDependencies := λ _ _, Ok tt;
     linkProjectExecutables := λ _ _, Ok tt;
     getAllChecksums := λ _, Ok checksums;
     buildForTargets := λ _ _, Ok tt;
     runScriptStreaming := λ _ _, Ok tt;
     toLowerCase := lowerCase;
     buildDuration := duration |}.

(** The linking of the executables throws. *)
Definition linkFailEnv : Env :=
  {| installDependencies := λ _ _, Ok tt;
     readYarnLock := Ok [("lodash", "4.17.21")];
     validateDependencies := λ _ _, Ok tt;
     linkProjectExecutables := λ _ _, Throw (InstallError "root" "symlink");
     getAllChecksums := λ _, Ok checksums;
     buildForTargets := λ _ _, Ok tt;
     runScriptStreaming := λ _ _, Ok tt;
     toLowerCase := lowerCase;
     buildDuration := duration |}.

End Sample.

(** * Properties *)

(** ** Finite relations without a sink contain a cycle *)

Lemma no_sink_cycle {A} `{EqDecision A} (T : relation A) `{!Transitive T}
    (n : nat) (S : list A) :
  length S ≤ n → S ≠ [] →
  (∀ a, a ∈ S → ∃ b, b ∈ S ∧ T a b) →
  ∃ a, T a a.
Proof.
  revert S. induction n as [|n IH]; intros S Hlen Hne Hsucc.
  - destruct S; simpl in *; [done | lia].
  - destruct S as [|x S']; [done|].
    destruct (Hsucc x) as (c & Hc & Hxc); [left|].
    destruct (decide (c = x)) as [->|Hcx]; [by exists x|].
    apply (IH (filter (λ y, y ≠ x) (x :: S'))).
    + assert (length (filter (λ y, y ≠ x) (x :: S')) < length (x :: S')).
      { apply (length_filter_lt _ _ x); [left | tauto]. }
      simpl in *. lia.
    + intros Hnil. eapply (filter_nil_not_elem_of _ _ c); [exact Hnil| |]; done.
    + intros a [Hax Ha]%list_elem_of_filter.
      destruct (Hsucc a Ha) as (b & Hb & Hab).
      destruct (decide (b = x)) as [->|Hbx].
      * exists c. split; [by apply list_elem_of_filter | by etrans].
      * exists b. split; [by apply list_elem_of_filter | done].
Qed.

Lemma acyclic_ranked (g : ProjectGraph) (rank : string → nat) :
  (∀ a b, dependsOn g a b → rank b < rank a) → acyclic g.
Proof.
  intros Hrank a Hcycle.
  assert (∀ x y, tc (dependsOn g) x y → rank y < rank x) as Hlt.
  { intros x y Hxy. induction Hxy as [x y Hxy | x y z Hxy _ IH].
    - by apply Hrank.
    - apply Hrank in Hxy. lia. }
  specialize (Hlt a a Hcycle). lia.
Qed.

Lemma name_inj_NoDup (projects : list Project) (p q : Project) :
  NoDup (name <$> projects) → p ∈ projects → q ∈ projects →
  name p = name q → p = q.
Proof.
  induction projects as [|x l IH]; intros Hnd Hp Hq Heq.
  - by apply elem_of_nil in Hp.
  - rewrite fmap_cons in Hnd. apply NoDup_cons in Hnd as [Hx Hnd].
    apply elem_of_cons in Hp as [->|Hp], Hq as [->|Hq]; try done.
    + exfalso. apply Hx. rewrite Heq. by apply list_elem_of_fmap_2.
    + exfalso. apply Hx. rewrite <- Heq. by apply list_elem_of_fmap_2.
    + by apply IH.
Qed.

Lemma join_cons {A} (b : list A) (bs : list (list A)) :
  mjoin (b :: bs) = b ++ mjoin bs.
Proof. reflexivity. Qed.

Lemma inBatch_join (batches : list (list Project)) (i : nat) (p : Project) :
  inBatch batches i p → p ∈ mjoin batches.
Proof.
  intros (batch & Hi & Hp). apply list_elem_of_join.
  exists batch. split; [done|]. by eapply list_elem_of_lookup_2.
Qed.

Lemma join_inBatch (batches : list (list Project)) (p : Project) :
  p ∈ mjoin batches → ∃ i, inBatch batches i p.
Proof.
  intros (batch & Hp & Hb)%list_elem_of_join.
  apply list_elem_of_lookup in Hb as [i Hi]. exists i, batch. done.
Qed.

Lemma inBatch_unique (batches : list (list Project)) (i j : nat) (p : Project) :
  NoDup (mjoin batches) → inBatch batches i p → inBatch batches j p → i = j.
Proof.
  revert i j. induction batches as [|b bs IH]; intros i j Hnd Hi Hj.
  - destruct Hi as (? & Hi & _). by rewrite lookup_nil in Hi.
  - simpl in Hnd. apply NoDup_app in Hnd as (_ & Hdisj & Hnd).
    destruct i as [|i], j as [|j]; try done.
    + destruct Hi as (? & [= <-] & Hp). exfalso. apply (Hdisj p Hp).
      apply (inBatch_join bs j). exact Hj.
    + destruct Hj as (? & [= <-] & Hp). exfalso. apply (Hdisj p Hp).
      apply (inBatch_join bs i). exact Hi.
    + f_equal. by apply IH.
Qed.

(** ** Topological batching *)

Section LayeringFacts.
Variable scoped : bool.
Variable projects : list Project.
Variable edges : ProjectGraph.

Abbreviation layers := (Batching.layers scoped projects edges).
Abbreviation ready := (Batching.ready scoped projects edges).
Abbreviation unresolved := (Batching.unresolved scoped projects edges).

Lemma layers_nil fuel : layers fuel [] = Batching.Batched [].
Proof. by destruct fuel. Qed.

Lemma layers_step fuel p rest :
  layers (S fuel) (p :: rest) =
    match filter (ready (p :: rest)) (p :: rest) with
    | [] => Batching.Cyclic (name <$> p :: rest)
    | batch =>
        match layers fuel (filter (λ q, ¬ ready (p :: rest) q) (p :: rest)) with
        | Batching.Batched bs => Batching.Batched (batch :: bs)
        | failure => failure
        end
    end.
Proof. reflexivity. Qed.

Lemma rest_shrinks remaining q batch :
  filter (ready remaining) remaining = q :: batch →
  length (filter (λ p, ¬ ready remaining p) remaining) < length remaining.
Proof.
  intros Hb. apply (length_filter_lt _ _ q).
  - assert (q ∈ filter (ready remaining) remaining) as Hq by (rewrite Hb; left).
    by apply list_elem_of_filter in Hq as [_ ?].
  - assert (q ∈ filter (ready remaining) remaining) as Hq by (rewrite Hb; left).
    apply list_elem_of_filter in Hq as [? _]. tauto.
Qed.

Lemma layers_terminates fuel remaining :
  length remaining ≤ fuel → layers fuel remaining ≠ Batching.OutOfFuel.
Proof.
  revert remaining. induction fuel as [|fuel IH]; intros remaining Hlen.
  - destruct remaining; simpl in *; [done | lia].
  - destruct remaining as [|p rest]; [done|].
    rewrite layers_step.
    destruct (filter (ready (p :: rest)) (p :: rest)) as [|q batch] eqn:Hb; [done|].
    pose proof (rest_shrinks _ _ _ Hb) as Hlt.
    specialize (IH (filter (λ q, ¬ ready (p :: rest) q) (p :: rest))).
    destruct (layers fuel _); [done|done|].
    exfalso. apply IH; [simpl in *; lia | done].
Qed.

Lemma layers_partition fuel remaining bs :
  layers fuel remaining = Batching.Batched bs → mjoin bs ≡ₚ remaining.
Proof.
  revert remaining bs. induction fuel as [|fuel IH]; intros remaining bs.
  - destruct remaining; simpl; [by intros [= <-] | done].
  - destruct remaining as [|p rest]; [by intros [= <-]|].
    rewrite layers_step.
    destruct (filter (ready (p :: rest)) (p :: rest)) as [|q batch] eqn:Hb; [done|].
    destruct (layers fuel _) as [bs'| |] eqn:Hrec; try done.
    intros [= <-]. apply IH in Hrec. rewrite <- Hb, join_cons, Hrec.
    apply filter_app_complement.
Qed.

Lemma layers_order fuel remaining bs :
  layers fuel remaining = Batching.Batched bs →
  ∀ i p d, inBatch bs i p →
    d ∈ dependenciesOf edges (name p) →
    Batching.gates scoped projects (name p) d →
    d ∈ name <$> remaining →
    ∃ j q, j < i ∧ inBatch bs j q ∧ name q = d.
Proof.
  revert remaining bs. induction fuel as [|fuel IH]; intros remaining bs.
  - destruct remaining; simpl; [|done].
    intros [= <-] i p d (? & Hi & _). by rewrite lookup_nil in Hi.
  - destruct remaining as [|p0 rest].
    { intros [= <-] i p d (? & Hi & _). by rewrite lookup_nil in Hi. }
    rewrite layers_step.
    destruct (filter (ready (p0 :: rest)) (p0 :: rest)) as [|q0 batch] eqn:Hb; [done|].
    destruct (layers fuel _) as [bs'| |] eqn:Hrec; try done.
    intros [= <-] i p d (b & Hi & Hp) Hd Hg Hrem. rewrite <- Hb in *.
    destruct i as [|i]; simpl in Hi.
    + injection Hi as <-. apply list_elem_of_filter in Hp as [Hready _].
      exfalso. unfold Batching.ready in Hready.
      apply length_zero_iff_nil in Hready.
      assert (d ∈ unresolved (p0 :: rest) p) as Hin.
      { unfold Batching.unresolved. apply list_elem_of_filter. done. }
      rewrite Hready in Hin. by apply elem_of_nil in Hin.
    + apply list_elem_of_fmap in Hrem as (q & -> & Hq).
      destruct (decide (ready (p0 :: rest) q)) as [Hr|Hr].
      * exists 0, q. split; [lia|]. split; [|done].
        eexists. split; [done|]. by apply list_elem_of_filter.
      * destruct (IH _ _ Hrec i p (name q)) as (j & q' & Hj & (b' & Hb' & Hq') & Hn);
          [by exists b | done | done | |].
        { apply list_elem_of_fmap_2. by apply list_elem_of_filter. }
        exists (S j), q'. split; [lia|]. split; [|done]. by exists b'.
Qed.

Lemma layers_acyclic fuel remaining :
  acyclic edges → length remaining ≤ fuel →
  ∃ bs, layers fuel remaining = Batching.Batched bs.
Proof.
  intros Hacyc. revert remaining.
  induction fuel as [|fuel IH]; intros remaining Hlen.
  - destruct remaining; simpl in *; [by eexists | lia].
  - destruct remaining as [|p rest]; [by eexists|].
    rewrite layers_step.
    destruct (filter (ready (p :: rest)) (p :: rest)) as [|q batch] eqn:Hb.
    + exfalso.
      destruct (no_sink_cycle (tc (dependsOn edges)) (length (name <$> p :: rest))
                  (name <$> p :: rest)) as [a Ha]; [done|done| |by apply (Hacyc a)].
      intros a (x & -> & Hx)%list_elem_of_fmap.
      assert (¬ ready (p :: rest) x) as Hnr.
      { intros Hr. by apply (filter_nil_not_elem_of _ _ x Hb Hr). }
      unfold Batching.ready in Hnr.
      destruct (unresolved (p :: rest) x) as [|d ds] eqn:Hu; [done|].
      assert (d ∈ unresolved (p :: rest) x) as Hd by (rewrite Hu; left).
      unfold Batching.unresolved in Hd.
      apply list_elem_of_filter in Hd as [[Hdr _] Hdd].
      exists d. split; [done|]. by apply tc_once.
    + pose proof (rest_shrinks _ _ _ Hb) as Hlt.
      destruct (IH (filter (λ q, ¬ ready (p :: rest) q) (p :: rest))) as [bs ->];
        [simpl in *; lia|].
      by eexists.
Qed.
End LayeringFacts.

Lemma topologicallyBatchProjects_terminates projects g scoped :
  topologicallyBatchProjects projects g scoped ≠ Batching.OutOfFuel.
Proof. by apply layers_terminates. Qed.

Lemma Sample_graph_acyclic : acyclic Sample.graph.
Proof.
  apply (acyclic_ranked _ Sample.rank). intros a b Hab.
  revert b Hab. apply Forall_forall. unfold dependenciesOf.
  destruct (decide (a = "ui")) as [->|]; [compute_done|].
  destruct (decide (a = "plugin")) as [->|]; [compute_done|].
  destruct (decide (a = "docs")) as [->|]; [compute_done|].
  destruct (decide (a = "core")) as [->|]; [compute_done|].
  destruct (decide (a = "root")) as [->|]; [compute_done|].
  unfold Sample.graph.
  rewrite !lookup_insert_ne, lookup_singleton_ne by done. constructor.
Qed.

Lemma Sample_projects_NoDup : NoDup (name <$> Sample.projects).
Proof. compute_done. Qed.

Example Sample_batches :
  topologicallyBatchProjects Sample.projects Sample.graph false
  = Batching.Batched [[Sample.docs; Sample.root]; [Sample.core];
                      [Sample.plugin]; [Sample.ui]].
Proof. vm_compute. reflexivity. Qed.

Example Sample_batches_by_workspace :
  topologicallyBatchProjects Sample.projects Sample.graph true
  = Batching.Batched [[Sample.docs; Sample.root; Sample.core];
                      [Sample.plugin]; [Sample.ui]].
Proof. vm_compute. reflexivity. Qed.

(** ** The effect monad *)

Lemma bind_run {A B} (m : M A) (f : A → M B) (w : World) :
  (m ≫= f) w =
    match m w with
    | (Ok a, w') => f a w'
    | (Throw e, w') => (Throw e, w')
    | (Halt, w') => (Halt, w')
    end.
Proof. reflexivity. Qed.

Lemma replay_app now events1 events2 store :
  replay now (events1 ++ events2) store
  = replay (now + length events1) events2 (replay now events1 store).
Proof.
  revert now store. induction events1 as [|e events1 IH]; intros now store; simpl.
  - by rewrite Nat.add_0_r.
  - destruct e; rewrite IH; f_equal; lia.
Qed.

Lemma extend_nil w : extend w [] = w.
Proof. destruct w. unfold extend. simpl. by rewrite app_nil_r. Qed.

Lemma extend_app w events1 events2 :
  extend (extend w events1) events2 = extend w (events1 ++ events2).
Proof.
  unfold extend. simpl. rewrite length_app, replay_app, (assoc_L (++)). done.
Qed.

Lemma behaves_result {A} (m : M A) r events : behaves m r events → resultOf m = r.
Proof. intros H. unfold resultOf. by rewrite H. Qed.

Lemma behaves_events {A} (m : M A) r events : behaves m r events → eventsOf m = events.
Proof. intros H. unfold eventsOf. by rewrite H. Qed.

Lemma behaves_ret {A} (a : A) : behaves (mret a) (Ok a) [].
Proof. intros w. by rewrite extend_nil. Qed.

Lemma behaves_throw {A} (e : Error) : behaves (@throw A e) (Throw e) [].
Proof. intros w. unfold throw. by rewrite extend_nil. Qed.

Lemma behaves_call {A} (e : Event) (r : Result A) :
  isCacheMutation e = false → behaves (call e r) r [e].
Proof. intros He w. unfold call, record, extend. by destruct e. Qed.

Lemma behaves_log level message : behaves (log level message) (Ok tt) [Log level message].
Proof. by apply behaves_call. Qed.

Lemma behaves_delete file :
  behaves (BootstrapCacheFile.delete file) (Ok tt)
          [CacheDelete (BootstrapCacheFile.project file)].
Proof. by intros w. Qed.

Lemma behaves_write file :
  behaves (BootstrapCacheFile.write file) (Ok tt)
          [CacheWrite (BootstrapCacheFile.project file)
                      (BootstrapCacheFile.expectedValue file)].
Proof. by intros w. Qed.

Lemma behaves_bind {A B} (m : M A) (f : A → M B) a events1 r events2 :
  behaves m (Ok a) events1 → behaves (f a) r events2 →
  behaves (m ≫= f) r (events1 ++ events2).
Proof. intros Hm Hf w. by rewrite bind_run, Hm, Hf, extend_app. Qed.

Lemma behaves_bind_throw {A B} (m : M A) (f : A → M B) e events :
  behaves m (Throw e) events → behaves (m ≫= f) (Throw e) events.
Proof. intros Hm w. by rewrite bind_run, Hm. Qed.

Lemma behaves_bind_halt {A B} (m : M A) (f : A → M B) events :
  behaves m Halt events → behaves (m ≫= f) Halt events.
Proof. intros Hm w. by rewrite bind_run, Hm. Qed.

Lemma oblivious_intro {A} (m : M A) r events : behaves m r events → oblivious m.
Proof.
  intros H. unfold oblivious.
  by rewrite (behaves_result _ _ _ H), (behaves_events _ _ _ H).
Qed.

Lemma oblivious_bind {A B} (m : M A) (f : A → M B) :
  oblivious m → (∀ a, oblivious (f a)) → oblivious (m ≫= f).
Proof.
  unfold oblivious at 1. intros Hm Hf. destruct (resultOf m) as [a|e|].
  - eapply oblivious_intro, behaves_bind; [exact Hm | exact (Hf a)].
  - eapply oblivious_intro, behaves_bind_throw, Hm.
  - eapply oblivious_intro, behaves_bind_halt, Hm.
Qed.

Lemma oblivious_ret {A} (a : A) : oblivious (mret a : M A).
Proof. eapply oblivious_intro, behaves_ret. Qed.

Lemma oblivious_call {A} (e : Event) (r : Result A) :
  isCacheMutation e = false → oblivious (call e r).
Proof. intros He. eapply oblivious_intro, behaves_call, He. Qed.

Lemma oblivious_log level message : oblivious (log level message).
Proof. eapply oblivious_intro, behaves_log. Qed.

Lemma oblivious_delete file : oblivious (BootstrapCacheFile.delete file).
Proof. eapply oblivious_intro, behaves_delete. Qed.

Lemma oblivious_write file : oblivious (BootstrapCacheFile.write file).
Proof. eapply oblivious_intro, behaves_write. Qed.

Lemma oblivious_if {A} (b : bool) (m1 m2 : M A) :
  oblivious m1 → oblivious m2 → oblivious (if b then m1 else m2).
Proof. by destruct b. Qed.

Create HintDb oblivious.

#[local] Hint Resolve oblivious_ret oblivious_log oblivious_delete oblivious_write
  oblivious_if oblivious_bind : oblivious.
#[local] Hint Extern 1 (oblivious (call _ _)) =>
  (apply oblivious_call; reflexivity) : oblivious.

Lemma oblivious_forEach {A} (items : list A) (body : A → M unit) :
  (∀ item, oblivious (body item)) → oblivious (forEach items body).
Proof.
  intros Hbody. induction items as [|item rest IH]; simpl; auto with oblivious.
Qed.

Lemma oblivious_installPhase env extraArgs batches :
  oblivious (installPhase env extraArgs batches).
Proof.
  unfold installPhase. apply oblivious_forEach. intros batch.
  apply oblivious_forEach. intros project. auto 6 with oblivious.
Qed.

Lemma oblivious_buildUnit env caches project :
  oblivious (buildUnit env caches project).
Proof.
  unfold buildUnit. destruct (caches !! name project) as [entry|];
    auto 10 with oblivious.
Qed.

(** ** The unit of work of the build phase *)

Lemma buildUnit_skipped env caches p :
  (caches !! name p = None ∨
   ∃ entry, caches !! name p = Some entry ∧ valid entry = true) →
  behaves (buildUnit env caches p) (Ok tt) [].
Proof.
  intros [Hnone | (entry & Hsome & Hvalid)]; unfold buildUnit.
  - rewrite Hnone. apply behaves_ret.
  - rewrite Hsome, Hvalid. apply behaves_ret.
Qed.

Lemma buildUnit_stale env caches p entry :
  caches !! name p = Some entry → valid entry = false →
  ∃ before after,
    Forall (λ e, isLog e = true) before ∧ Forall (λ e, isLog e = true) after ∧
    behaves (buildUnit env caches p) (unitOutcome (buildOutcome env p))
      (before ++
       [CacheDelete (BootstrapCacheFile.project (file entry)); buildStep p] ++
       match buildOutcome env p with
       | Ok _ =>
           CacheWrite (BootstrapCacheFile.project (file entry))
                      (BootstrapCacheFile.expectedValue (file entry)) :: after
       | _ => []
       end).
Proof.
  intros Hsome Hvalid.
  pose proof (oblivious_buildUnit env caches p) as Hobl.
  unfold oblivious, resultOf, eventsOf, buildUnit, buildOutcome, buildStep in *.
  rewrite Hsome, Hvalid in Hobl |- *.
  destruct (hasBuildTargets p), (hasScript p "osd:bootstrap");
    match goal with
    | |- context [buildForTargets ?e ?p ?b] => destruct (buildForTargets e p b) as [[]| |]
    | |- context [runScriptStreaming ?e ?p ?b] => destruct (runScriptStreaming e p b) as [[]| |]
    end;
    first
      [ by (eexists [_], []; split; [|split]; [| |exact Hobl]; repeat constructor)
      | by (eexists [_; _], []; split; [|split]; [| |exact Hobl]; repeat constructor)
      | by (eexists [_], [_]; split; [|split]; [| |exact Hobl]; repeat constructor)
      | by (eexists [_; _], [_]; split; [|split]; [| |exact Hobl]; repeat constructor) ].
Qed.

(** ** The order in which pending units settle *)

Lemma omap_cons {A B} (f : A → option B) (x : A) (l : list A) :
  omap f (x :: l) = match f x with Some y => y :: omap f l | None => omap f l end.
Proof. reflexivity. Qed.

Lemma insertBy_Permutation {A} (rank : A → nat) (x : A) (l : list A) :
  insertBy rank x l ≡ₚ x :: l.
Proof.
  induction l as [|y l IH]; simpl; [done|].
  case_decide; [done|]. by rewrite IH, Permutation_swap.
Qed.

Lemma sortBy_Permutation {A} (rank : A → nat) (l : list A) : sortBy rank l ≡ₚ l.
Proof.
  induction l as [|x l IH]; simpl; [done|]. by rewrite insertBy_Permutation, IH.
Qed.

Lemma elem_of_sortBy {A} (rank : A → nat) (l : list A) (x : A) :
  x ∈ sortBy rank l ↔ x ∈ l.
Proof. by rewrite sortBy_Permutation. Qed.

Lemma insertBy_fmap {A B} (f : A → B) (rankA : A → nat) (rankB : B → nat) x l :
  (∀ a, rankB (f a) = rankA a) →
  f <$> insertBy rankA x l = insertBy rankB (f x) (f <$> l).
Proof.
  intros Hrank. induction l as [|y l IH]; simpl; [done|].
  rewrite !Hrank. case_decide; [done|]. by rewrite fmap_cons, IH.
Qed.

Lemma sortBy_fmap {A B} (f : A → B) (rankA : A → nat) (rankB : B → nat) l :
  (∀ a, rankB (f a) = rankA a) →
  f <$> sortBy rankA l = sortBy rankB (f <$> l).
Proof.
  intros Hrank. induction l as [|x l IH]; simpl; [done|].
  by rewrite (insertBy_fmap f rankA rankB), IH.
Qed.

Lemma join_sortBy {A} (rank : A → nat) (batches : list (list A)) :
  mjoin (sortBy rank <$> batches) ≡ₚ mjoin batches.
Proof.
  induction batches as [|batch rest IH]; [done|].
  by rewrite fmap_cons, !join_cons, sortBy_Permutation, IH.
Qed.

Lemma forallb_Permutation {A} (f : A → bool) (l1 l2 : list A) :
  l1 ≡ₚ l2 → forallb f l1 = forallb f l2.
Proof.
  induction 1 as [|x l1 l2 _ IH|x y l|l1 l2 l3 _ IH1 _ IH2]; simpl.
  - done.
  - by rewrite IH.
  - by destruct (f x), (f y).
  - by rewrite IH1.
Qed.

Lemma existsb_Permutation {A} (f : A → bool) (l1 l2 : list A) :
  l1 ≡ₚ l2 → existsb f l1 = existsb f l2.
Proof.
  induction 1 as [|x l1 l2 _ IH|x y l|l1 l2 l3 _ IH1 _ IH2]; simpl.
  - done.
  - by rewrite IH.
  - by destruct (f x), (f y).
  - by rewrite IH1.
Qed.

(** ** The batch scheduler *)

Lemma settled_success {A} (outcome : A → Result unit) (batch : list A) :
  forallb (λ item, succeeded (outcome item)) batch = true ↔
  settled outcome batch = Ok [].
Proof.
  unfold settled, failuresOf. induction batch as [|item rest IH]; simpl; [done|].
  destruct (outcome item) as [[]|e|]; simpl; [exact IH| |done].
  split; [done|]. by destruct (existsb _ rest).
Qed.

Lemma settled_sorted_success {A} (outcome : A → Result unit) (rank : A → nat)
    (batch : list A) :
  forallb (λ item, succeeded (outcome item)) batch = true ↔
  settled outcome (sortBy rank batch) = Ok [].
Proof.
  rewrite <- settled_success.
  by rewrite (forallb_Permutation _ _ _ (sortBy_Permutation rank batch)).
Qed.

Lemma behaves_issue {A} (e : Event) (outcome : Result A) :
  isCacheMutation e = false → behaves (issue e outcome) (Ok outcome) [e].
Proof. intros He w. unfold issue, record, extend. by destruct e. Qed.

Lemma behaves_await {A} (outcome : Result A) : behaves (await outcome) outcome [].
Proof. intros w. unfold await. by rewrite extend_nil. Qed.

Lemma behaves_attempt {A} (m : M A) r events :
  behaves m r events → behaves (attempt m) (Ok r) events.
Proof. intros Hm w. unfold attempt. by rewrite Hm. Qed.

Lemma oblivious_issue {A} (e : Event) (outcome : Result A) :
  isCacheMutation e = false → oblivious (issue e outcome).
Proof. intros He. eapply oblivious_intro, behaves_issue, He. Qed.

Lemma oblivious_await {A} (outcome : Result A) : oblivious (await outcome).
Proof. eapply oblivious_intro, behaves_await. Qed.

#[local] Hint Resolve oblivious_await : oblivious.
#[local] Hint Extern 1 (oblivious (issue _ _)) =>
  (apply oblivious_issue; reflexivity) : oblivious.

Section Scheduler.
Context {A : Type} (duration : A → nat) (fn : A → M Started).
Hypothesis fn_oblivious : ∀ item, oblivious (fn item).
Hypothesis resume_oblivious : ∀ item, oblivious (resumeUnit (resultOf (fn item))).

Let pending (item : A) : A * Result Started := (item, resultOf (fn item)).
Let starts (item : A) : list Event := eventsOf (fn item).
Let outcome (item : A) : Result unit := resultOf (resumeUnit (resultOf (fn item))).
Let finishes (item : A) : list Event := eventsOf (resumeUnit (resultOf (fn item))).

Lemma startAll_behaves (batch : list A) :
  behaves (startAll fn batch) (Ok (pending <$> batch)) (mjoin (starts <$> batch)).
Proof.
  induction batch as [|item rest IH]; [apply behaves_ret|].
  simpl startAll. rewrite !fmap_cons, join_cons.
  eapply behaves_bind; [apply behaves_attempt, fn_oblivious|].
  rewrite <- (app_nil_r (mjoin _)).
  eapply behaves_bind; [exact IH|]. apply behaves_ret.
Qed.

Lemma settleAll_behaves (items : list A) :
  behaves (settleAll (pending <$> items)) (settled outcome items)
          (mjoin (finishes <$> items)).
Proof.
  induction items as [|item rest IH]; [apply behaves_ret|].
  rewrite !fmap_cons, join_cons. simpl settleAll. unfold settled in *. simpl.
  fold (outcome item).
  pose proof (resume_oblivious item) as Hitem. unfold oblivious in Hitem.
  fold (outcome item) (finishes item) in Hitem.
  eapply behaves_bind; [by apply behaves_attempt|].
  destruct (existsb _ rest).
  { rewrite orb_true_r. by apply behaves_bind_halt. }
  rewrite orb_false_r, <- (app_nil_r (mjoin _)).
  eapply behaves_bind; [exact IH|].
  destruct (outcome item) as [[]|e|]; simpl;
    [apply behaves_ret|apply behaves_ret|apply behaves_await].
Qed.

Lemma settleBatch_behaves (batch : list A) :
  behaves (settleBatch duration fn batch) (settled outcome (sortBy duration batch))
          (mjoin (starts <$> batch) ++ mjoin (finishes <$> sortBy duration batch)).
Proof.
  unfold settleBatch. eapply behaves_bind; [apply startAll_behaves|].
  rewrite <- (sortBy_fmap pending duration) by done.
  apply settleAll_behaves.
Qed.

Lemma parallelizeBatches_behaves (batches : list (list A)) :
  behaves (parallelizeBatches duration batches fn)
          (scheduleOutcome outcome (sortBy duration <$> batches))
          (scheduleEvents starts finishes outcome duration batches).
Proof.
  induction batches as [|batch rest IH]; [apply behaves_ret|].
  intros w. simpl parallelizeBatches. rewrite bind_run, settleBatch_behaves.
  rewrite fmap_cons. simpl scheduleOutcome. simpl scheduleEvents.
  pose proof (settled_sorted_success outcome duration batch) as Hok.
  destruct (settled outcome (sortBy duration batch)) as [[|e failures]|e|] eqn:Hs.
  - rewrite (proj2 Hok eq_refl), IH, extend_app, (assoc_L (++)). done.
  - destruct (forallb _ batch); [by destruct Hok as [Hok _]; specialize (Hok eq_refl)|].
    rewrite app_nil_r. by destruct failures.
  - destruct (forallb _ batch); [by destruct Hok as [Hok _]; specialize (Hok eq_refl)|].
    by rewrite app_nil_r.
  - destruct (forallb _ batch); [by destruct Hok as [Hok _]; specialize (Hok eq_refl)|].
    by rewrite app_nil_r.
Qed.

End Scheduler.

Lemma scheduleOutcome_ext {A} (f g : A → Result unit) (batches : list (list A)) :
  (∀ item, f item = g item) → scheduleOutcome f batches = scheduleOutcome g batches.
Proof.
  intros Hfg. induction batches as [|batch rest IH]; [done|]. simpl.
  assert (settled f batch = settled g batch) as ->; [|by rewrite IH].
  unfold settled, failuresOf.
  assert (existsb (λ item, hangs (f item)) batch
          = existsb (λ item, hangs (g item)) batch) as ->.
  { induction batch as [|x l IHl]; [done|]. simpl. by rewrite Hfg, IHl. }
  destruct (existsb _ batch); [done|]. f_equal.
  induction batch as [|x l IHl]; [done|]. rewrite !omap_cons, Hfg. by rewrite IHl.
Qed.

Lemma scheduleEvents_ext {A} (starts starts' finishes finishes' : A → list Event)
    (outcome outcome' : A → Result unit) (duration : A → nat)
    (batches : list (list A)) :
  (∀ item, starts item = starts' item) →
  (∀ item, finishes item = finishes' item) →
  (∀ item, outcome item = outcome' item) →
  scheduleEvents starts finishes outcome duration batches
  = scheduleEvents starts' finishes' outcome' duration batches.
Proof.
  intros Hs Hf Ho. induction batches as [|batch rest IH]; [done|]. simpl.
  rewrite IH. f_equal; [|f_equal].
  - f_equal. apply list_fmap_ext. by intros ? ? _.
  - f_equal. apply list_fmap_ext. by intros ? ? _.
  - assert (forallb (λ item, succeeded (outcome item)) batch
            = forallb (λ item, succeeded (outcome' item)) batch) as ->; [|done].
    induction batch as [|x l IHl]; [done|]. simpl. by rewrite Ho, IHl.
Qed.

(** ** Which units are started *)

Lemma upToFirst_prefix {A} (stops : A → bool) (items : list A) :
  upToFirst stops items `prefix_of` items.
Proof.
  induction items as [|item rest IH]; simpl; [done|].
  apply prefix_cons. destruct (stops item); [apply prefix_nil|done].
Qed.

Lemma upToFirst_all {A} (stops : A → bool) (items : list A) :
  existsb stops items = false → upToFirst stops items = items.
Proof.
  induction items as [|item rest IH]; simpl; [done|].
  destruct (stops item); simpl; [done|]. intros H. f_equal. auto.
Qed.

Lemma none_hangs {A} (outcome : A → Result unit) (batch : list A) :
  (∀ item, item ∈ batch → outcome item ≠ Halt) →
  existsb (λ item, hangs (outcome item)) batch = false.
Proof.
  intros Hbatch. apply not_true_is_false.
  intros (item & Hitem%list_elem_of_In & Hi)%existsb_exists.
  apply (Hbatch item Hitem). by destruct (outcome item).
Qed.

Lemma startedBatches_prefix {A} (outcome : A → Result unit) (batches : list (list A)) :
  startedBatches outcome batches `prefix_of` mjoin batches.
Proof.
  induction batches as [|batch rest IH]; simpl; [done|].
  destruct (forallb _ batch); [by apply prefix_app|].
  rewrite app_nil_r. by apply prefix_app_r.
Qed.

Lemma all_succeeded {A} (outcome : A → Result unit) (batch : list A) :
  forallb (λ item, succeeded (outcome item)) batch = true ↔
  ∀ item, item ∈ batch → outcome item = Ok tt.
Proof.
  rewrite forallb_forall. split.
  - intros Hall item Hitem%list_elem_of_In. specialize (Hall item Hitem).
    by destruct (outcome item) as [[]| |].
  - intros Hall item Hitem%list_elem_of_In. by rewrite (Hall item Hitem).
Qed.

Lemma scheduleOutcome_Ok {A} (outcome : A → Result unit) (batches : list (list A)) :
  scheduleOutcome outcome batches = Ok tt ↔
  ∀ item, item ∈ mjoin batches → outcome item = Ok tt.
Proof.
  induction batches as [|batch rest IH]; simpl.
  - split; [|done]. intros _ item Hitem. by apply elem_of_nil in Hitem.
  - pose proof (settled_success outcome batch) as Hok.
    rewrite all_succeeded in Hok.
    destruct (settled outcome batch) as [[|e failures]|e|] eqn:Hs.
    + rewrite IH. split.
      * intros Hrest item [Hitem|Hitem]%elem_of_app; [|by apply Hrest].
        by apply (proj2 Hok).
      * intros Hall item Hitem. apply Hall, elem_of_app. by right.
    + split; [done|]. intros Hall. exfalso.
      assert (Ok (e :: failures) = Ok []) as [=]. apply Hok.
      intros item Hitem. apply Hall, elem_of_app. by left.
    + split; [done|]. intros Hall. exfalso.
      assert (@Throw (list Error) e = Ok []) as [=]. apply Hok.
      intros item Hitem. apply Hall, elem_of_app. by left.
    + split; [done|]. intros Hall. exfalso.
      assert (@Halt (list Error) = Ok []) as [=]. apply Hok.
      intros item Hitem. apply Hall, elem_of_app. by left.
Qed.

Lemma scheduleOutcome_sorted_Ok {A} (outcome : A → Result unit) (rank : A → nat)
    (batches : list (list A)) :
  scheduleOutcome outcome (sortBy rank <$> batches) = Ok tt ↔
  ∀ item, item ∈ mjoin batches → outcome item = Ok tt.
Proof.
  rewrite scheduleOutcome_Ok. by setoid_rewrite (join_sortBy rank batches).
Qed.

Lemma all_started {A} (outcome : A → Result unit) (batches : list (list A)) :
  (∀ item, item ∈ mjoin batches → outcome item = Ok tt) →
  startedBatches outcome batches = mjoin batches.
Proof.
  induction batches as [|batch rest IH]; simpl; [done|]. intros Hall.
  rewrite (proj2 (all_succeeded outcome batch)).
  - rewrite IH; [done|]. intros item Hitem. apply Hall, elem_of_app. by right.
  - intros item Hitem. apply Hall, elem_of_app. by left.
Qed.

(** The units of a batch are started exactly when every unit of the batches
    before it has succeeded. *)
Lemma started_iff {A} (outcome : A → Result unit) (pre : list (list A))
    (batch : list A) (post : list (list A)) (item : A) :
  item ∈ batch → item ∉ mjoin pre →
  item ∈ startedBatches outcome (pre ++ batch :: post) ↔
  ∀ x, x ∈ mjoin pre → outcome x = Ok tt.
Proof.
  intros Hitem. induction pre as [|b pre IH]; simpl; intros Hpre.
  - split; [|intros _; apply elem_of_app; by left].
    intros _ x Hx. by apply elem_of_nil in Hx.
  - apply not_elem_of_app in Hpre as [Hb Hpre].
    rewrite elem_of_app. destruct (forallb _ b) eqn:Hall.
    + rewrite (IH Hpre). pose proof (proj1 (all_succeeded _ _) Hall) as Hb'. split.
      * intros [?|Hrest]; [done|]. intros x [Hx|Hx]%elem_of_app; auto.
      * intros Hrest. right. intros x Hx. apply Hrest, elem_of_app. by right.
    + split; [by intros [?|?%elem_of_nil]|]. intros Hrest.
      assert (forallb (λ item, succeeded (outcome item)) b = true) as Hb'.
      { apply all_succeeded. intros x Hx. apply Hrest, elem_of_app. by left. }
      congruence.
Qed.

(** ** The unit of work as an asynchronous task *)

Lemma oblivious_startUnit env caches project :
  oblivious (startUnit env caches project).
Proof.
  unfold startUnit. destruct (caches !! name project) as [entry|];
    auto 12 with oblivious.
Qed.

Lemma startUnit_started env caches project :
  ∃ started, resultOf (startUnit env caches project) = Ok started.
Proof.
  unfold resultOf, startUnit. destruct (caches !! name project) as [entry|]; [|by eexists].
  destruct (valid entry); [by eexists|]. simpl.
  destruct (hasBuildTargets project), (hasScript project "osd:bootstrap"); by eexists.
Qed.

Lemma oblivious_resumeUnit env caches project :
  oblivious (resumeUnit (resultOf (startUnit env caches project))).
Proof.
  unfold resultOf, startUnit. destruct (caches !! name project) as [entry|];
    [|apply oblivious_ret].
  destruct (valid entry); [apply oblivious_ret|]. simpl.
  destruct (hasBuildTargets project), (hasScript project "osd:bootstrap"); simpl;
    auto 8 with oblivious.
Qed.

(** The unit of work from its start to its end is the asynchronous unit,
    started and then resumed at once. *)
Lemma buildUnit_async env caches project w :
  buildUnit env caches project w
  = (started ← startUnit env caches project; resumeUnit (Ok started)) w.
Proof.
  unfold buildUnit, startUnit.
  destruct (caches !! name project) as [entry|]; [|done].
  destruct (valid entry); [done|]. simpl.
  destruct (hasBuildTargets project), (hasScript project "osd:bootstrap");
    match goal with
    | |- context [buildForTargets ?e ?p ?b] => destruct (buildForTargets e p b) as [[]| |]
    | |- context [runScriptStreaming ?e ?p ?b] => destruct (runScriptStreaming e p b) as [[]| |]
    end; reflexivity.
Qed.

Lemma buildUnit_split env caches project :
  behaves (buildUnit env caches project)
    (resultOf (resumeUnit (resultOf (startUnit env caches project))))
    (startEvents env caches project ++ finishEvents env caches project).
Proof.
  intros w. rewrite buildUnit_async.
  destruct (startUnit_started env caches project) as [started Hstarted].
  pose proof (oblivious_startUnit env caches project) as Hstart.
  pose proof (oblivious_resumeUnit env caches project) as Hresume.
  unfold oblivious in Hstart, Hresume. rewrite Hstarted in Hstart, Hresume.
  unfold finishEvents, startEvents. rewrite Hstarted.
  by rewrite bind_run, Hstart, Hresume, extend_app.
Qed.

Lemma unitResult_async env caches project :
  unitResult env caches project
  = resultOf (resumeUnit (resultOf (startUnit env caches project))).
Proof. apply (behaves_result _ _ _ (buildUnit_split env caches project)). Qed.

Lemma unitEvents_async env caches project :
  unitEvents env caches project
  = startEvents env caches project ++ finishEvents env caches project.
Proof. apply (behaves_events _ _ _ (buildUnit_split env caches project)). Qed.

(** The batched builds of the command. *)
Lemma buildPhase_behaves env caches batches :
  behaves (parallelizeBatches (buildDuration env) batches (startUnit env caches))
          (scheduleOutcome (unitResult env caches) (settleOrder env batches))
          (buildEvents env caches batches).
Proof.
  pose proof (parallelizeBatches_behaves (buildDuration env) (startUnit env caches)
                (oblivious_startUnit env caches)) as Hbuild.
  unfold settleOrder, buildEvents.
  rewrite (scheduleOutcome_ext _ _ _ (unitResult_async env caches)).
  rewrite (scheduleEvents_ext _ (startEvents env caches) _ (finishEvents env caches) _
             (λ p, resultOf (resumeUnit (resultOf (startUnit env caches p)))));
    [|done|done|apply unitResult_async].
  apply Hbuild, oblivious_resumeUnit.
Qed.

(** ** The cache store follows the trace *)

Lemma replay_frame n now events store :
  Forall (λ e, buildEffectOn n e = false) events →
  replay now events store !! n = store !! n.
Proof.
  intros Hevents. revert now store.
  induction Hevents as [|e events He _ IH]; intros now store; [done|].
  destruct e; simpl in *; rewrite IH; try done.
  - apply lookup_delete_ne. by apply bool_decide_eq_false in He.
  - apply lookup_insert_ne. by apply bool_decide_eq_false in He.
Qed.

Lemma replay_inert now events store :
  Forall (λ e, isCacheMutation e = false) events → replay now events store = store.
Proof.
  intros Hevents. revert now.
  induction Hevents as [|e events He _ IH]; intros now; [done|].
  destruct e; simpl in *; try done; apply IH.
Qed.

Lemma replay_decisions now events store :
  Forall (λ e, isDecisionEvent e = true) events → replay now events store = store.
Proof.
  intros Hevents. apply replay_inert.
  eapply Forall_impl; [exact Hevents|]. by intros [].
Qed.

Lemma replay_installs now events store :
  Forall (λ e, isInstallEvent e = true) events → replay now events store = store.
Proof.
  intros Hevents. apply replay_inert.
  eapply Forall_impl; [exact Hevents|]. by intros [].
Qed.

Lemma decisions_no_effect n events :
  Forall (λ e, isDecisionEvent e = true) events →
  Forall (λ e, buildEffectOn n e = false) events.
Proof. intros H. eapply Forall_impl; [exact H|]. by intros []. Qed.

Lemma logs_no_effect n events :
  Forall (λ e, isLog e = true) events →
  Forall (λ e, buildEffectOn n e = false) events.
Proof. intros H. eapply Forall_impl; [exact H|]. by intros []. Qed.

Lemma extend_decisions_store w events :
  Forall (λ e, isDecisionEvent e = true) events →
  cacheStore (extend w events) = cacheStore w.
Proof. intros H. by apply replay_decisions. Qed.

Lemma extend_trace w events : trace (extend w events) = trace w ++ events.
Proof. done. Qed.

(** ** The cache decisions *)

Lemma isValid_run file w :
  BootstrapCacheFile.isValid file w
  = (Ok (BootstrapCacheFile.valid (cacheStore w) file),
     extend w [CacheIsValid (BootstrapCacheFile.project file)]).
Proof. done. Qed.

Lemma cacheDecisions_from options cks projects caches0 count0 w :
  NoDup (name <$> projects) →
  ∃ caches count events,
    cacheDecisions options cks projects caches0 count0 w
      = (Ok (caches, count), extend w events)
    ∧ Forall (λ e, isDecisionEvent e = true) events
    ∧ (cache options = false → events = [] ∧ count = count0)
    ∧ (∀ p, p ∈ projects → needsBootstrap p = true →
         caches !! name p = Some (decisionFor options cks (cacheStore w) p))
    ∧ (∀ n, (∀ p, p ∈ projects → needsBootstrap p = true → name p ≠ n) →
         caches !! n = caches0 !! n).
Proof.
  revert caches0 count0 w.
  induction projects as [|x rest IH]; intros caches0 count0 w Hnames.
  { exists caches0, count0, []. simpl. rewrite extend_nil.
    repeat split; try done. intros p Hp. by apply elem_of_nil in Hp. }
  rewrite fmap_cons in Hnames. apply NoDup_cons in Hnames as [Hx Hrest].
  simpl cacheDecisions. fold (needsBootstrap x).
  destruct (needsBootstrap x) eqn:Hneeds.
  - set (entry := decisionFor options cks (cacheStore w) x).
    assert (∃ events1 count1,
      Forall (λ e, isDecisionEvent e = true) events1 ∧
      (cache options = false → events1 = [] ∧ count1 = count0) ∧
      ∀ (k : bool → nat → M (gmap string CacheEntry * nat)),
        ((valid ← (if cache options
                   then BootstrapCacheFile.isValid (BootstrapCacheFile.new x cks)
                   else mret false);
          cachedProjectCount ←
            (if valid : bool then
               log Debug ("[" +:+ name x +:+ "] cache up to date");;
               mret (count0 + 1)
             else mret count0);
          k valid cachedProjectCount) w)
        = k (valid entry) count1 (extend w events1)) as (events1 & count1 & Hev1 & Hoff & Hrun).
    { unfold entry, decisionFor. simpl. destruct (cache options); simpl.
      - destruct (BootstrapCacheFile.valid _ _) eqn:Hvalid.
        + eexists [_; _], _. split; [|split]; [| |intros k]; last first.
          { rewrite bind_run, isValid_run, Hvalid, !bind_run, behaves_log.
            unfold mret, M_ret. rewrite extend_app. reflexivity. }
          all: by repeat constructor.
        + eexists [_], _. split; [|split]; [| |intros k]; last first.
          { rewrite bind_run, isValid_run, Hvalid, !bind_run.
            unfold mret, M_ret. reflexivity. }
          all: by repeat constructor.
      - exists [], count0. split; [done|]. split; [done|].
        intros k. by rewrite extend_nil. }
    destruct (IH (<[name x := entry]> caches0) count1 (extend w events1) Hrest)
      as (caches & count & events2 & Hrec & Hev2 & Hoff2 & Hin & Hout).
    exists caches, count, (events1 ++ events2).
    rewrite extend_decisions_store in Hin by done.
    split; [|split; [by apply Forall_app|split; [|split]]].
    + rewrite <- extend_app, <- Hrec.
      apply (Hrun (λ v c, cacheDecisions options cks rest
                           (<[name x:={| file := BootstrapCacheFile.new x cks;
                                          valid := v |}]> caches0) c)).
    + intros Hc. destruct (Hoff Hc) as [-> <-], (Hoff2 Hc) as [-> ->]. done.
    + intros p [->|Hp]%elem_of_cons Hp'; [|by apply Hin].
      rewrite Hout, lookup_insert_eq; [done|].
      intros q Hq _ Heq. apply Hx. rewrite <- Heq. by apply list_elem_of_fmap_2.
    + intros n Hn. rewrite Hout.
      * apply lookup_insert_ne. apply Hn; [left|done].
      * intros p Hp. apply Hn. by right.
  - destruct (IH caches0 count0 w Hrest)
      as (caches & count & events & Hrec & Hev & Hoff & Hin & Hout).
    exists caches, count, events.
    split; [done|]. split; [done|]. split; [done|]. split.
    + intros p [->|Hp]%elem_of_cons Hp'; [congruence|by apply Hin].
    + intros n Hn. apply Hout. intros p Hp. apply Hn. by right.
Qed.

Lemma cacheDecisions_spec options cks projects w :
  NoDup (name <$> projects) →
  ∃ caches count events,
    cacheDecisions options cks projects ∅ 0 w = (Ok (caches, count), extend w events)
    ∧ Forall (λ e, isDecisionEvent e = true) events
    ∧ (cache options = false → events = [] ∧ count = 0)
    ∧ decides options cks (cacheStore w) projects caches.
Proof.
  intros Hnames.
  destruct (cacheDecisions_from options cks projects ∅ 0 w Hnames)
    as (caches & count & events & Hrun & Hev & Hoff & Hin & Hout).
  exists caches, count, events.
  split; [done|]. split; [done|]. split; [done|]. split.
  - intros p Hp. destruct (needsBootstrap p) eqn:Hneeds; [by apply Hin|].
    rewrite Hout; [done|]. intros q Hq Hq' Heq.
    assert (q = p) as -> by by eapply name_inj_NoDup. congruence.
  - intros n entry Hentry.
    destruct (decide (Exists (λ p, needsBootstrap p = true ∧ name p = n) projects))
      as [(p & Hp & Hneeds & <-)%Exists_exists|Hno].
    + exists p. rewrite (Hin p Hp Hneeds) in Hentry. by injection Hentry as <-.
    + rewrite Hout in Hentry; [done|]. intros p Hp Hneeds Heq.
      apply Hno, Exists_exists. by exists p.
Qed.

Lemma decides_ownHandles options cks store projects caches :
  decides options cks store projects caches → ownHandles caches.
Proof. intros [_ H] n entry (p & _ & <- & _ & ->)%H. done. Qed.

(** ** The cache decisions followed by the builds *)

Lemma bootstrapBuilds_spec env options cks projects batches w :
  NoDup (name <$> projects) →
  ∃ caches decisions,
    Forall (λ e, isDecisionEvent e = true) decisions
    ∧ (cache options = false → decisions = [])
    ∧ decides options cks (cacheStore w) projects caches
    ∧ bootstrapBuilds env options cks projects batches w
      = (scheduleOutcome (unitResult env caches) (settleOrder env batches),
         extend w (decisions ++ buildEvents env caches batches)).
Proof.
  intros Hnames.
  destruct (cacheDecisions_spec options cks projects w Hnames)
    as (caches & count & events & Hrun & Hev & Hoff & Hdec).
  unfold bootstrapBuilds. rewrite bind_run, Hrun.
  pose proof (buildPhase_behaves env caches batches) as Hbuild.
  case_bool_decide as Hcount.
  - exists caches, (events ++ [Log Success (pretty count +:+ " bootstrap builds are cached")]).
    split; [apply Forall_app; split; [done|by repeat constructor]|].
    split; [intros Hc; destruct (Hoff Hc) as [_ ->]; lia|]. split; [done|].
    rewrite bind_run, behaves_log, Hbuild, !extend_app, (assoc_L (++)). done.
  - exists caches, events.
    split; [done|]. split; [by intros Hc; apply Hoff|]. split; [done|].
    rewrite bind_run. unfold mret, M_ret. by rewrite Hbuild, extend_app.
Qed.

(** ** The steps on one project *)

Lemma stepsOn_none n events :
  Forall (λ e, buildEffectOn n e = false) events → stepsOn n events = [].
Proof.
  unfold stepsOn. induction 1 as [|e events He _ IH]; [done|].
  rewrite filter_cons_False; [done|congruence].
Qed.

Lemma stepsOn_app n events1 events2 :
  stepsOn n (events1 ++ events2) = stepsOn n events1 ++ stepsOn n events2.
Proof. apply filter_app. Qed.

Lemma replay_steps n events now1 now2 (s1 s2 : gmap string CacheRecord) :
  fingerprint <$> s1 !! n = fingerprint <$> s2 !! n →
  fingerprint <$> replay now1 events s1 !! n
  = fingerprint <$> replay now2 (stepsOn n events) s2 !! n.
Proof.
  revert now1 now2 s1 s2. unfold stepsOn.
  induction events as [|e events IH]; intros now1 now2 s1 s2 Hs; [done|].
  destruct (buildEffectOn n e) eqn:He.
  - rewrite filter_cons_True by done.
    destruct e; simpl in *; try done; try by apply IH.
    + apply bool_decide_eq_true in He as ->. apply IH.
      by rewrite !lookup_delete_eq.
    + apply bool_decide_eq_true in He as ->. apply IH.
      by rewrite !lookup_insert_eq.
  - rewrite filter_cons_False by congruence.
    destruct e; simpl in *; try done; try by apply IH.
    + apply bool_decide_eq_false in He. apply IH. by rewrite lookup_delete_ne.
    + apply bool_decide_eq_false in He. apply IH. by rewrite lookup_insert_ne.
Qed.

Lemma extend_steps w events n :
  fingerprint <$> cacheStore (extend w events) !! n
  = fingerprint <$> replay 0 (stepsOn n events) (cacheStore w) !! n.
Proof. by apply replay_steps. Qed.

Lemma extend_frame w events n :
  Forall (λ e, buildEffectOn n e = false) events →
  cacheStore (extend w events) !! n = cacheStore w !! n.
Proof. apply replay_frame. Qed.

Lemma buildStep_effect p : buildEffectOn (name p) (buildStep p) = true.
Proof. unfold buildStep. destruct (hasBuildTargets p); simpl; by apply bool_decide_eq_true. Qed.

Lemma buildStep_other p n : name p ≠ n → buildEffectOn n (buildStep p) = false.
Proof.
  intros H. unfold buildStep.
  destruct (hasBuildTargets p); simpl; by apply bool_decide_eq_false.
Qed.

Section UnitEvents.
Variable env : Env.
Variable caches : gmap string CacheEntry.
Hypothesis caches_own : ownHandles caches.

Lemma unitEvents_skipped p :
  (caches !! name p = None ∨
   ∃ entry, caches !! name p = Some entry ∧ valid entry = true) →
  unitEvents env caches p = [] ∧ unitResult env caches p = Ok tt.
Proof.
  intros H%(buildUnit_skipped env). split.
  - by eapply behaves_events.
  - by eapply behaves_result.
Qed.

Lemma unitEvents_stale p entry :
  caches !! name p = Some entry → valid entry = false →
  unitResult env caches p = unitOutcome (buildOutcome env p) ∧
  stepsOn (name p) (unitEvents env caches p)
  = [CacheDelete (name p); buildStep p] ++
    match buildOutcome env p with
    | Ok _ => [CacheWrite (name p) (BootstrapCacheFile.expectedValue (file entry))]
    | _ => []
    end.
Proof.
  intros Hentry Hstale.
  destruct (buildUnit_stale env caches p entry Hentry Hstale)
    as (before & after & Hbefore & Hafter & Hrun).
  rewrite (caches_own _ _ Hentry) in Hrun.
  unfold unitResult, unitEvents.
  rewrite (behaves_result _ _ _ Hrun), (behaves_events _ _ _ Hrun).
  split; [done|].
  rewrite !stepsOn_app, (stepsOn_none _ before) by by apply logs_no_effect.
  unfold stepsOn at 1. rewrite !filter_cons_True, filter_nil;
    [|apply buildStep_effect|by apply bool_decide_eq_true].
  simpl. do 2 f_equal.
  destruct (buildOutcome env p); [|done..].
  unfold stepsOn. rewrite filter_cons_True by by apply bool_decide_eq_true.
  f_equal. by apply stepsOn_none, logs_no_effect.
Qed.

Lemma unitEvents_own q n :
  name q ≠ n → Forall (λ e, buildEffectOn n e = false) (unitEvents env caches q).
Proof.
  intros Hne. destruct (caches !! name q) as [entry|] eqn:Hentry.
  - destruct (valid entry) eqn:Hvalid.
    + destruct (unitEvents_skipped q) as [-> _]; [right; eauto|done].
    + destruct (buildUnit_stale env caches q entry Hentry Hvalid)
        as (before & after & Hbefore & Hafter & Hrun).
      rewrite (caches_own _ _ Hentry) in Hrun.
      unfold unitEvents. rewrite (behaves_events _ _ _ Hrun).
      apply Forall_app. split; [by apply logs_no_effect|].
      apply Forall_cons. split; [by apply bool_decide_eq_false|].
      apply Forall_cons. split; [by apply buildStep_other|].
      destruct (buildOutcome env q); [|done..].
      apply Forall_cons. split; [by apply bool_decide_eq_false|].
      by apply logs_no_effect.
  - destruct (unitEvents_skipped q) as [-> _]; [by left|done].
Qed.

Lemma unit_no_effect q n :
  name q ≠ n ∨ unitEvents env caches q = [] →
  Forall (λ e, buildEffectOn n e = false) (startEvents env caches q)
  ∧ Forall (λ e, buildEffectOn n e = false) (finishEvents env caches q).
Proof.
  intros Hq. apply Forall_app. rewrite <- unitEvents_async.
  destruct Hq as [Hne| ->]; [by apply unitEvents_own|done].
Qed.

Lemma units_frame (f : Project → list Event) n (units : list Project) :
  (∀ q, q ∈ units → Forall (λ e, buildEffectOn n e = false) (f q)) →
  Forall (λ e, buildEffectOn n e = false) (mjoin (f <$> units)).
Proof.
  induction units as [|q units IH]; intros Hunits; [done|].
  rewrite fmap_cons, join_cons. apply Forall_app. split.
  - apply Hunits. left.
  - apply IH. intros q' Hq'. apply Hunits. by right.
Qed.

Lemma units_none (f : Project → list Event) p (units : list Project) :
  (∀ q, name q ≠ name p → Forall (λ e, buildEffectOn (name p) e = false) (f q)) →
  (∀ q, q ∈ units → name q ≠ name p) →
  stepsOn (name p) (mjoin (f <$> units)) = [].
Proof.
  intros Hown Hunits. apply stepsOn_none, units_frame.
  intros q Hq. by apply Hown, Hunits.
Qed.

Lemma units_steps (f : Project → list Event) p (units : list Project) :
  (∀ q, name q ≠ name p → Forall (λ e, buildEffectOn (name p) e = false) (f q)) →
  NoDup (name <$> units) → p ∈ units →
  stepsOn (name p) (mjoin (f <$> units)) = stepsOn (name p) (f p).
Proof.
  intros Hown Hnames (l1 & l2 & ->)%list_elem_of_split.
  rewrite fmap_app, fmap_cons in Hnames.
  apply NoDup_app in Hnames as (_ & Hl1 & [Hl2 _]%NoDup_cons).
  rewrite fmap_app, fmap_cons, join_app, join_cons, !stepsOn_app.
  rewrite (units_none f p l1), (units_none f p l2); [by rewrite app_nil_r|done|..|done|].
  - intros q Hq Heq. apply Hl2. rewrite <- Heq. by apply list_elem_of_fmap_2.
  - intros q Hq Heq.
    apply (Hl1 (name q)); [by apply list_elem_of_fmap_2|]. rewrite Heq. left.
Qed.

Lemma startEvents_own q n :
  name q ≠ n → Forall (λ e, buildEffectOn n e = false) (startEvents env caches q).
Proof. intros Hne. apply unit_no_effect. by left. Qed.

Lemma finishEvents_own q n :
  name q ≠ n → Forall (λ e, buildEffectOn n e = false) (finishEvents env caches q).
Proof. intros Hne. apply unit_no_effect. by left. Qed.

(** No step on [n] is taken when every unit of the batches either belongs
    to another project or issues nothing. *)
Lemma buildEvents_frame n batches :
  (∀ q, q ∈ mjoin batches → name q ≠ n ∨ unitEvents env caches q = []) →
  Forall (λ e, buildEffectOn n e = false) (buildEvents env caches batches).
Proof.
  unfold buildEvents. induction batches as [|batch rest IH]; intros Hunits; [done|].
  simpl scheduleEvents. apply Forall_app. split; [|apply Forall_app; split].
  - apply units_frame. intros q Hq. apply unit_no_effect, Hunits.
    rewrite join_cons. apply elem_of_app. by left.
  - apply units_frame. intros q Hq%elem_of_sortBy. apply unit_no_effect, Hunits.
    rewrite join_cons. apply elem_of_app. by left.
  - destruct (forallb _ batch); [|done]. apply IH. intros q Hq. apply Hunits.
    rewrite join_cons. apply elem_of_app. by right.
Qed.

(** The steps on a project of the batches: those of its unit when the unit
    is started, none otherwise. *)
Lemma buildEvents_steps p batches :
  NoDup (name <$> mjoin batches) → p ∈ mjoin batches →
  stepsOn (name p) (buildEvents env caches batches)
  = (if bool_decide (p ∈ startedBatches (unitResult env caches) batches)
     then stepsOn (name p) (unitEvents env caches p) else []).
Proof.
  unfold buildEvents. induction batches as [|batch rest IH]; intros Hnames Hp;
    [by apply elem_of_nil in Hp|].
  rewrite join_cons, fmap_app in Hnames.
  apply NoDup_app in Hnames as (Hbatch & Hdisjoint & Hrest).
  simpl scheduleEvents. simpl startedBatches.
  rewrite !stepsOn_app.
  set (outcome := unitResult env caches) in *.
  set (ordered := sortBy (buildDuration env) batch).
  assert (NoDup (name <$> ordered)) as Hordered.
  { unfold ordered. by rewrite sortBy_Permutation. }
  destruct (decide (p ∈ batch)) as [Hin|Hout].
  - assert (∀ q, q ∈ mjoin rest → name q ≠ name p) as Hother.
    { intros q Hq Heq. apply (Hdisjoint (name p)); [by apply list_elem_of_fmap_2|].
      rewrite <- Heq. by apply list_elem_of_fmap_2. }
    rewrite (units_steps (startEvents env caches) p batch
               (λ q, startEvents_own q (name p))) by done.
    rewrite (units_steps (finishEvents env caches) p ordered
               (λ q, finishEvents_own q (name p))); [|done|by apply elem_of_sortBy].
    rewrite (stepsOn_none _ (if forallb _ batch then _ else _)), !app_nil_r.
    2:{ destruct (forallb _ batch); [|done]. apply buildEvents_frame.
        intros q Hq. left. by apply Hother. }
    rewrite (bool_decide_eq_true_2 (p ∈ batch ++ _)) by (apply elem_of_app; by left).
    by rewrite unitEvents_async, stepsOn_app.
  - rewrite join_cons in Hp. apply elem_of_app in Hp as [?|Hp]; [done|].
    assert (∀ q, q ∈ batch → name q ≠ name p) as Hother.
    { intros q Hq Heq. apply (Hdisjoint (name p)); [|by apply list_elem_of_fmap_2].
      rewrite <- Heq. by apply list_elem_of_fmap_2. }
    rewrite (units_none (startEvents env caches) p batch
               (λ q, startEvents_own q (name p))) by done.
    rewrite (units_none (finishEvents env caches) p ordered
               (λ q, finishEvents_own q (name p))).
    2:{ intros q Hq%elem_of_sortBy. by apply Hother. }
    simpl app.
    destruct (forallb _ batch).
    + rewrite (IH Hrest Hp).
      rewrite (bool_decide_ext (p ∈ batch ++ _) (p ∈ startedBatches outcome rest));
        [done|].
      rewrite elem_of_app; split; auto; by intros [?|?].
    + rewrite app_nil_r, bool_decide_eq_false_2; done.
Qed.

End UnitEvents.

(** ** A project across the whole build phase *)

Lemma started_in_projects env caches (projects : list Project) batches q :
  mjoin batches ≡ₚ projects →
  q ∈ startedBatches (unitResult env caches) batches → q ∈ projects.
Proof.
  intros Hperm Hq. rewrite <- Hperm.
  destruct (startedBatches_prefix (unitResult env caches) batches) as [k ->].
  apply elem_of_app. by left.
Qed.

Lemma skipped_project_frame env options cks projects batches w p :
  NoDup (name <$> projects) → p ∈ projects →
  needsBootstrap p = false ∨
    valid (decisionFor options cks (cacheStore w) p) = true →
  ∃ r events,
    bootstrapBuilds env options cks projects batches w = (r, extend w events)
    ∧ Forall (λ e, buildEffectOn (name p) e = false) events.
Proof.
  intros Hnames Hp Hskip.
  destruct (bootstrapBuilds_spec env options cks projects batches w Hnames)
    as (caches & decisions & Hdecisions & _ & Hcaches & Hrun).
  eexists _, _. split; [exact Hrun|].
  apply Forall_app. split; [by apply decisions_no_effect|].
  apply buildEvents_frame; [by eapply decides_ownHandles|].
  intros q _. destruct (decide (name q = name p)) as [Heq|Hne]; [right|by left].
  apply unitEvents_skipped. rewrite Heq, (proj1 Hcaches p Hp).
  destruct Hskip as [->|Hvalid]; [by left|].
  destruct (needsBootstrap p); [right|by left]. eauto.
Qed.

(** What the build phase does to a stale project: nothing when its unit is
    not started; when it is started, the delete and the build step, and
    the write after them exactly when the build step has succeeded. *)
Lemma stale_project_steps env options cks projects batches w p :
  NoDup (name <$> projects) → mjoin batches ≡ₚ projects → p ∈ projects →
  needsBootstrap p = true →
  valid (decisionFor options cks (cacheStore w) p) = false →
  ∃ r events caches,
    bootstrapBuilds env options cks projects batches w = (r, extend w events)
    ∧ decides options cks (cacheStore w) projects caches
    ∧ r = scheduleOutcome (unitResult env caches) (settleOrder env batches)
    ∧ (((p ∉ startedBatches (unitResult env caches) batches)
        ∧ stepsOn (name p) events = [] ∧ r ≠ Ok tt)
       ∨ (p ∈ startedBatches (unitResult env caches) batches
          ∧ buildOutcome env p = Ok tt
          ∧ stepsOn (name p) events
            = [CacheDelete (name p); buildStep p; CacheWrite (name p) (cks (name p))]
          ∧ recorded (cacheStore (extend w events)) (name p) (cks (name p)))
       ∨ (p ∈ startedBatches (unitResult env caches) batches
          ∧ buildOutcome env p ≠ Ok tt
          ∧ r ≠ Ok tt
          ∧ stepsOn (name p) events = [CacheDelete (name p); buildStep p]
          ∧ cacheStore (extend w events) !! name p = None)).
Proof.
  intros Hnames Hperm Hp Hneeds Hstale.
  destruct (bootstrapBuilds_spec env options cks projects batches w Hnames)
    as (caches & decisions & Hdecisions & _ & Hcaches & Hrun).
  pose proof (decides_ownHandles _ _ _ _ _ Hcaches) as Hown.
  eexists _, _, caches. split; [exact Hrun|]. split; [done|]. split; [done|].
  set (outcome := unitResult env caches).
  set (events := decisions ++ buildEvents env caches batches).
  assert (caches !! name p = Some (decisionFor options cks (cacheStore w) p)) as Hentry.
  { by rewrite (proj1 Hcaches p Hp), Hneeds. }
  destruct (unitEvents_stale env caches Hown p _ Hentry Hstale) as [Hresult Hunit].
  assert (stepsOn (name p) events
          = (if bool_decide (p ∈ startedBatches outcome batches)
             then [CacheDelete (name p); buildStep p] ++
                  match buildOutcome env p with
                  | Ok _ => [CacheWrite (name p) (cks (name p))]
                  | _ => []
                  end
             else [])) as Hsteps.
  { unfold events.
    rewrite stepsOn_app, (stepsOn_none _ decisions) by by apply decisions_no_effect.
    rewrite buildEvents_steps, Hunit; [done|done|..].
    - by rewrite Hperm.
    - by rewrite Hperm. }
  assert (fingerprint <$> cacheStore (extend w events) !! name p
          = fingerprint <$> replay 0 (stepsOn (name p) events) (cacheStore w) !! name p)
    as Hstore by apply extend_steps.
  assert (scheduleOutcome outcome (settleOrder env batches) = Ok tt →
          ∀ q, q ∈ mjoin batches → outcome q = Ok tt) as Hok.
  { unfold settleOrder. intros Hr. exact (proj1 (scheduleOutcome_sorted_Ok _ _ _) Hr). }
  rewrite Hsteps in Hstore |- *.
  destruct (decide (p ∈ startedBatches outcome batches)) as [Hstarted|Hnot].
  - rewrite (bool_decide_eq_true_2 _ Hstarted) in Hstore |- *. right.
    destruct (buildOutcome env p) as [[]|e|] eqn:Hout.
    + left. split; [done|]. split; [done|]. split; [done|].
      unfold recorded, buildStep in *. simpl in *.
      destruct (hasBuildTargets p); simpl in Hstore;
        rewrite lookup_insert_eq in Hstore;
        (destruct (replay _ events _ !! name p) as [r|]; [|done]);
        exists r; (split; [done|]); simpl in Hstore; congruence.
    + right. split; [done|]. split; [done|]. split.
      { intros Hr. specialize (Hok Hr p). rewrite Hperm in Hok.
        specialize (Hok Hp). unfold outcome in Hok. by rewrite Hresult in Hok. }
      split; [done|].
      unfold buildStep in *. simpl in *.
      destruct (hasBuildTargets p); simpl in Hstore;
        rewrite lookup_delete_eq in Hstore;
        by destruct (replay _ events _ !! name p).
    + right. split; [done|]. split; [done|]. split.
      { intros Hr. specialize (Hok Hr p). rewrite Hperm in Hok.
        specialize (Hok Hp). unfold outcome in Hok. by rewrite Hresult in Hok. }
      split; [done|].
      unfold buildStep in *. simpl in *.
      destruct (hasBuildTargets p); simpl in Hstore;
        rewrite lookup_delete_eq in Hstore;
        by destruct (replay _ events _ !! name p).
  - left. split; [done|].
    rewrite (bool_decide_eq_false_2 _ Hnot).
    split; [done|]. intros Hr. apply Hnot.
    rewrite all_started; [by rewrite Hperm|by apply Hok].
Qed.

Lemma valid_decisionFor options cks store p :
  valid (decisionFor options cks store p) = true ↔
  cache options = true ∧ recorded store (name p) (cks (name p)).
Proof.
  unfold decisionFor, recorded, BootstrapCacheFile.valid. simpl.
  rewrite andb_true_iff. apply and_iff_compat_l.
  destruct (store !! name p) as [r|].
  - rewrite bool_decide_eq_true. split; [eauto|]. by intros (? & [= <-] & ?).
  - split; [done|]. by intros (? & ? & _).
Qed.

Lemma stale_decisionFor options cks store p :
  ¬ (cache options = true ∧ recorded store (name p) (cks (name p))) →
  valid (decisionFor options cks store p) = false.
Proof. rewrite <- valid_decisionFor. by destruct (valid _). Qed.

Lemma needsBootstrap_true p :
  needsBootstrap p = true ↔
  hasScript p "osd:bootstrap" = true ∨ hasBuildTargets p = true.
Proof. apply orb_true_iff. Qed.

Lemma needsBootstrap_false p :
  needsBootstrap p = false ↔
  hasScript p "osd:bootstrap" = false ∧ hasBuildTargets p = false.
Proof. apply orb_false_iff. Qed.

Lemma batched_partition projects g scoped batches :
  topologicallyBatchProjects projects g scoped = Batching.Batched batches →
  mjoin batches ≡ₚ projects.
Proof. apply layers_partition. Qed.

Lemma Sample_batches_partition : mjoin Sample.batches ≡ₚ Sample.projects.
Proof. apply (batched_partition _ Sample.graph false), Sample_batches. Qed.

Lemma unitEvents_build env caches p :
  Forall (λ e, isBuildEvent e = true) (unitEvents env caches p).
Proof.
  destruct (caches !! name p) as [entry|] eqn:Hentry.
  - destruct (valid entry) eqn:Hvalid.
    + destruct (unitEvents_skipped env caches p) as [-> _]; [right; eauto|done].
    + destruct (buildUnit_stale env caches p entry Hentry Hvalid)
        as (before & after & Hbefore & Hafter & Hrun).
      unfold unitEvents. rewrite (behaves_events _ _ _ Hrun).
      assert (∀ l, Forall (λ e, isLog e = true) l → Forall (λ e, isBuildEvent e = true) l)
        as Hlogs.
      { intros l Hl. eapply Forall_impl; [exact Hl|]. by intros []. }
      apply Forall_app. split; [by apply Hlogs|].
      apply Forall_cons. split; [done|].
      apply Forall_cons. split; [unfold buildStep; by destruct (hasBuildTargets p)|].
      destruct (buildOutcome env p); [|done..].
      apply Forall_cons. split; [done|]. by apply Hlogs.
  - destruct (unitEvents_skipped env caches p) as [-> _]; [by left|done].
Qed.

Lemma buildEvents_Forall (P : Event → Prop) env caches batches :
  (∀ q, q ∈ mjoin batches → Forall P (unitEvents env caches q)) →
  Forall P (buildEvents env caches batches).
Proof.
  unfold buildEvents. induction batches as [|batch rest IH]; intros Hunits; [done|].
  assert (∀ q, q ∈ batch →
               Forall P (startEvents env caches q)
               ∧ Forall P (finishEvents env caches q)) as Hbatch.
  { intros q Hq. apply Forall_app. rewrite <- unitEvents_async. apply Hunits.
    rewrite join_cons. apply elem_of_app. by left. }
  simpl scheduleEvents. apply Forall_app. split; [|apply Forall_app; split].
  - apply Forall_forall.
    intros e (events & He & (q & -> & Hq)%list_elem_of_fmap)%list_elem_of_join.
    destruct (Hbatch q Hq) as [Hstart _]. rewrite Forall_forall in Hstart. auto.
  - apply Forall_forall.
    intros e (events & He & (q & -> & Hq)%list_elem_of_fmap)%list_elem_of_join.
    apply elem_of_sortBy in Hq.
    destruct (Hbatch q Hq) as [_ Hfinish]. rewrite Forall_forall in Hfinish. auto.
  - destruct (forallb _ batch); [|done]. apply IH. intros q Hq. apply Hunits.
    rewrite join_cons. apply elem_of_app. by right.
Qed.

Lemma buildEvents_build env caches batches :
  Forall (λ e, isBuildEvent e = true) (buildEvents env caches batches).
Proof. apply buildEvents_Forall. intros q _. apply unitEvents_build. Qed.

(** ** The install phase *)

Lemma forEach_app {A} (items1 items2 : list A) (body : A → M unit) (w : World) :
  forEach (items1 ++ items2) body w = (forEach items1 body ;; forEach items2 body) w.
Proof.
  revert w. induction items1 as [|item items1 IH]; intros w; [done|].
  simpl. rewrite !bind_run. destruct (body item w) as [[[]|e|] w1]; [|done..].
  by rewrite IH, bind_run.
Qed.

Lemma forEach_join {A} (batches : list (list A)) (body : A → M unit) (w : World) :
  forEach batches (λ batch, forEach batch body) w = forEach (mjoin batches) body w.
Proof.
  revert w. induction batches as [|batch batches IH]; intros w; [done|].
  rewrite join_cons, forEach_app. simpl. rewrite !bind_run.
  destruct (forEach batch body w) as [[[]|e|] w1]; [|done..]. apply IH.
Qed.

Section InstallPhase.
Variable env : Env.
Variable extraArgs : list string.

Let installs (p : Project) : Prop :=
  isWorkspaceProject p = false ∧ hasDependencies p = true.
Let fails (p : Project) : bool :=
  negb (succeeded (installDependencies env p extraArgs)).
Let invocation (p : Project) : Event := InstallDependencies (name p) extraArgs.
Let body (project : Project) : M unit :=
  if isWorkspaceProject project then
    log Verbose ("Skipping workspace project: " +:+ name project)
  else if hasDependencies project then
    call (InstallDependencies (name project) extraArgs)
         (installDependencies env project extraArgs)
  else mret tt.

Lemma install_each (ps : list Project) :
  ∃ r events,
    behaves (forEach ps body) r events
    ∧ Forall (λ e, isInstallEvent e = true) events
    ∧ effects events = invocation <$> upToFirst fails (filter installs ps)
    ∧ (r = Ok tt ↔
       Forall (λ p, installDependencies env p extraArgs = Ok tt) (filter installs ps)).
Proof.
  induction ps as [|p ps (r & events & Hrun & Hev & Heff & Hok)].
  { exists (Ok tt), []. split; [apply behaves_ret|]. by repeat split. }
  simpl forEach. unfold body, installs, fails in *. cbv beta.
  destruct (isWorkspaceProject p) eqn:Hws.
  - exists r, (Log Verbose ("Skipping workspace project: " +:+ name p) :: events).
    rewrite filter_cons_False by (intros [? _]; congruence).
    split; [by eapply (behaves_bind _ _ tt [_]); [apply behaves_log|]|].
    split; [by constructor|]. split; [|done].
    unfold effects. by rewrite filter_cons_False.
  - destruct (hasDependencies p) eqn:Hdeps.
    + rewrite filter_cons_True by done. simpl upToFirst.
      destruct (installDependencies env p extraArgs) as [[]|e|] eqn:Hinstall; simpl.
      * exists r, (invocation p :: events).
        split; [by eapply (behaves_bind _ _ tt [_]); [apply behaves_call|]|].
        split; [by constructor|]. split.
        -- unfold effects in *. rewrite filter_cons_True by done. by f_equal.
        -- rewrite Forall_cons. tauto.
      * exists (Throw e), [invocation p].
        split; [by apply behaves_bind_throw, behaves_call|].
        split; [by repeat constructor|]. split; [done|].
        rewrite Forall_cons. split; [done|]. intros [? _]. congruence.
      * exists Halt, [invocation p].
        split; [by apply behaves_bind_halt, behaves_call|].
        split; [by repeat constructor|]. split; [done|].
        rewrite Forall_cons. split; [done|]. intros [? _]. congruence.
    + exists r, events. rewrite filter_cons_False by (intros [_ ?]; congruence).
      split; [|done]. by eapply (behaves_bind _ _ tt []); [apply behaves_ret|].
Qed.

Lemma installPhase_behaves (batches : list (list Project)) :
  ∃ r events,
    behaves (installPhase env extraArgs batches) r events
    ∧ Forall (λ e, isInstallEvent e = true) events
    ∧ effects events = invocation <$> upToFirst fails (installable batches)
    ∧ (r = Ok tt ↔
       Forall (λ p, installDependencies env p extraArgs = Ok tt) (installable batches)).
Proof.
  destruct (install_each (mjoin batches)) as (r & events & Hrun & Hrest).
  exists r, events. split; [|done].
  intros w. unfold installPhase. by rewrite forEach_join.
Qed.

End InstallPhase.

(** ** Failure of a batch *)

Lemma batched_order projects g batches a b i j :
  topologicallyBatchProjects projects g false = Batching.Batched batches →
  NoDup (name <$> projects) →
  inBatch batches i a → inBatch batches j b →
  dependsOn g (name a) (name b) →
  j < i.
Proof.
  intros Hb Hnames Ha Hbj Hdep.
  pose proof (batched_partition _ _ _ _ Hb) as Hperm.
  assert (NoDup (mjoin batches)) as Hnd.
  { rewrite Hperm. by eapply NoDup_fmap_1. }
  assert (∀ k p, inBatch batches k p → p ∈ projects) as Hin.
  { intros k p Hp. rewrite <- Hperm. by eapply inBatch_join. }
  destruct (layers_order _ _ _ _ _ _ Hb i a (name b)) as (j' & q & Hlt & Hq & Hname);
    [done|done|done| |].
  { apply list_elem_of_fmap_2. by eapply Hin. }
  assert (q = b) as -> by (eapply name_inj_NoDup; eauto).
  assert (j' = j) as -> by (by eapply inBatch_unique). done.
Qed.

Lemma inBatch_middle (pre : list (list Project)) batch post p :
  p ∈ batch → inBatch (pre ++ batch :: post) (length pre) p.
Proof.
  intros Hp. exists batch. split; [|done].
  by rewrite lookup_app_r, Nat.sub_diag.
Qed.

Lemma inBatch_before (pre : list (list Project)) batch post p :
  p ∈ mjoin pre ++ batch →
  ∃ i, i ≤ length pre ∧ inBatch (pre ++ batch :: post) i p.
Proof.
  intros [Hp|Hp]%elem_of_app.
  - apply join_inBatch in Hp as (i & b & Hi & Hp).
    exists i. split; [apply lookup_lt_Some in Hi; lia|].
    exists b. split; [|done]. by apply lookup_app_l_Some.
  - exists (length pre). split; [done|]. by apply inBatch_middle.
Qed.

Lemma Sample_caches_own : ownHandles Sample.caches.
Proof.
  intros n entry. unfold Sample.caches.
  destruct (decide (n = "core")) as [->|]; [by intros [= <-]|].
  destruct (decide (n = "plugin")) as [->|]; [by intros [= <-]|].
  destruct (decide (n = "ui")) as [->|]; [by intros [= <-]|].
  by rewrite !lookup_insert_ne, lookup_singleton_ne.
Qed.

(** ** Running the build phase twice *)

Lemma scheduleOutcome_all_ok {A} (outcome : A → Result unit) (batches : list (list A)) :
  (∀ item, outcome item = Ok tt) → scheduleOutcome outcome batches = Ok tt.
Proof.
  intros Hall. induction batches as [|batch batches IH]; [done|].
  simpl. assert (settled outcome batch = Ok []) as ->; [|done].
  apply settled_success, forallb_forall. intros item _. by rewrite Hall.
Qed.

Lemma buildEvents_all_skipped env caches batches :
  (∀ p, unitEvents env caches p = []) → buildEvents env caches batches = [].
Proof.
  intros Hall.
  assert (Forall (λ _, False) (buildEvents env caches batches)) as Hnone.
  { apply buildEvents_Forall. intros q _. by rewrite Hall. }
  by destruct Hnone.
Qed.

Lemma bootstrapBuilds_cached env options cks projects batches w :
  NoDup (name <$> projects) →
  cache options = true →
  (∀ p, p ∈ projects → needsBootstrap p = true →
        recorded (cacheStore w) (name p) (cks (name p))) →
  ∃ events,
    bootstrapBuilds env options cks projects batches w = (Ok tt, extend w events)
    ∧ Forall (λ e, isDecisionEvent e = true) events.
Proof.
  intros Hnames Hon Hrecorded.
  destruct (bootstrapBuilds_spec env options cks projects batches w Hnames)
    as (caches & decisions & Hdecisions & _ & Hcaches & Hrun).
  assert (∀ q, unitEvents env caches q = [] ∧ unitResult env caches q = Ok tt) as Hskip.
  { intros q. apply unitEvents_skipped.
    destruct (caches !! name q) as [entry|] eqn:Hentry; [right|by left].
    exists entry. split; [done|].
    apply (proj2 Hcaches) in Hentry as (p & Hp & Hname & Hneeds & ->).
    apply valid_decisionFor. split; [done|]. by apply Hrecorded. }
  exists decisions. split; [|done].
  rewrite Hrun, buildEvents_all_skipped, app_nil_r by apply Hskip.
  by rewrite scheduleOutcome_all_ok by apply Hskip.
Qed.

Lemma built_project_recorded env options cks projects batches w r w' events p :
  NoDup (name <$> projects) → mjoin batches ≡ₚ projects → p ∈ projects →
  bootstrapBuilds env options cks projects batches w = (r, w') →
  trace w' = trace w ++ events →
  needsBootstrap p = true →
  r = Ok tt ∨ (∃ fp, CacheWrite (name p) fp ∈ events) →
  recorded (cacheStore w') (name p) (cks (name p)).
Proof.
  intros Hnames Hperm Hp Hrun Htrace Hneeds Hbuilt.
  destruct (valid (decisionFor options cks (cacheStore w) p)) eqn:Hvalid.
  - destruct (skipped_project_frame env options cks projects batches w p)
      as (r0 & events0 & Hrun0 & Hframe); auto.
    rewrite Hrun in Hrun0. injection Hrun0 as -> ->.
    apply valid_decisionFor in Hvalid as [_ Hrec].
    unfold recorded. by rewrite extend_frame.
  - destruct (stale_project_steps env options cks projects batches w p)
      as (r0 & events0 & caches & Hrun0 & _ & _ & Hcases); try done.
    rewrite Hrun in Hrun0. injection Hrun0 as -> ->.
    rewrite extend_trace in Htrace. apply app_inv_head in Htrace as <-.
    destruct Hcases as [(_ & Hnone & Hr)|[(_ & _ & _ & Hrec)|(_ & _ & Hr & Hsteps & _)]];
      [|done|].
    + destruct Hbuilt as [?|[fp Hfp]]; [done|].
      assert (CacheWrite (name p) fp ∈ stepsOn (name p) events0) as Hin.
      { apply list_elem_of_filter. split; [by apply bool_decide_eq_true|done]. }
      rewrite Hnone in Hin. by apply elem_of_nil in Hin.
    + destruct Hbuilt as [?|[fp Hfp]]; [done|].
      assert (CacheWrite (name p) fp ∈ stepsOn (name p) events0) as Hin.
      { apply list_elem_of_filter. split; [by apply bool_decide_eq_true|done]. }
      rewrite Hsteps in Hin. unfold buildStep in Hin.
      destruct (hasBuildTargets p);
        repeat (apply elem_of_cons in Hin as [Hin|Hin]; [done|]);
        by apply elem_of_nil in Hin.
Qed.

(** ** The units of work under the decisions of the command *)

Lemma buildUnit_trace env cks caches p entry :
  caches !! name p = Some entry → valid entry = false →
  file entry = BootstrapCacheFile.new p cks →
  behaves (buildUnit env caches p) (unitOutcome (buildOutcome env p))
          (unitTrace env cks p).
Proof.
  intros Hsome Hvalid Hfile.
  pose proof (oblivious_buildUnit env caches p) as Hobl.
  unfold oblivious, resultOf, eventsOf, buildUnit, buildOutcome, unitTrace,
    buildOutcome, buildStep in *.
  rewrite Hsome, Hvalid, Hfile in Hobl |- *.
  destruct (hasBuildTargets p), (hasScript p "osd:bootstrap");
    match goal with
    | |- context [buildForTargets ?e ?p ?b] => destruct (buildForTargets e p b) as [[]| |]
    | |- context [runScriptStreaming ?e ?p ?b] => destruct (runScriptStreaming e p b) as [[]| |]
    end; exact Hobl.
Qed.

Lemma unit_decided env options cks store projects caches q :
  decides options cks store projects caches → q ∈ projects →
  unitResult env caches q
  = (if isStale options cks store q then unitOutcome (buildOutcome env q) else Ok tt)
  ∧ unitEvents env caches q
    = (if isStale options cks store q then unitTrace env cks q else []).
Proof.
  intros [Hin _] Hq. specialize (Hin q Hq). unfold isStale.
  destruct (needsBootstrap q); cbn [andb].
  - destruct (valid (decisionFor options cks store q)) eqn:Hvalid; cbn [negb].
    + destruct (unitEvents_skipped env caches q) as [-> ->]; [right; eauto|done].
    + pose proof (buildUnit_trace env cks caches q _ Hin Hvalid eq_refl) as Hstale.
      unfold unitResult, unitEvents.
      by rewrite (behaves_result _ _ _ Hstale), (behaves_events _ _ _ Hstale).
  - destruct (unitEvents_skipped env caches q) as [-> ->]; [by left|done].
Qed.

Lemma isStale_true options cks store p :
  isStale options cks store p = true ↔
  needsBootstrap p = true
  ∧ ¬ (cache options = true ∧ recorded store (name p) (cks (name p))).
Proof.
  unfold isStale. rewrite andb_true_iff, negb_true_iff, <- valid_decisionFor.
  apply and_iff_compat_l.
  destruct (valid (decisionFor options cks store p)); split; done.
Qed.

Lemma unitOutcome_Ok r : unitOutcome r = Ok tt ↔ r = Ok tt.
Proof. by destruct r as [[]|e|]. Qed.

(** ** A stale project and the batches before its own *)

(** The unit of a stale project is started exactly when every stale
    project of the batches before has been built.  Then its steps are
    settled by its own build step alone. *)
Lemma stale_project_outcome env options cks projects pre batch post w p :
  NoDup (name <$> projects) →
  mjoin (pre ++ batch :: post) ≡ₚ projects →
  p ∈ batch →
  needsBootstrap p = true →
  valid (decisionFor options cks (cacheStore w) p) = false →
  ∃ r events,
    bootstrapBuilds env options cks projects (pre ++ batch :: post) w
    = (r, extend w events)
    ∧ ((∀ q, q ∈ mjoin pre → isStale options cks (cacheStore w) q = true →
             buildOutcome env q = Ok tt) →
       (buildOutcome env p = Ok tt
        ∧ stepsOn (name p) events
          = [CacheDelete (name p); buildStep p; CacheWrite (name p) (cks (name p))]
        ∧ recorded (cacheStore (extend w events)) (name p) (cks (name p)))
       ∨ (buildOutcome env p ≠ Ok tt
          ∧ r ≠ Ok tt
          ∧ stepsOn (name p) events = [CacheDelete (name p); buildStep p]
          ∧ cacheStore (extend w events) !! name p = None))
    ∧ (¬ (∀ q, q ∈ mjoin pre → isStale options cks (cacheStore w) q = true →
               buildOutcome env q = Ok tt) →
       stepsOn (name p) events = [] ∧ r ≠ Ok tt).
Proof.
  intros Hnames Hperm Hp Hneeds Hstale.
  assert (p ∈ projects) as Hin.
  { rewrite <- Hperm, join_app, join_cons. apply elem_of_app. right.
    apply elem_of_app. by left. }
  destruct (stale_project_steps env options cks projects (pre ++ batch :: post) w p)
    as (r & events & caches & Hrun & Hcaches & _ & Hcases); try done.
  exists r, events. split; [done|].
  assert (∀ q, q ∈ mjoin pre →
               unitResult env caches q
               = if isStale options cks (cacheStore w) q
                 then unitOutcome (buildOutcome env q) else Ok tt) as Hearlier.
  { intros q Hq. apply (unit_decided env _ _ _ _ _ q Hcaches).
    rewrite <- Hperm, join_app. apply elem_of_app. by left. }
  assert (p ∉ mjoin pre) as Hnot.
  { intros Hq. rewrite <- Hperm, join_app, join_cons, !fmap_app in Hnames.
    apply NoDup_app in Hnames as (_ & Hdisjoint & _).
    apply (Hdisjoint (name p)); [by apply list_elem_of_fmap_2|].
    apply elem_of_app. left. by apply list_elem_of_fmap_2. }
  pose proof (started_iff (unitResult env caches) pre batch post p Hp Hnot)
    as Hstarted.
  split.
  - intros Hpre.
    assert (p ∈ startedBatches (unitResult env caches) (pre ++ batch :: post))
      as Hyes.
    { apply Hstarted. intros q Hq. rewrite (Hearlier q Hq).
      destruct (isStale options cks (cacheStore w) q) eqn:Hq'; [|done].
      by rewrite (Hpre q Hq Hq'). }
    destruct Hcases as [(? & _)|[(_ & ?)|(_ & ?)]]; [done|by left|by right].
  - intros Hpre.
    destruct Hcases as [(_ & ?)|[(Hyes & _)|(Hyes & _)]]; [done|exfalso..];
      apply Hpre; intros q Hq Hq';
      pose proof (proj1 Hstarted Hyes q Hq) as Hresult;
      rewrite (Hearlier q Hq), Hq' in Hresult; by apply unitOutcome_Ok.
Qed.

(** ** A batch with a failure *)

Lemma sublist_join {A} (f : A → list Event) (q : A) (l : list A) :
  q ∈ l → f q `sublist_of` mjoin (f <$> l).
Proof.
  intros (l1 & l2 & ->)%list_elem_of_split.
  rewrite fmap_app, fmap_cons, join_app, join_cons.
  apply sublist_inserts_l, sublist_inserts_r. done.
Qed.

Lemma join_fmap_app {A} (f g : A → list Event) (l : list A) :
  mjoin ((λ q, f q ++ g q) <$> l) ≡ₚ mjoin (f <$> l) ++ mjoin (g <$> l).
Proof.
  induction l as [|q l IH]; [done|].
  rewrite !fmap_cons, !join_cons, IH.
  rewrite <- !(assoc_L (++)). f_equiv.
  rewrite !(assoc_L (++)). f_equiv. apply Permutation_app_comm.
Qed.

Lemma failuresOf_Permutation {A} (outcome : A → Result unit) (l1 l2 : list A) :
  l1 ≡ₚ l2 → failuresOf outcome l1 ≡ₚ failuresOf outcome l2.
Proof. intros Hperm. unfold failuresOf. by rewrite Hperm. Qed.

Lemma batchEvents_units env caches batch :
  batchEvents env caches batch ≡ₚ mjoin (unitEvents env caches <$> batch).
Proof.
  unfold batchEvents. rewrite (sortBy_Permutation (buildDuration env) batch).
  rewrite <- (join_fmap_app (startEvents env caches) (finishEvents env caches)).
  assert (unitEvents env caches <$> batch
          = (λ q, startEvents env caches q ++ finishEvents env caches q) <$> batch)
    as ->; [|done].
  apply list_fmap_ext. intros i q _. apply unitEvents_async.
Qed.

Lemma batchEvents_unit env caches batch q :
  q ∈ batch → unitEvents env caches q `sublist_of` batchEvents env caches batch.
Proof.
  intros Hq. rewrite unitEvents_async. unfold batchEvents. apply sublist_app.
  - by apply sublist_join.
  - by apply sublist_join, elem_of_sortBy.
Qed.

Lemma buildEvents_failure env caches pre batch post :
  (∀ p, p ∈ mjoin pre → unitResult env caches p = Ok tt) →
  (∀ p, p ∈ batch → unitResult env caches p ≠ Halt) →
  failuresOf (unitResult env caches) batch ≠ [] →
  buildEvents env caches (pre ++ batch :: post)
  = mjoin (batchEvents env caches <$> pre) ++ batchEvents env caches batch
  ∧ scheduleOutcome (unitResult env caches) (settleOrder env (pre ++ batch :: post))
    = Throw (propagated (failuresOf (unitResult env caches)
                           (sortBy (buildDuration env) batch))).
Proof.
  intros Hpre Hbatch Hfail. unfold buildEvents, settleOrder.
  set (outcome := unitResult env caches) in *.
  assert (existsb (λ item, hangs (outcome item)) batch = false) as Hhalt
    by by apply none_hangs.
  induction pre as [|b pre IH]; simpl.
  - assert (forallb (λ item, succeeded (outcome item)) batch = false) as ->.
    { apply not_true_is_false. intros Hall. apply Hfail. clear -Hall.
      unfold failuresOf. induction batch as [|x l IHl]; simpl in *; [done|].
      destruct (outcome x) as [[]| |]; simpl in *; auto; done. }
    rewrite app_nil_r. split; [done|].
    unfold settled.
    rewrite (existsb_Permutation _ _ _ (sortBy_Permutation (buildDuration env) batch)),
      Hhalt.
    assert (failuresOf outcome (sortBy (buildDuration env) batch) ≠ []) as Hfail'.
    { intros Hnil. apply Hfail, Permutation_nil_r.
      rewrite <- Hnil. apply failuresOf_Permutation. by rewrite sortBy_Permutation. }
    by destruct (failuresOf outcome (sortBy (buildDuration env) batch)).
  - assert (∀ item, item ∈ b → outcome item = Ok tt) as Hb.
    { intros item Hitem. apply Hpre. simpl. apply elem_of_app. by left. }
    assert (forallb (λ item, succeeded (outcome item)) b = true) as Hall
      by by apply all_succeeded.
    destruct IH as [IH1 IH2].
    { intros item Hitem. apply Hpre. simpl. apply elem_of_app. by right. }
    rewrite Hall, IH1.
    split; [unfold batchEvents; by rewrite <- !(assoc_L (++))|].
    assert (settled outcome (sortBy (buildDuration env) b) = Ok []) as ->
      by by apply settled_sorted_success.
    exact IH2.
Qed.

(** ** The phases of a run *)

Lemma installPhase_spec env extraArgs batches :
  ∃ r events,
    behaves (installPhase env extraArgs batches) r events
    ∧ Forall (λ e, isInstallEvent e = true) events
    ∧ (r = Ok tt →
       Forall (λ p, installDependencies env p extraArgs = Ok tt) (installable batches)
       ∧ effects events
         = (λ p, InstallDependencies (name p) extraArgs) <$> installable batches).
Proof.
  destruct (installPhase_behaves env extraArgs batches)
    as (r & events & Hbehaves & Hev & Heff & Hok).
  exists r, events. split; [done|]. split; [done|].
  intros Hr. apply Hok in Hr. split; [done|].
  rewrite Heff. f_equal. apply upToFirst_all.
  apply not_true_is_false. intros (p & Hp%list_elem_of_In & Hfail)%existsb_exists.
  rewrite Forall_forall in Hr. by rewrite (Hr p Hp) in Hfail.
Qed.

Lemma run_unfold env projects g options w :
  run env projects g options w =
    (batchedProjectsByWorkspace ← batched (topologicallyBatchProjects projects g true);
     batchedProjects ← batched (topologicallyBatchProjects projects g false);
     installPhase env (extraArgsOf options) batchedProjectsByWorkspace;;
     yarnLock ← call ReadYarnLock (readYarnLock env);
     call (ValidateDependencies (singleVersionOf env options))
          (validateDependencies env yarnLock (singleVersionOf env options));;
     call LinkProjectExecutables (linkProjectExecutables env projects g);;
     checksums ← call GetAllChecksums (getAllChecksums env yarnLock);
     bootstrapBuilds env options checksums projects batchedProjects) w.
Proof. reflexivity. Qed.

(** What a run does once both batchings have succeeded and the install
    phase has completed. *)
Lemma run_after_install env projects g options batches w :
  NoDup (name <$> projects) →
  ∃ r lock decisions builds,
    (yarnLock ← call ReadYarnLock (readYarnLock env);
     call (ValidateDependencies (singleVersionOf env options))
          (validateDependencies env yarnLock (singleVersionOf env options));;
     call LinkProjectExecutables (linkProjectExecutables env projects g);;
     checksums ← call GetAllChecksums (getAllChecksums env yarnLock);
     bootstrapBuilds env options checksums projects batches) w
    = (r, extend w (lock ++ decisions ++ builds))
    ∧ lock ≠ []
    ∧ lock `prefix_of` lockSteps env options
    ∧ Forall (λ e, isDecisionEvent e = true) decisions
    ∧ Forall (λ e, isBuildEvent e = true) builds
    ∧ (∀ yarnLock e,
         readYarnLock env = Ok yarnLock →
         validateDependencies env yarnLock (singleVersionOf env options) = Throw e →
         r = Throw e
         ∧ lock = [ReadYarnLock; ValidateDependencies (singleVersionOf env options)]
         ∧ decisions = [] ∧ builds = [])
    ∧ (decisions ++ builds ≠ [] ∨ r = Ok tt →
       lock = lockSteps env options
       ∧ ∃ yarnLock cks caches,
           readYarnLock env = Ok yarnLock
           ∧ validateDependencies env yarnLock (singleVersionOf env options) = Ok tt
           ∧ linkProjectExecutables env projects g = Ok tt
           ∧ getAllChecksums env yarnLock = Ok cks
           ∧ decides options cks (cacheStore w) projects caches
           ∧ builds = buildEvents env caches batches
           ∧ r = scheduleOutcome (unitResult env caches) (settleOrder env batches)).
Proof.
  intros Hnames. unfold lockSteps.
  rewrite bind_run, (behaves_call ReadYarnLock _ eq_refl).
  destruct (readYarnLock env) as [yarnLock|e|] eqn:Hread.
  2:{ exists (Throw e), [ReadYarnLock], [], [].
      split; [done|]. split; [done|]. split; [by eexists|].
      split; [done|]. split; [done|]. split; [done|]. by intros [|]. }
  2:{ exists Halt, [ReadYarnLock], [], [].
      split; [done|]. split; [done|]. split; [by eexists|].
      split; [done|]. split; [done|]. split; [done|]. by intros [|]. }
  rewrite bind_run, (behaves_call (ValidateDependencies _) _ eq_refl), extend_app.
  destruct (validateDependencies env yarnLock _) as [[]|e|] eqn:Hvalidate.
  2:{ exists (Throw e), [ReadYarnLock; ValidateDependencies (singleVersionOf env options)], [], [].
      split; [done|]. split; [done|]. split; [by eexists|].
      split; [done|]. split; [done|]. split; [|by intros [|]].
      intros ? ? [= <-]. rewrite Hvalidate. by intros [= <-]. }
  2:{ exists Halt, [ReadYarnLock; ValidateDependencies (singleVersionOf env options)], [], [].
      split; [done|]. split; [done|]. split; [by eexists|].
      split; [done|]. split; [done|]. split; [|by intros [|]].
      intros ? ? [= <-]. by rewrite Hvalidate. }
  assert (∀ yl e, Ok yarnLock = Ok yl →
            validateDependencies env yl (singleVersionOf env options) = Throw e → False)
    as Hvalidated.
  { intros ? ? [= <-]. by rewrite Hvalidate. }
  rewrite bind_run, (behaves_call LinkProjectExecutables _ eq_refl), extend_app.
  destruct (linkProjectExecutables env projects g) as [[]|e|] eqn:Hlink.
  2:{ eexists (Throw e), [_; _; _], [], [].
      split; [done|]. split; [done|]. split; [by eexists|].
      split; [done|]. split; [done|]. split; [|by intros [|]].
      intros yl e' Hyl He'. by destruct (Hvalidated yl e'). }
  2:{ eexists Halt, [_; _; _], [], [].
      split; [done|]. split; [done|]. split; [by eexists|].
      split; [done|]. split; [done|]. split; [|by intros [|]].
      intros yl e' Hyl He'. by destruct (Hvalidated yl e'). }
  rewrite bind_run, (behaves_call GetAllChecksums _ eq_refl), extend_app.
  destruct (getAllChecksums env yarnLock) as [cks|e|] eqn:Hchecksums.
  2:{ eexists (Throw e), [_; _; _; _], [], [].
      split; [done|]. split; [done|]. split; [done|].
      split; [done|]. split; [done|]. split; [|by intros [|]].
      intros yl e' Hyl He'. by destruct (Hvalidated yl e'). }
  2:{ eexists Halt, [_; _; _; _], [], [].
      split; [done|]. split; [done|]. split; [done|].
      split; [done|]. split; [done|]. split; [|by intros [|]].
      intros yl e' Hyl He'. by destruct (Hvalidated yl e'). }
  destruct (bootstrapBuilds_spec env options cks projects batches
              (extend w [ReadYarnLock; ValidateDependencies (singleVersionOf env options);
                         LinkProjectExecutables; GetAllChecksums]) Hnames)
    as (caches & decisions & Hdecisions & _ & Hcaches & Hrun).
  change (cacheStore (extend w _)) with (cacheStore w) in Hcaches.
  simpl app. rewrite Hrun, extend_app.
  eexists _, _, decisions, (buildEvents env caches batches).
  split; [done|]. split; [done|]. split; [done|].
  split; [done|]. split; [apply buildEvents_build|]. split.
  - intros yl e' Hyl He'. by destruct (Hvalidated yl e').
  - intros _. split; [done|]. exists yarnLock, cks, caches.
    split; [done|]. split; [done|]. split; [done|]. split; [done|].
    split; [exact Hcaches|]. by split.
Qed.

Lemma lockSteps_inert env options lock :
  lock `prefix_of` lockSteps env options →
  Forall (λ e, isCacheMutation e = false) lock.
Proof.
  intros [k Hk]. apply Forall_forall. intros e He.
  assert (e ∈ lockSteps env options) as Hin by (rewrite Hk; apply elem_of_app; by left).
  unfold lockSteps in Hin.
  repeat (apply elem_of_cons in Hin as [->|Hin]; [done|]).
  by apply elem_of_nil in Hin.
Qed.

(** Closes the case of a run that stops before the lock information is
    read, after the given install events. *)
Ltac run_stopped installs :=
  exists installs, (@nil Event), (@nil Event), (@nil Event);
  rewrite ?app_nil_r; simpl;
  (split; [by rewrite ?app_nil_r|]); (split; [done|]);
  (split; [apply prefix_nil|]); (split; [done|]); (split; [done|]);
  (split; [by rewrite ?replay_installs|]); (split; [done|]); (split; [done|]);
  by intros [|].

(** * The claims *)

(** ** Invalidate before the build, commit after its success *)

(** C1: the unit of work of a project whose cache decision is stale, once
    it is started (every stale project of the batches before it has been
    built), deletes the project's cache record, then runs its build step
    (the build targets or the [osd:bootstrap] script), and writes the new
    record only after the build step has succeeded: the steps on the
    project are the delete, the build step and the write, in this order,
    when the build step succeeds, and the delete and the build step alone
    when it fails or never returns.  In the latter case the phase does not
    complete, no record exists for the project afterwards, and the next run
    treats the project as stale, that is, it deletes the record and runs
    the build step again once it starts the project's unit. *)
Theorem invalidate_before_run_commit_after_success
    (env : Env) (options : Options) (cks : ChecksumMap)
    (projects : list Project)
    (pre : list (list Project)) (batch : list Project) (post : list (list Project))
    (w : World) (p : Project) :
  NoDup (name <$> projects) →
  mjoin (pre ++ batch :: post) ≡ₚ projects →
  p ∈ batch →
  hasScript p "osd:bootstrap" = true ∨ hasBuildTargets p = true →
  ¬ (cache options = true ∧ recorded (cacheStore w) (name p) (cks (name p))) →
  (∀ q, q ∈ mjoin pre →
        hasScript q "osd:bootstrap" = true ∨ hasBuildTargets q = true →
        ¬ (cache options = true ∧ recorded (cacheStore w) (name q) (cks (name q))) →
        buildOutcome env q = Ok tt) →
  ∃ r w' events,
    bootstrapBuilds env options cks projects (pre ++ batch :: post) w = (r, w')
    ∧ trace w' = trace w ++ events
    ∧ ((buildOutcome env p = Ok tt
        ∧ stepsOn (name p) events
          = [CacheDelete (name p); buildStep p; CacheWrite (name p) (cks (name p))]
        ∧ recorded (cacheStore w') (name p) (cks (name p)))
       ∨ (buildOutcome env p ≠ Ok tt
          ∧ r ≠ Ok tt
          ∧ stepsOn (name p) events = [CacheDelete (name p); buildStep p]
          ∧ cacheStore w' !! name p = None
          ∧ ∀ env' options' cks' pre' batch' post' w2,
              mjoin (pre' ++ batch' :: post') ≡ₚ projects →
              p ∈ batch' →
              cacheStore w2 = cacheStore w' →
              (∀ q, q ∈ mjoin pre' →
                    hasScript q "osd:bootstrap" = true ∨ hasBuildTargets q = true →
                    ¬ (cache options' = true
                       ∧ recorded (cacheStore w2) (name q) (cks' (name q))) →
                    buildOutcome env' q = Ok tt) →
              ∃ r' w3 events' rest,
                bootstrapBuilds env' options' cks' projects (pre' ++ batch' :: post') w2
                = (r', w3)
                ∧ trace w3 = trace w2 ++ events'
                ∧ stepsOn (name p) events'
                  = CacheDelete (name p) :: buildStep p :: rest)).
Proof.
  intros Hnames Hperm Hp Hneeds%needsBootstrap_true Hstale%stale_decisionFor Hpre.
  destruct (stale_project_outcome env options cks projects pre batch post w p)
    as (r & events & Hrun & Hcases & _); try done.
  exists r, (extend w events), events. split; [done|]. split; [done|].
  destruct Hcases as [?|(Hout & Hr & Hsteps & Hnone)]; [|by left|right].
  { intros q Hq [Hq1 Hq2]%isStale_true. apply Hpre; [done| |done].
    by apply needsBootstrap_true. }
  repeat (split; [done|]).
  intros env' options' cks' pre' batch' post' w2 Hperm' Hp' Hstore Hpre'.
  destruct (stale_project_outcome env' options' cks' projects pre' batch' post' w2 p)
    as (r' & events' & Hrun' & Hcases' & _); try done.
  { apply stale_decisionFor. intros [_ (rec & Hrec & _)]. congruence. }
  exists r', (extend w2 events'), events'.
  destruct Hcases' as [(_ & -> & _)|(_ & _ & -> & _)]; [|eexists; done..].
  intros q Hq [Hq1 Hq2]%isStale_true. apply Hpre'; [done| |done].
  by apply needsBootstrap_true.
Qed.

Lemma invalidate_before_run_commit_after_success_witness :
  ∃ r w' events,
    bootstrapBuilds Sample.failingEnv Sample.options Sample.checksums Sample.projects
      ([[Sample.docs; Sample.root]] ++ [Sample.core] :: [[Sample.plugin]; [Sample.ui]])
      emptyWorld = (r, w')
    ∧ trace w' = trace emptyWorld ++ events
    ∧ ((buildOutcome Sample.failingEnv Sample.core = Ok tt
        ∧ stepsOn (name Sample.core) events
          = [CacheDelete (name Sample.core); buildStep Sample.core;
             CacheWrite (name Sample.core) (Sample.checksums (name Sample.core))]
        ∧ recorded (cacheStore w') (name Sample.core)
                   (Sample.checksums (name Sample.core)))
       ∨ (buildOutcome Sample.failingEnv Sample.core ≠ Ok tt
          ∧ r ≠ Ok tt
          ∧ stepsOn (name Sample.core) events
            = [CacheDelete (name Sample.core); buildStep Sample.core]
          ∧ cacheStore w' !! name Sample.core = None
          ∧ ∀ env' options' cks' pre' batch' post' w2,
              mjoin (pre' ++ batch' :: post') ≡ₚ Sample.projects →
              Sample.core ∈ batch' →
              cacheStore w2 = cacheStore w' →
              (∀ q, q ∈ mjoin pre' →
                    hasScript q "osd:bootstrap" = true ∨ hasBuildTargets q = true →
                    ¬ (cache options' = true
                       ∧ recorded (cacheStore w2) (name q) (cks' (name q))) →
                    buildOutcome env' q = Ok tt) →
              ∃ r' w3 events' rest,
                bootstrapBuilds env' options' cks' Sample.projects
                  (pre' ++ batch' :: post') w2 = (r', w3)
                ∧ trace w3 = trace w2 ++ events'
                ∧ stepsOn (name Sample.core) events'
                  = CacheDelete (name Sample.core) :: buildStep Sample.core :: rest)).
Proof.
  apply (invalidate_before_run_commit_after_success
           Sample.failingEnv Sample.options Sample.checksums Sample.projects
           [[Sample.docs; Sample.root]] [Sample.core] [[Sample.plugin]; [Sample.ui]]
           emptyWorld Sample.core).
  - exact Sample_projects_NoDup.
  - exact Sample_batches_partition.
  - left.
  - right. reflexivity.
  - intros [_ (r & Hr & _)]. simpl in Hr. by rewrite lookup_empty in Hr.
  - intros q Hq Hneeds _.
    apply elem_of_cons in Hq as [->|Hq]; [by destruct Hneeds|].
    apply elem_of_cons in Hq as [->|Hq]; [by destruct Hneeds|].
    by apply elem_of_nil in Hq.
Defined.

Example Sample_failing_build :
  let '(r, w') := bootstrapBuilds Sample.failingEnv Sample.options Sample.checksums
                    Sample.projects Sample.batches emptyWorld in
  r = Throw (BuildError "core" "exit code 1")
  ∧ effects (trace w')
    = [CacheIsValid "ui"; CacheIsValid "plugin"; CacheIsValid "core";
       CacheDelete "core"; BuildForTargets "core" true]
  ∧ cacheStore w' = ∅.
Proof. vm_compute. done. Qed.

Example Sample_failing_run :
  let '(r, w') := run Sample.failingEnv Sample.projects Sample.graph Sample.options
                    emptyWorld in
  r = Throw (BuildError "core" "exit code 1")
  ∧ stepsOn "core" (trace w') = [CacheDelete "core"; BuildForTargets "core" true]
  ∧ stepsOn "plugin" (trace w') = []
  ∧ stepsOn "ui" (trace w') = []
  ∧ cacheStore w' = ∅.
Proof. by vm_compute. Qed.

(** ** The cache decision *)

(** C2: a project that declares the [osd:bootstrap] script or build targets
    gets a cache decision, and the decision is [valid] exactly when caching
    is enabled, a cache record exists for the project and the recorded
    fingerprint equals the freshly computed one; a project that declares
    neither gets no cache decision.  The decisions do not change the cache
    store. *)
Theorem cache_decision_valid_iff
    (options : Options) (cks : ChecksumMap) (projects : list Project) (w : World) :
  NoDup (name <$> projects) →
  ∃ caches count w',
    cacheDecisions options cks projects ∅ 0 w = (Ok (caches, count), w')
    ∧ cacheStore w' = cacheStore w
    ∧ ∀ p, p ∈ projects →
        (hasScript p "osd:bootstrap" = true ∨ hasBuildTargets p = true →
         ∃ entry,
           caches !! name p = Some entry
           ∧ (valid entry = true ↔
              cache options = true
              ∧ ∃ r, cacheStore w !! name p = Some r
                     ∧ fingerprint r = cks (name p)))
        ∧ (hasScript p "osd:bootstrap" = false ∧ hasBuildTargets p = false →
           caches !! name p = None).
Proof.
  intros Hnames.
  destruct (cacheDecisions_spec options cks projects w Hnames)
    as (caches & count & events & Hrun & Hev & _ & Hdec & _).
  exists caches, count, (extend w events). split; [done|].
  split; [by apply extend_decisions_store|].
  intros p Hp. specialize (Hdec p Hp). split.
  - intros Hneeds%needsBootstrap_true. rewrite Hneeds in Hdec.
    eexists. split; [done|]. apply valid_decisionFor.
  - intros Hneeds%needsBootstrap_false. by rewrite Hneeds in Hdec.
Qed.

Lemma cache_decision_valid_iff_witness :
  ∃ caches count w',
    cacheDecisions Sample.options Sample.checksums Sample.projects ∅ 0
      Sample.warmWorld = (Ok (caches, count), w')
    ∧ cacheStore w' = cacheStore Sample.warmWorld
    ∧ ∀ p, p ∈ Sample.projects →
        (hasScript p "osd:bootstrap" = true ∨ hasBuildTargets p = true →
         ∃ entry,
           caches !! name p = Some entry
           ∧ (valid entry = true ↔
              cache Sample.options = true
              ∧ ∃ r, cacheStore Sample.warmWorld !! name p = Some r
                     ∧ fingerprint r = Sample.checksums (name p)))
        ∧ (hasScript p "osd:bootstrap" = false ∧ hasBuildTargets p = false →
           caches !! name p = None).
Proof.
  apply (cache_decision_valid_iff Sample.options Sample.checksums
           Sample.projects Sample.warmWorld).
  exact Sample_projects_NoDup.
Defined.

Example Sample_decisions :
  let '(r, w') := cacheDecisions Sample.options Sample.checksums Sample.projects ∅ 0
                    Sample.warmWorld in
  ∃ caches, r = Ok (caches, 2)
    ∧ valid <$> caches !! "core" = Some true
    ∧ valid <$> caches !! "plugin" = Some true
    ∧ valid <$> caches !! "ui" = Some false
    ∧ caches !! "docs" = None
    ∧ caches !! "root" = None.
Proof. vm_compute. eexists. split; [reflexivity|]. by vm_compute. Qed.

(** ** Build targets take precedence over the script *)



Example Sample_plugin_unit :
  hasScript Sample.plugin "osd:bootstrap" = true
  ∧ hasBuildTargets Sample.plugin = true
  ∧ effects (unitEvents Sample.env Sample.caches Sample.plugin)
    = [CacheDelete "plugin"; BuildForTargets "plugin" true;
       CacheWrite "plugin" "sha1:plugin"].
Proof. by vm_compute. Qed.

Example Sample_ui_unit :
  hasScript Sample.ui "osd:bootstrap" = true
  ∧ hasBuildTargets Sample.ui = false
  ∧ effects (unitEvents Sample.env Sample.caches Sample.ui)
    = [CacheDelete "ui"; RunScriptStreaming "ui" "osd:bootstrap";
       CacheWrite "ui" "sha1:ui"].
Proof. by vm_compute. Qed.

(** ** The order of the phases *)

(** C4: the events of a run come in four consecutive segments: the install
    invocations, then the reading and validation of the lock information
    (followed by the linking and the computation of the checksums), then
    the cache decisions, then the steps of the build phase.  The lock
    information is read only after every install invocation has succeeded;
    an error of the lock validation ends the run before any cache decision
    or build step; and a build step is only taken after the validation has
    succeeded, the checksums have been computed and every cache decision
    has been made, the decisions being those of the cache store as it was
    when the run started, which nothing before the build phase modifies. *)
Theorem run_phase_order
    (env : Env) (projects : list Project) (g : ProjectGraph) (options : Options)
    (w : World) (r : Result unit) (w' : World) :
  NoDup (name <$> projects) →
  run env projects g options w = (r, w') →
  ∃ installs lock decisions builds,
    trace w' = trace w ++ installs ++ lock ++ decisions ++ builds
    ∧ Forall (λ e, isInstallEvent e = true) installs
    ∧ lock `prefix_of` lockSteps env options
    ∧ Forall (λ e, isDecisionEvent e = true) decisions
    ∧ Forall (λ e, isBuildEvent e = true) builds
    ∧ cacheStore w'
      = replay (length (trace w ++ installs ++ lock ++ decisions)) builds (cacheStore w)
    ∧ (lock ≠ [] →
       ∃ batchesByWorkspace,
         topologicallyBatchProjects projects g true
           = Batching.Batched batchesByWorkspace
         ∧ Forall (λ p, installDependencies env p (extraArgsOf options) = Ok tt)
                  (installable batchesByWorkspace)
         ∧ effects installs
           = (λ p, InstallDependencies (name p) (extraArgsOf options)) <$>
             installable batchesByWorkspace)
    ∧ (∀ yarnLock e,
         lock ≠ [] →
         readYarnLock env = Ok yarnLock →
         validateDependencies env yarnLock (singleVersionOf env options) = Throw e →
         r = Throw e
         ∧ lock = [ReadYarnLock; ValidateDependencies (singleVersionOf env options)]
         ∧ decisions = [] ∧ builds = [])
    ∧ (decisions ++ builds ≠ [] ∨ r = Ok tt →
       lock = lockSteps env options
       ∧ ∃ yarnLock cks caches batches,
           readYarnLock env = Ok yarnLock
           ∧ validateDependencies env yarnLock (singleVersionOf env options) = Ok tt
           ∧ getAllChecksums env yarnLock = Ok cks
           ∧ topologicallyBatchProjects projects g false = Batching.Batched batches
           ∧ decides options cks (cacheStore w) projects caches
           ∧ builds = buildEvents env caches batches
           ∧ r = scheduleOutcome (unitResult env caches) (settleOrder env batches)).
Proof.
  intros Hnames Hrun. rewrite run_unfold, bind_run in Hrun.
  destruct (topologicallyBatchProjects projects g true)
    as [batchesByWorkspace|unresolved|] eqn:HbyWorkspace; simpl in Hrun;
    [|injection Hrun as <- <-; run_stopped (@nil Event)..].
  rewrite bind_run in Hrun.
  destruct (topologicallyBatchProjects projects g false)
    as [batches|unresolved|] eqn:Hbatches; simpl in Hrun;
    [|injection Hrun as <- <-; run_stopped (@nil Event)..].
  rewrite bind_run in Hrun.
  destruct (installPhase_spec env (extraArgsOf options) batchesByWorkspace)
    as (ri & installs & Hinstall & Hinstalls & Hcompleted).
  rewrite Hinstall in Hrun.
  destruct ri as [[]|e|]; [|injection Hrun as <- <-; run_stopped installs..].
  destruct (run_after_install env projects g options batches (extend w installs) Hnames)
    as (r0 & lock & decisions & builds & Htail & Hlock & Hprefix & Hdecisions
        & Hbuilds & Hvalidation & Hbuild).
  rewrite Htail, extend_app in Hrun. injection Hrun as <- <-.
  exists installs, lock, decisions, builds.
  split; [done|]. split; [done|]. split; [done|]. split; [done|]. split; [done|].
  split; [|split; [|split]].
  - unfold extend. simpl.
    rewrite !(assoc_L (++) installs), !(assoc_L (++) (installs ++ lock)).
    rewrite replay_app, <- length_app. f_equal.
    apply replay_inert. repeat apply Forall_app_2.
    + eapply Forall_impl; [exact Hinstalls|]. by intros [].
    + by eapply lockSteps_inert.
    + eapply Forall_impl; [exact Hdecisions|]. by intros [].
  - intros _. exists batchesByWorkspace. split; [done|]. by apply Hcompleted.
  - intros yarnLock e _. apply Hvalidation.
  - intros Hreached. destruct (Hbuild Hreached)
      as (Hfull & yarnLock & cks & caches & ? & ? & ? & ? & Hcaches & ? & ?).
    split; [done|]. exists yarnLock, cks, caches, batches.
    change (cacheStore (extend w installs))
      with (replay (length (trace w)) installs (cacheStore w)) in Hcaches.
    rewrite replay_installs in Hcaches by done.
    by repeat (split; [done|]).
Qed.

Lemma run_phase_order_witness :
  ∃ installs lock decisions builds,
    trace (run Sample.env Sample.projects Sample.graph Sample.options emptyWorld).2
    = trace emptyWorld ++ installs ++ lock ++ decisions ++ builds
    ∧ Forall (λ e, isInstallEvent e = true) installs
    ∧ lock `prefix_of` lockSteps Sample.env Sample.options
    ∧ Forall (λ e, isDecisionEvent e = true) decisions
    ∧ Forall (λ e, isBuildEvent e = true) builds
    ∧ cacheStore (run Sample.env Sample.projects Sample.graph Sample.options
                    emptyWorld).2
      = replay (length (trace emptyWorld ++ installs ++ lock ++ decisions)) builds
               (cacheStore emptyWorld)
    ∧ (lock ≠ [] →
       ∃ batchesByWorkspace,
         topologicallyBatchProjects Sample.projects Sample.graph true
           = Batching.Batched batchesByWorkspace
         ∧ Forall (λ p, installDependencies Sample.env p (extraArgsOf Sample.options)
                        = Ok tt)
                  (installable batchesByWorkspace)
         ∧ effects installs
           = (λ p, InstallDependencies (name p) (extraArgsOf Sample.options)) <$>
             installable batchesByWorkspace)
    ∧ (∀ yarnLock e,
         lock ≠ [] →
         readYarnLock Sample.env = Ok yarnLock →
         validateDependencies Sample.env yarnLock (singleVersionOf Sample.env Sample.options)
           = Throw e →
         (run Sample.env Sample.projects Sample.graph Sample.options emptyWorld).1
           = Throw e
         ∧ lock = [ReadYarnLock; ValidateDependencies (singleVersionOf Sample.env Sample.options)]
         ∧ decisions = [] ∧ builds = [])
    ∧ (decisions ++ builds ≠ []
       ∨ (run Sample.env Sample.projects Sample.graph Sample.options emptyWorld).1
         = Ok tt →
       lock = lockSteps Sample.env Sample.options
       ∧ ∃ yarnLock cks caches batches,
           readYarnLock Sample.env = Ok yarnLock
           ∧ validateDependencies Sample.env yarnLock (singleVersionOf Sample.env Sample.options)
             = Ok tt
           ∧ getAllChecksums Sample.env yarnLock = Ok cks
           ∧ topologicallyBatchProjects Sample.projects Sample.graph false
             = Batching.Batched batches
           ∧ decides Sample.options cks (cacheStore emptyWorld) Sample.projects caches
           ∧ builds = buildEvents Sample.env caches batches
           ∧ (run Sample.env Sample.projects Sample.graph Sample.options emptyWorld).1
             = scheduleOutcome (unitResult Sample.env caches) (settleOrder Sample.env batches)).
Proof.
  apply (run_phase_order Sample.env Sample.projects Sample.graph Sample.options
           emptyWorld).
  - exact Sample_projects_NoDup.
  - apply surjective_pairing.
Defined.

Example Sample_run :
  run Sample.env Sample.projects Sample.graph Sample.options emptyWorld
  = (Ok tt,
     {| cacheStore :=
          {[ "core" := {| fingerprint := "sha1:core"; recordedAt := 14 |};
             "plugin" := {| fingerprint := "sha1:plugin"; recordedAt := 20 |};
             "ui" := {| fingerprint := "sha1:ui"; recordedAt := 25 |} ]};
        trace :=
          [InstallDependencies "docs" ["--frozen-lockfile"];
           Log Verbose "Skipping workspace project: root";
           InstallDependencies "core" ["--frozen-lockfile"];
           InstallDependencies "plugin" ["--frozen-lockfile"];
           ReadYarnLock; ValidateDependencies (Some "lodash");
           LinkProjectExecutables; GetAllChecksums;
           CacheIsValid "ui"; CacheIsValid "plugin"; CacheIsValid "core";
           Log Info "[core] running [osd:bootstrap] build targets";
           CacheDelete "core"; BuildForTargets "core" true;
           CacheWrite "core" "sha1:core";
           Log Success "[core] bootstrap complete";
           Log Debug
             "[plugin] ignoring [osd:bootstrap] script since build targets are provided";
           Log Info "[plugin] running [osd:bootstrap] build targets";
           CacheDelete "plugin"; BuildForTargets "plugin" true;
           CacheWrite "plugin" "sha1:plugin";
           Log Success "[plugin] bootstrap complete";
           Log Info "[ui] running [osd:bootstrap] script";
           CacheDelete "ui"; RunScriptStreaming "ui" "osd:bootstrap";
           CacheWrite "ui" "sha1:ui";
           Log Success "[ui] bootstrap complete"] |}).
Proof. by vm_compute. Qed.

Example Sample_lock_validation_error :
  run Sample.lockedEnv Sample.projects Sample.graph Sample.options emptyWorld
  = (Throw (LockValidationError "lodash"),
     {| cacheStore := ∅;
        trace :=
          [InstallDependencies "docs" ["--frozen-lockfile"];
           Log Verbose "Skipping workspace project: root";
           InstallDependencies "core" ["--frozen-lockfile"];
           InstallDependencies "plugin" ["--frozen-lockfile"];
           ReadYarnLock; ValidateDependencies (Some "lodash")] |}).
Proof. by vm_compute. Qed.

(** ** Topological batching *)

(** C5 (as amended): for every acyclic project graph over projects with
    distinct names, and for either setting of the batching option, the
    topological batching returns a sequence of batches whose union is exactly
    the input project set, in which every project appears in exactly one
    batch, and in which the batch index of a dependency is strictly less than
    the batch index of its dependent for every edge of the graph; when the
    batching is scoped to installable projects ([batchByWorkspace]), this
    last part holds for the edges between two projects that are not
    workspace aggregators. *)
Theorem topologicallyBatchProjects_batches
    (projects : list Project) (g : ProjectGraph) (batchByWorkspace : bool) :
  acyclic g →
  NoDup (name <$> projects) →
  ∃ batches,
    topologicallyBatchProjects projects g batchByWorkspace = Batching.Batched batches
    ∧ mjoin batches ≡ₚ projects
    ∧ (∀ p, p ∈ projects →
         ∃ i, inBatch batches i p ∧ ∀ j, inBatch batches j p → j = i)
    ∧ (∀ a b i j,
         inBatch batches i a → inBatch batches j b →
         dependsOn g (name a) (name b) →
         (batchByWorkspace = true →
          isWorkspaceProject a = false ∧ isWorkspaceProject b = false) →
         j < i).
Proof.
  intros Hacyc Hnames.
  destruct (layers_acyclic batchByWorkspace projects g (length projects) projects)
    as [batches Hb]; [done|done|].
  pose proof (layers_partition _ _ _ _ _ _ Hb) as Hperm.
  assert (NoDup (mjoin batches)) as Hnd.
  { rewrite Hperm. by eapply NoDup_fmap_1. }
  assert (∀ i p, inBatch batches i p → p ∈ projects) as Hin.
  { intros i p Hp. rewrite <- Hperm. by eapply inBatch_join. }
  exists batches. split; [exact Hb|]. split; [exact Hperm|]. split.
  - intros p Hp. rewrite <- Hperm in Hp. apply join_inBatch in Hp as [i Hi].
    exists i. split; [done|]. intros j Hj. by eapply inBatch_unique.
  - intros a b i j Ha Hbj Hdep Hscope.
    destruct (layers_order _ _ _ _ _ _ Hb i a (name b)) as (j' & q & Hlt & Hq & Hname);
      [done|done| | |].
    + intros Hs. destruct (Hscope Hs) as [Hwa Hwb].
      split; intros (p & Hp & Hpn & Hpw).
      * assert (p = a) as -> by (eapply name_inj_NoDup; eauto). congruence.
      * assert (p = b) as -> by (eapply name_inj_NoDup; eauto). congruence.
    + apply list_elem_of_fmap_2. by eapply Hin.
    + assert (q = b) as -> by (eapply name_inj_NoDup; eauto).
      assert (j' = j) as -> by (by eapply inBatch_unique). done.
Qed.

Lemma topologicallyBatchProjects_batches_witness :
  ∃ batches,
    topologicallyBatchProjects Sample.projects Sample.graph false
      = Batching.Batched batches
    ∧ mjoin batches ≡ₚ Sample.projects
    ∧ (∀ p, p ∈ Sample.projects →
         ∃ i, inBatch batches i p ∧ ∀ j, inBatch batches j p → j = i)
    ∧ (∀ a b i j,
         inBatch batches i a → inBatch batches j b →
         dependsOn Sample.graph (name a) (name b) →
         (false = true →
          isWorkspaceProject a = false ∧ isWorkspaceProject b = false) →
         j < i).
Proof.
  apply (topologicallyBatchProjects_batches Sample.projects Sample.graph false).
  - exact Sample_graph_acyclic.
  - exact Sample_projects_NoDup.
Defined.

(** C5 as stated fails for the batching scoped to installable projects: the
    edge from [core] to the workspace aggregator [root] does not gate, and
    both land in the first batch. *)
Lemma topologicallyBatchProjects_edge_order_counterexample :
  ¬ (∀ (projects : list Project) (g : ProjectGraph) (batchByWorkspace : bool),
       acyclic g → NoDup (name <$> projects) →
       ∃ batches,
         topologicallyBatchProjects projects g batchByWorkspace
           = Batching.Batched batches
         ∧ mjoin batches ≡ₚ projects
         ∧ (∀ p, p ∈ projects →
              ∃ i, inBatch batches i p ∧ ∀ j, inBatch batches j p → j = i)
         ∧ (∀ a b i j,
              inBatch batches i a → inBatch batches j b →
              dependsOn g (name a) (name b) → j < i)).
Proof.
  intros Hclaim.
  destruct (Hclaim Sample.projects Sample.graph true
              Sample_graph_acyclic Sample_projects_NoDup)
    as (batches & Hb & _ & _ & Horder).
  rewrite Sample_batches_by_workspace in Hb. injection Hb as <-.
  specialize (Horder Sample.core Sample.root 0 0).
  assert (0 < 0); [|lia].
  apply Horder.
  - eexists. split; [reflexivity|]. set_solver.
  - eexists. split; [reflexivity|]. set_solver.
  - unfold dependsOn, dependenciesOf. vm_compute. left.
Qed.

(** ** Running the build phase twice *)

(** C6: with caching enabled on the second run and no change to the
    fingerprints in between, a project that built successfully on the first
    run of the build phase is not built again on the second run: no step is
    taken on it.  When the first run completed, the second run performs no
    build-target or script invocation at all (it only checks the cache
    records and logs) and completes as well. *)
Theorem bootstrapBuilds_idempotent
    (env1 env2 : Env) (options1 options2 : Options) (cks1 cks2 : ChecksumMap)
    (projects : list Project) (batches1 batches2 : list (list Project))
    (w w1 w2 : World) (r1 : Result unit) (events1 : list Event) :
  NoDup (name <$> projects) →
  mjoin batches1 ≡ₚ projects →
  bootstrapBuilds env1 options1 cks1 projects batches1 w = (r1, w1) →
  trace w1 = trace w ++ events1 →
  cache options2 = true →
  (∀ p, p ∈ projects → cks2 (name p) = cks1 (name p)) →
  cacheStore w2 = cacheStore w1 →
  ∃ r2 w3 events2,
    bootstrapBuilds env2 options2 cks2 projects batches2 w2 = (r2, w3)
    ∧ trace w3 = trace w2 ++ events2
    ∧ (∀ p, p ∈ projects →
         (∃ fp, CacheWrite (name p) fp ∈ events1) →
         Forall (λ e, buildEffectOn (name p) e = false) events2)
    ∧ (r1 = Ok tt →
       r2 = Ok tt
       ∧ Forall (λ e, isDecisionEvent e = true) events2
       ∧ Forall (λ e, isInvocation e = false) events2).
Proof.
  intros Hnames Hperm Hrun1 Htrace1 Hon Hsame Hstore.
  assert (∃ r2 events2,
    bootstrapBuilds env2 options2 cks2 projects batches2 w2 = (r2, extend w2 events2))
    as (r2 & events2 & Hrun2).
  { destruct (bootstrapBuilds_spec env2 options2 cks2 projects batches2 w2 Hnames)
      as (? & ? & _ & _ & _ & ?). eauto. }
  exists r2, (extend w2 events2), events2. split; [done|]. split; [done|]. split.
  - intros p Hp Hbuilt.
    destruct (skipped_project_frame env2 options2 cks2 projects batches2 w2 p)
      as (r & events & Hrun & Hframe); try done.
    + destruct (needsBootstrap p) eqn:Hneeds; [right|by left].
      apply valid_decisionFor. split; [done|].
      rewrite Hstore, (Hsame p Hp). eapply built_project_recorded; eauto.
    + rewrite Hrun2 in Hrun. injection Hrun as _ _ Heq.
      by apply app_inv_head in Heq as <-.
  - intros ->.
    destruct (bootstrapBuilds_cached env2 options2 cks2 projects batches2 w2)
      as (events & Hrun & Hevents); try done.
    + intros p Hp Hneeds. rewrite Hstore, (Hsame p Hp).
      eapply built_project_recorded; eauto.
    + rewrite Hrun2 in Hrun. injection Hrun as -> _ Heq.
      apply app_inv_head in Heq as ->. split; [done|]. split; [done|].
      eapply Forall_impl; [exact Hevents|]. by intros [].
Qed.

Lemma bootstrapBuilds_idempotent_witness :
  ∃ r2 w3 events2,
    bootstrapBuilds Sample.env Sample.options Sample.checksums Sample.projects
      Sample.batches
      (bootstrapBuilds Sample.env Sample.options Sample.checksums Sample.projects
         Sample.batches emptyWorld).2
    = (r2, w3)
    ∧ trace w3
      = trace (bootstrapBuilds Sample.env Sample.options Sample.checksums
                 Sample.projects Sample.batches emptyWorld).2 ++ events2
    ∧ (∀ p, p ∈ Sample.projects →
         (∃ fp, CacheWrite (name p) fp
                ∈ trace (bootstrapBuilds Sample.env Sample.options Sample.checksums
                           Sample.projects Sample.batches emptyWorld).2) →
         Forall (λ e, buildEffectOn (name p) e = false) events2)
    ∧ ((bootstrapBuilds Sample.env Sample.options Sample.checksums Sample.projects
          Sample.batches emptyWorld).1 = Ok tt →
       r2 = Ok tt
       ∧ Forall (λ e, isDecisionEvent e = true) events2
       ∧ Forall (λ e, isInvocation e = false) events2).
Proof.
  apply (bootstrapBuilds_idempotent Sample.env Sample.env Sample.options Sample.options
           Sample.checksums Sample.checksums Sample.projects
           Sample.batches Sample.batches emptyWorld
           (bootstrapBuilds Sample.env Sample.options Sample.checksums Sample.projects
              Sample.batches emptyWorld).2
           (bootstrapBuilds Sample.env Sample.options Sample.checksums Sample.projects
              Sample.batches emptyWorld).2
           (bootstrapBuilds Sample.env Sample.options Sample.checksums Sample.projects
              Sample.batches emptyWorld).1
           (trace (bootstrapBuilds Sample.env Sample.options Sample.checksums
                     Sample.projects Sample.batches emptyWorld).2)).
  - exact Sample_projects_NoDup.
  - exact Sample_batches_partition.
  - apply surjective_pairing.
  - reflexivity.
  - reflexivity.
  - reflexivity.
  - reflexivity.
Defined.

Example Sample_second_run :
  let first := bootstrapBuilds Sample.env Sample.options Sample.checksums
                 Sample.projects Sample.batches emptyWorld in
  let second := bootstrapBuilds Sample.env Sample.options Sample.checksums
                  Sample.projects Sample.batches
                  {| cacheStore := cacheStore first.2; trace := [] |} in
  first.1 = Ok tt
  ∧ effects (trace first.2)
    = [CacheIsValid "ui"; CacheIsValid "plugin"; CacheIsValid "core";
       CacheDelete "core"; BuildForTargets "core" true; CacheWrite "core" "sha1:core";
       CacheDelete "plugin"; BuildForTargets "plugin" true;
       CacheWrite "plugin" "sha1:plugin";
       CacheDelete "ui"; RunScriptStreaming "ui" "osd:bootstrap";
       CacheWrite "ui" "sha1:ui"]
  ∧ second.1 = Ok tt
  ∧ effects (trace second.2)
    = [CacheIsValid "ui"; CacheIsValid "plugin"; CacheIsValid "core"].
Proof. by vm_compute. Qed.

(** ** Failure of a unit of work *)

(** C7: when a unit of work of a build-phase batch fails, every unit of
    that batch still runs to its end, whatever the order in which the units
    of the batch settle; no unit of a later batch is started; and the
    failure is propagated to the caller once the batch has settled: the
    failure itself when it is the only one, an aggregate of the failures of
    the batch otherwise.  The events of the schedule are those of the units
    of the batches up to the failing one, those of each unit in the unit's
    own order, and nothing else.  In particular, no step is ever taken on a
    project that depends on a project of the failing batch. *)
Theorem build_failure_stops_later_batches
    (env : Env) (caches : gmap string CacheEntry)
    (pre : list (list Project)) (batch : list Project) (post : list (list Project))
    (w : World) :
  (∀ p, p ∈ mjoin pre → unitResult env caches p = Ok tt) →
  (∀ p, p ∈ batch → unitResult env caches p ≠ Halt) →
  failuresOf (unitResult env caches) batch ≠ [] →
  ∃ w' events failures,
    parallelizeBatches (buildDuration env) (pre ++ batch :: post)
      (startUnit env caches) w
    = (Throw (propagated failures), w')
    ∧ failures ≡ₚ failuresOf (unitResult env caches) batch
    ∧ trace w' = trace w ++ events
    ∧ events ≡ₚ mjoin (unitEvents env caches <$> (mjoin pre ++ batch))
    ∧ (∀ q, q ∈ mjoin pre ++ batch → unitEvents env caches q `sublist_of` events)
    ∧ ∀ projects g a b,
        topologicallyBatchProjects projects g false
          = Batching.Batched (pre ++ batch :: post) →
        NoDup (name <$> projects) →
        ownHandles caches →
        a ∈ batch → b ∈ projects → dependsOn g (name b) (name a) →
        Forall (λ e, buildEffectOn (name b) e = false) events.
Proof.
  intros Hpre Hbatch Hfail.
  pose proof (buildPhase_behaves env caches (pre ++ batch :: post) w) as Hrun.
  destruct (buildEvents_failure env caches pre batch post Hpre Hbatch Hfail)
    as [Hevents Hresult].
  rewrite Hevents, Hresult in Hrun.
  assert (mjoin (batchEvents env caches <$> pre) ++ batchEvents env caches batch
          ≡ₚ mjoin (unitEvents env caches <$> (mjoin pre ++ batch))) as Hunits.
  { rewrite fmap_app, join_app, batchEvents_units. f_equiv.
    clear. induction pre as [|b pre IH]; [done|].
    by rewrite fmap_cons, !join_cons, fmap_app, join_app, batchEvents_units, IH. }
  eexists _, _, _. split; [exact Hrun|].
  split; [apply failuresOf_Permutation, sortBy_Permutation|].
  split; [done|]. split; [done|]. split.
  - intros q [Hq|Hq]%elem_of_app.
    + apply sublist_inserts_r.
      apply list_elem_of_join in Hq as (b & Hq & Hb).
      etrans; [by apply (batchEvents_unit env caches b)|].
      by apply (sublist_join (batchEvents env caches)).
    + apply sublist_inserts_l. by apply batchEvents_unit.
  - intros projects g a b Hbatches Hnames Hown Ha Hb Hdep.
    rewrite Hunits.
    apply units_frame. intros q Hq. apply unitEvents_own; [done|]. intros Heq.
    pose proof (batched_partition _ _ _ _ Hbatches) as Hperm.
    apply (inBatch_before pre batch post) in Hq as (i & Hi & Hq).
    assert (q = b) as ->.
    { eapply name_inj_NoDup; [exact Hnames| |done|done].
      rewrite <- Hperm. by eapply inBatch_join. }
    pose proof (batched_order _ _ _ _ _ _ _ Hbatches Hnames Hq
                  (inBatch_middle pre batch post a Ha) Hdep).
    lia.
Qed.

Lemma build_failure_stops_later_batches_witness :
  ∃ w' events failures,
    parallelizeBatches (buildDuration Sample.brokenEnv)
      ([[Sample.docs; Sample.root]] ++
       [Sample.core; Sample.plugin; Sample.ui] :: [[Sample.docs]])
      (startUnit Sample.brokenEnv Sample.caches) emptyWorld
    = (Throw (propagated failures), w')
    ∧ failures ≡ₚ failuresOf (unitResult Sample.brokenEnv Sample.caches)
                    [Sample.core; Sample.plugin; Sample.ui]
    ∧ trace w' = trace emptyWorld ++ events
    ∧ events ≡ₚ mjoin (unitEvents Sample.brokenEnv Sample.caches <$>
                         (mjoin [[Sample.docs; Sample.root]] ++
                          [Sample.core; Sample.plugin; Sample.ui]))
    ∧ (∀ q, q ∈ mjoin [[Sample.docs; Sample.root]] ++
                [Sample.core; Sample.plugin; Sample.ui] →
            unitEvents Sample.brokenEnv Sample.caches q `sublist_of` events)
    ∧ ∀ projects g a b,
        topologicallyBatchProjects projects g false
          = Batching.Batched ([[Sample.docs; Sample.root]] ++
                              [Sample.core; Sample.plugin; Sample.ui]
                              :: [[Sample.docs]]) →
        NoDup (name <$> projects) →
        ownHandles Sample.caches →
        a ∈ [Sample.core; Sample.plugin; Sample.ui] → b ∈ projects →
        dependsOn g (name b) (name a) →
        Forall (λ e, buildEffectOn (name b) e = false) events.
Proof.
  apply (build_failure_stops_later_batches Sample.brokenEnv Sample.caches
           [[Sample.docs; Sample.root]] [Sample.core; Sample.plugin; Sample.ui]
           [[Sample.docs]] emptyWorld).
  - intros p Hp. simpl in Hp.
    repeat (apply elem_of_cons in Hp as [->|Hp]; [by vm_compute|]).
    by apply elem_of_nil in Hp.
  - intros p Hp.
    repeat (apply elem_of_cons in Hp as [->|Hp]; [by vm_compute|]).
    by apply elem_of_nil in Hp.
  - by vm_compute.
Defined.

Example Sample_dependency_failure :
  dependsOn Sample.graph "plugin" "core"
  ∧ parallelizeBatches Sample.duration Sample.batches
      (startUnit Sample.failingEnv Sample.caches) emptyWorld
    = (Throw (BuildError "core" "exit code 1"),
       {| cacheStore := ∅;
          trace := [Log Info "[core] running [osd:bootstrap] build targets";
                    CacheDelete "core"; BuildForTargets "core" true] |}).
Proof. split; [|by vm_compute]. unfold dependsOn. vm_compute. set_solver. Qed.

(** The three units of the batch are started in the order of the batch; the
    unit of [ui] settles first and commits its checksum after the other two
    have started; the failures are those of [core] and [plugin], in the
    order in which they settle. *)
Example Sample_sibling_failures :
  parallelizeBatches Sample.duration
    [[Sample.ui; Sample.plugin; Sample.core]; [Sample.docs]]
    (startUnit Sample.brokenEnv Sample.caches) emptyWorld
  = (Throw (AggregateError [BuildError "core" "exit code 1";
                            BuildError "plugin" "exit code 1"]),
     {| cacheStore := {[ "ui" := {| fingerprint := "sha1:ui"; recordedAt := 10 |} ]};
        trace :=
          [Log Info "[ui] running [osd:bootstrap] script";
           CacheDelete "ui"; RunScriptStreaming "ui" "osd:bootstrap";
           Log Debug
             "[plugin] ignoring [osd:bootstrap] script since build targets are provided";
           Log Info "[plugin] running [osd:bootstrap] build targets";
           CacheDelete "plugin"; BuildForTargets "plugin" true;
           Log Info "[core] running [osd:bootstrap] build targets";
           CacheDelete "core"; BuildForTargets "core" true;
           CacheWrite "ui" "sha1:ui";
           Log Success "[ui] bootstrap complete"] |}).
Proof. by vm_compute. Qed.

(** The build of [core] never returns: its siblings [ui] and [plugin] go on
    to their end, the batch never settles, and [docs] is not started. *)
Example Sample_hanging_build :
  parallelizeBatches Sample.duration
    [[Sample.core; Sample.plugin; Sample.ui]; [Sample.docs]]
    (startUnit Sample.hangingEnv Sample.caches) emptyWorld
  = (Halt,
     {| cacheStore :=
          {[ "ui" := {| fingerprint := "sha1:ui"; recordedAt := 10 |};
             "plugin" := {| fingerprint := "sha1:plugin"; recordedAt := 12 |} ]};
        trace :=
          [Log Info "[core] running [osd:bootstrap] build targets";
           CacheDelete "core"; BuildForTargets "core" true;
           Log Debug
             "[plugin] ignoring [osd:bootstrap] script since build targets are provided";
           Log Info "[plugin] running [osd:bootstrap] build targets";
           CacheDelete "plugin"; BuildForTargets "plugin" true;
           Log Info "[ui] running [osd:bootstrap] script";
           CacheDelete "ui"; RunScriptStreaming "ui" "osd:bootstrap";
           CacheWrite "ui" "sha1:ui";
           Log Success "[ui] bootstrap complete";
           CacheWrite "plugin" "sha1:plugin";
           Log Success "[plugin] bootstrap complete"] |}).
Proof. by vm_compute. Qed.

(** ** The install phase *)

(** C8: the install phase visits the projects one at a time, batch by batch
    and in the order of each batch.  It invokes the install collaborator
    for the projects that are not workspace aggregators and declare
    dependencies, each invocation being issued only after the previous one
    has succeeded, and for no other project: a workspace aggregator is
    skipped even when it declares dependencies.  When no install fails, the
    invocations are exactly those of the installable projects, in order. *)
Theorem install_phase_sequential
    (env : Env) (extraArgs : list string) (batches : list (list Project))
    (w : World) (r : Result unit) (w' : World) :
  installPhase env extraArgs batches w = (r, w') →
  ∃ events,
    trace w' = trace w ++ events
    ∧ cacheStore w' = cacheStore w
    ∧ effects events
      = (λ p, InstallDependencies (name p) extraArgs) <$>
        upToFirst (λ p, negb (succeeded (installDependencies env p extraArgs)))
                  (installable batches)
    ∧ (r = Ok tt ↔
       Forall (λ p, installDependencies env p extraArgs = Ok tt) (installable batches))
    ∧ (r = Ok tt →
       effects events
       = (λ p, InstallDependencies (name p) extraArgs) <$> installable batches).
Proof.
  intros Hrun.
  destruct (installPhase_behaves env extraArgs batches)
    as (r0 & events & Hbehaves & Hev & Heff & Hok).
  rewrite Hbehaves in Hrun. injection Hrun as <- <-.
  exists events. split; [done|]. split; [by apply replay_installs|].
  split; [done|]. split; [done|].
  intros Hr. rewrite Heff. f_equal. apply upToFirst_all.
  apply not_true_is_false. intros (p & Hp%list_elem_of_In & Hfail)%existsb_exists.
  apply Hok in Hr. rewrite Forall_forall in Hr. by rewrite (Hr p Hp) in Hfail.
Qed.

Lemma install_phase_sequential_witness :
  ∃ events,
    trace (installPhase Sample.env ["--frozen-lockfile"] Sample.batchesByWorkspace
             emptyWorld).2
    = trace emptyWorld ++ events
    ∧ cacheStore (installPhase Sample.env ["--frozen-lockfile"]
                    Sample.batchesByWorkspace emptyWorld).2
      = cacheStore emptyWorld
    ∧ effects events
      = (λ p, InstallDependencies (name p) ["--frozen-lockfile"]) <$>
        upToFirst
          (λ p, negb (succeeded
                        (installDependencies Sample.env p ["--frozen-lockfile"])))
          (installable Sample.batchesByWorkspace)
    ∧ ((installPhase Sample.env ["--frozen-lockfile"] Sample.batchesByWorkspace
          emptyWorld).1 = Ok tt ↔
       Forall (λ p, installDependencies Sample.env p ["--frozen-lockfile"] = Ok tt)
              (installable Sample.batchesByWorkspace))
    ∧ ((installPhase Sample.env ["--frozen-lockfile"] Sample.batchesByWorkspace
          emptyWorld).1 = Ok tt →
       effects events
       = (λ p, InstallDependencies (name p) ["--frozen-lockfile"]) <$>
         installable Sample.batchesByWorkspace).
Proof.
  apply (install_phase_sequential Sample.env ["--frozen-lockfile"]
           Sample.batchesByWorkspace emptyWorld).
  apply surjective_pairing.
Defined.

Example Sample_install_phase :
  hasDependencies Sample.root = true
  ∧ installPhase Sample.env ["--frozen-lockfile"] Sample.batchesByWorkspace emptyWorld
    = (Ok tt,
       {| cacheStore := ∅;
          trace := [InstallDependencies "docs" ["--frozen-lockfile"];
                    Log Verbose "Skipping workspace project: root";
                    InstallDependencies "core" ["--frozen-lockfile"];
                    InstallDependencies "plugin" ["--frozen-lockfile"]] |}).
Proof. by vm_compute. Qed.

(** ** Caching disabled *)

(** C9: when caching is disabled, no cache record is consulted, and every
    project that declares the [osd:bootstrap] script or build targets is
    rebuilt as soon as its batch is started, that is, as soon as the
    projects to build of the batches before have all been built: its record
    is deleted, its build step is run and, when the build step succeeds,
    the record is written again with the fresh fingerprint; when the build
    step does not succeed, nothing is written and the run does not
    complete.  The projects that are not rebuilt are those of the batches
    that are not started, in a run that does not complete. *)
Theorem cache_disabled_rebuilds
    (env : Env) (options : Options) (cks : ChecksumMap)
    (projects : list Project)
    (pre : list (list Project)) (batch : list Project) (post : list (list Project))
    (w : World) (p : Project) :
  cache options = false →
  NoDup (name <$> projects) →
  mjoin (pre ++ batch :: post) ≡ₚ projects →
  p ∈ batch →
  hasScript p "osd:bootstrap" = true ∨ hasBuildTargets p = true →
  ∃ r w' events,
    bootstrapBuilds env options cks projects (pre ++ batch :: post) w = (r, w')
    ∧ trace w' = trace w ++ events
    ∧ (∀ n, CacheIsValid n ∉ events)
    ∧ ((∀ q, q ∈ mjoin pre →
             hasScript q "osd:bootstrap" = true ∨ hasBuildTargets q = true →
             buildOutcome env q = Ok tt) →
       (buildOutcome env p = Ok tt
        ∧ stepsOn (name p) events
          = [CacheDelete (name p); buildStep p; CacheWrite (name p) (cks (name p))]
        ∧ recorded (cacheStore w') (name p) (cks (name p)))
       ∨ (buildOutcome env p ≠ Ok tt
          ∧ r ≠ Ok tt
          ∧ stepsOn (name p) events = [CacheDelete (name p); buildStep p]))
    ∧ (¬ (∀ q, q ∈ mjoin pre →
               hasScript q "osd:bootstrap" = true ∨ hasBuildTargets q = true →
               buildOutcome env q = Ok tt) →
       stepsOn (name p) events = [] ∧ r ≠ Ok tt).
Proof.
  intros Hoff Hnames Hperm Hp Hneeds%needsBootstrap_true.
  assert (∀ q, isStale options cks (cacheStore w) q = true
               ↔ hasScript q "osd:bootstrap" = true ∨ hasBuildTargets q = true)
    as Hall.
  { intros q. rewrite isStale_true, needsBootstrap_true. split; [by intros [? _]|].
    intros Hq. split; [done|]. intros [Hon _]. congruence. }
  assert (valid (decisionFor options cks (cacheStore w) p) = false) as Hstale.
  { apply stale_decisionFor. intros [Hon _]. congruence. }
  destruct (bootstrapBuilds_spec env options cks projects (pre ++ batch :: post) w Hnames)
    as (caches & decisions & _ & Hdecisions & _ & Hrun).
  destruct (stale_project_outcome env options cks projects pre batch post w p)
    as (r & events & Hrun' & Hstarted & Hnot); try done.
  exists r, (extend w events), events. split; [done|]. split; [done|]. split; [|split].
  - rewrite Hrun in Hrun'. injection Hrun' as _ _ Htrace.
    apply app_inv_head in Htrace as <-. rewrite (Hdecisions Hoff). simpl.
    intros n Hn.
    pose proof (buildEvents_build env caches (pre ++ batch :: post)) as Hbuild.
    rewrite Forall_forall in Hbuild. by apply Hbuild in Hn.
  - intros Hpre. destruct Hstarted as [?|(? & ? & ? & _)]; [|by left|by right].
    intros q Hq Hq'%Hall. by apply Hpre.
  - intros Hpre. apply Hnot. intros Hbuilt. apply Hpre.
    intros q Hq Hq'%Hall. by apply Hbuilt.
Qed.

Lemma cache_disabled_rebuilds_witness :
  ∃ r w' events,
    bootstrapBuilds Sample.env
      {| cache := false; frozen_lockfile := false; prefer_offline := false;
         single_version := None |}
      Sample.checksums Sample.projects
      ([[Sample.docs; Sample.root]] ++ [Sample.core] :: [[Sample.plugin]; [Sample.ui]])
      Sample.warmWorld = (r, w')
    ∧ trace w' = trace Sample.warmWorld ++ events
    ∧ (∀ n, CacheIsValid n ∉ events)
    ∧ ((∀ q, q ∈ mjoin [[Sample.docs; Sample.root]] →
             hasScript q "osd:bootstrap" = true ∨ hasBuildTargets q = true →
             buildOutcome Sample.env q = Ok tt) →
       (buildOutcome Sample.env Sample.core = Ok tt
        ∧ stepsOn (name Sample.core) events
          = [CacheDelete (name Sample.core); buildStep Sample.core;
             CacheWrite (name Sample.core) (Sample.checksums (name Sample.core))]
        ∧ recorded (cacheStore w') (name Sample.core)
                   (Sample.checksums (name Sample.core)))
       ∨ (buildOutcome Sample.env Sample.core ≠ Ok tt
          ∧ r ≠ Ok tt
          ∧ stepsOn (name Sample.core) events
            = [CacheDelete (name Sample.core); buildStep Sample.core]))
    ∧ (¬ (∀ q, q ∈ mjoin [[Sample.docs; Sample.root]] →
               hasScript q "osd:bootstrap" = true ∨ hasBuildTargets q = true →
               buildOutcome Sample.env q = Ok tt) →
       stepsOn (name Sample.core) events = [] ∧ r ≠ Ok tt).
Proof.
  apply (cache_disabled_rebuilds Sample.env _ Sample.checksums Sample.projects
           [[Sample.docs; Sample.root]] [Sample.core] [[Sample.plugin]; [Sample.ui]]
           Sample.warmWorld Sample.core).
  - reflexivity.
  - exact Sample_projects_NoDup.
  - exact Sample_batches_partition.
  - left.
  - right. reflexivity.
Defined.

Example Sample_cache_disabled :
  let '(r, w') :=
    bootstrapBuilds Sample.env
      {| cache := false; frozen_lockfile := false; prefer_offline := false;
         single_version := None |}
      Sample.checksums Sample.projects Sample.batches Sample.warmWorld in
  r = Ok tt
  ∧ effects (trace w')
    = [CacheDelete "core"; BuildForTargets "core" true; CacheWrite "core" "sha1:core";
       CacheDelete "plugin"; BuildForTargets "plugin" true;
       CacheWrite "plugin" "sha1:plugin";
       CacheDelete "ui"; RunScriptStreaming "ui" "osd:bootstrap";
       CacheWrite "ui" "sha1:ui"].
Proof. by vm_compute. Qed.

(** ** Skipped projects *)

(** C10: a project whose cache decision is valid, and a project that
    declares neither the [osd:bootstrap] script nor build targets, is
    skipped by the build phase: no build targets are built and no script is
    run for it, its cache record is neither deleted nor written, and the
    record is the same after the build phase as before. *)
Theorem skipped_projects_untouched
    (env : Env) (options : Options) (cks : ChecksumMap)
    (projects : list Project) (batches : list (list Project))
    (w : World) (p : Project) :
  NoDup (name <$> projects) →
  p ∈ projects →
  (hasScript p "osd:bootstrap" = false ∧ hasBuildTargets p = false)
  ∨ (cache options = true ∧ recorded (cacheStore w) (name p) (cks (name p))) →
  ∃ r w' events,
    bootstrapBuilds env options cks projects batches w = (r, w')
    ∧ trace w' = trace w ++ events
    ∧ (∀ sourceMaps, BuildForTargets (name p) sourceMaps ∉ events)
    ∧ (∀ script, RunScriptStreaming (name p) script ∉ events)
    ∧ (CacheDelete (name p) ∉ events)
    ∧ (∀ fp, CacheWrite (name p) fp ∉ events)
    ∧ cacheStore w' !! name p = cacheStore w !! name p.
Proof.
  intros Hnames Hp Hskip.
  destruct (skipped_project_frame env options cks projects batches w p)
    as (r & events & Hrun & Hframe); try done.
  { destruct Hskip as [?%needsBootstrap_false|?%valid_decisionFor]; auto. }
  exists r, (extend w events), events. split; [done|]. split; [done|].
  pose proof Hframe as Hnone. rewrite Forall_forall in Hnone.
  repeat split.
  - intros sourceMaps Hin%Hnone. simpl in Hin. by rewrite bool_decide_eq_false in Hin.
  - intros script Hin%Hnone. simpl in Hin. by rewrite bool_decide_eq_false in Hin.
  - intros Hin%Hnone. simpl in Hin. by rewrite bool_decide_eq_false in Hin.
  - intros fp Hin%Hnone. simpl in Hin. by rewrite bool_decide_eq_false in Hin.
  - by apply extend_frame.
Qed.

Lemma skipped_projects_untouched_witness :
  ∃ r w' events,
    bootstrapBuilds Sample.env Sample.options Sample.checksums
      Sample.projects Sample.batches Sample.warmWorld = (r, w')
    ∧ trace w' = trace Sample.warmWorld ++ events
    ∧ (∀ sourceMaps, BuildForTargets "plugin" sourceMaps ∉ events)
    ∧ (∀ script, RunScriptStreaming "plugin" script ∉ events)
    ∧ (CacheDelete "plugin" ∉ events)
    ∧ (∀ fp, CacheWrite "plugin" fp ∉ events)
    ∧ cacheStore w' !! "plugin" = cacheStore Sample.warmWorld !! "plugin".
Proof.
  apply (skipped_projects_untouched Sample.env Sample.options Sample.checksums
           Sample.projects Sample.batches Sample.warmWorld Sample.plugin).
  - exact Sample_projects_NoDup.
  - unfold Sample.projects. set_solver.
  - right. split; [reflexivity|]. eexists. split; [by vm_compute|reflexivity].
Defined.

Example Sample_warm_build :
  let '(r, w') := bootstrapBuilds Sample.env Sample.options Sample.checksums
                    Sample.projects Sample.batches Sample.warmWorld in
  r = Ok tt
  ∧ effects (trace w')
    = [CacheIsValid "ui"; CacheIsValid "plugin"; CacheIsValid "core";
       CacheDelete "ui"; RunScriptStreaming "ui" "osd:bootstrap";
       CacheWrite "ui" "sha1:ui"]
  ∧ cacheStore w' !! "plugin" = cacheStore Sample.warmWorld !! "plugin"
  ∧ cacheStore w' !! "docs" = None.
Proof. by vm_compute. Qed.

(** * Further properties of the command *)

(** ** The shape of a run *)

Lemma run_afterInstall env projects g options w :
  run env projects g options w =
    (batchedProjectsByWorkspace ← batched (topologicallyBatchProjects projects g true);
     batchedProjects ← batched (topologicallyBatchProjects projects g false);
     installPhase env (extraArgsOf options) batchedProjectsByWorkspace;;
     afterInstall env projects g options batchedProjects) w.
Proof. reflexivity. Qed.

(** A run either stops at a batching, or stops in the install phase, or
    goes on with the steps after the install phase. *)
Lemma run_cases env projects g options w r w' :
  run env projects g options w = (r, w') →
  (w' = w ∧ r ≠ Ok tt
   ∧ ¬ ∃ batchesByWorkspace batches,
         topologicallyBatchProjects projects g true
           = Batching.Batched batchesByWorkspace
         ∧ topologicallyBatchProjects projects g false = Batching.Batched batches)
  ∨ ∃ batchesByWorkspace batches ri events,
      topologicallyBatchProjects projects g true = Batching.Batched batchesByWorkspace
      ∧ topologicallyBatchProjects projects g false = Batching.Batched batches
      ∧ behaves (installPhase env (extraArgsOf options) batchesByWorkspace) ri events
      ∧ ((ri ≠ Ok tt ∧ r = ri ∧ w' = extend w events)
         ∨ (ri = Ok tt
            ∧ afterInstall env projects g options batches (extend w events) = (r, w'))).
Proof.
  intros Hrun. rewrite run_afterInstall, bind_run in Hrun.
  destruct (topologicallyBatchProjects projects g true)
    as [batchesByWorkspace|unresolved|] eqn:HbyWorkspace; simpl in Hrun.
  2,3: injection Hrun as <- <-; left; (split; [done|]); (split; [done|]);
       by intros (? & ? & ? & _).
  rewrite bind_run in Hrun.
  destruct (topologicallyBatchProjects projects g false)
    as [batches|unresolved|] eqn:Hbatches; simpl in Hrun.
  2,3: injection Hrun as <- <-; left; (split; [done|]); (split; [done|]);
       by intros (? & ? & _ & ?).
  right. rewrite bind_run in Hrun.
  destruct (installPhase_behaves env (extraArgsOf options) batchesByWorkspace)
    as (ri & events & Hinstall & _).
  rewrite Hinstall in Hrun.
  exists batchesByWorkspace, batches, ri, events.
  split; [done|]. split; [done|]. split; [done|].
  destruct ri as [[]|e|]; [by right|left..]; by injection Hrun as <- <-.
Qed.

Lemma afterInstall_spec env projects g options batches w :
  NoDup (name <$> projects) →
  ∃ r lock decisions builds,
    afterInstall env projects g options batches w
    = (r, extend w (lock ++ decisions ++ builds))
    ∧ lock ≠ []
    ∧ lock `prefix_of` lockSteps env options
    ∧ Forall (λ e, isDecisionEvent e = true) decisions
    ∧ Forall (λ e, isBuildEvent e = true) builds
    ∧ (decisions ++ builds ≠ [] ∨ r = Ok tt →
       lock = lockSteps env options
       ∧ ∃ yarnLock cks caches,
           readYarnLock env = Ok yarnLock
           ∧ validateDependencies env yarnLock (singleVersionOf env options) = Ok tt
           ∧ linkProjectExecutables env projects g = Ok tt
           ∧ getAllChecksums env yarnLock = Ok cks
           ∧ decides options cks (cacheStore w) projects caches
           ∧ builds = buildEvents env caches batches
           ∧ r = scheduleOutcome (unitResult env caches) (settleOrder env batches)).
Proof.
  intros Hnames.
  destruct (run_after_install env projects g options batches w Hnames)
    as (r & lock & decisions & builds & Hrun & ? & ? & ? & ? & _ & ?).
  exists r, lock, decisions, builds. by repeat (split; [done|]).
Qed.

Lemma lockSteps_events env options lock e :
  lock `prefix_of` lockSteps env options → e ∈ lock →
  e = ReadYarnLock ∨ e = ValidateDependencies (singleVersionOf env options)
  ∨ e = LinkProjectExecutables ∨ e = GetAllChecksums.
Proof.
  intros [k Hk] He.
  assert (e ∈ lockSteps env options) as Hin by (rewrite Hk; apply elem_of_app; by left).
  unfold lockSteps in Hin.
  repeat (apply elem_of_cons in Hin as [->|Hin]; [tauto|]).
  by apply elem_of_nil in Hin.
Qed.

(** ** The install loop, event by event *)

Lemma install_loop env extraArgs (ps : list Project) :
  behaves
    (forEach ps (λ project,
       if isWorkspaceProject project then
         log Verbose ("Skipping workspace project: " +:+ name project)
       else if hasDependencies project then
         call (InstallDependencies (name project) extraArgs)
              (installDependencies env project extraArgs)
       else mret tt))
    (installOutcome env extraArgs ps)
    (omap (installEvent extraArgs) (upToFirst (installStops env extraArgs) ps)).
Proof.
  induction ps as [|p ps IH]; [apply behaves_ret|].
  simpl forEach. simpl installOutcome. simpl upToFirst.
  unfold installStops at 1 2, needsInstall.
  rewrite omap_cons. unfold installEvent at 1.
  destruct (isWorkspaceProject p); simpl.
  - eapply (behaves_bind _ _ tt [_]); [apply behaves_log|exact IH].
  - destruct (hasDependencies p); simpl.
    + destruct (installDependencies env p extraArgs) as [[]|e|] eqn:Hinstall; simpl.
      * eapply (behaves_bind _ _ tt [_]); [by apply behaves_call|exact IH].
      * by apply behaves_bind_throw, behaves_call.
      * by apply behaves_bind_halt, behaves_call.
    + eapply (behaves_bind _ _ tt []); [apply behaves_ret|exact IH].
Qed.

Lemma installPhase_trace env extraArgs batches :
  behaves (installPhase env extraArgs batches)
    (installOutcome env extraArgs (mjoin batches))
    (omap (installEvent extraArgs)
          (upToFirst (installStops env extraArgs) (mjoin batches))).
Proof.
  intros w. unfold installPhase. rewrite forEach_join. apply install_loop.
Qed.

Lemma installEvents_install extraArgs (ps : list Project) :
  Forall (λ e, isInstallEvent e = true) (omap (installEvent extraArgs) ps).
Proof.
  induction ps as [|p ps IH]; [done|]. rewrite omap_cons. unfold installEvent at 1.
  destruct (isWorkspaceProject p); [by constructor|].
  destruct (hasDependencies p); [by constructor|done].
Qed.

Lemma installOutcome_Ok env extraArgs (ps : list Project) :
  installOutcome env extraArgs ps = Ok tt ↔
  existsb (installStops env extraArgs) ps = false.
Proof.
  induction ps as [|p ps IH]; [done|]. simpl.
  destruct (installStops env extraArgs p) eqn:Hstops; simpl; [|exact IH].
  split; [|done]. intros Hok. unfold installStops in Hstops.
  rewrite Hok in Hstops. by rewrite andb_false_r in Hstops.
Qed.

Lemma installEvent_invocation extraArgs p n args :
  installEvent extraArgs p = Some (InstallDependencies n args) →
  n = name p ∧ args = extraArgs ∧ needsInstall p = true.
Proof.
  unfold installEvent, needsInstall. destruct (isWorkspaceProject p); [done|].
  destruct (hasDependencies p); [|done]. by intros [= <- <-].
Qed.

Lemma extraArgsOf_spec options :
  ("--frozen-lockfile" ∈ extraArgsOf options ↔ frozen_lockfile options = true)
  ∧ ("--prefer-offline" ∈ extraArgsOf options ↔ prefer_offline options = true)
  ∧ (∀ a, a ∈ extraArgsOf options →
          a = "--frozen-lockfile" ∨ a = "--prefer-offline").
Proof.
  unfold extraArgsOf.
  destruct (frozen_lockfile options), (prefer_offline options); simpl;
    repeat split; intros;
    repeat match goal with
           | H : _ ∈ _ :: _ |- _ => apply elem_of_cons in H as [?|?]
           | H : _ ∈ [] |- _ => by apply elem_of_nil in H
           end; subst; try done; try tauto; try (by left); by right; left.
Qed.

(** X1: every install invocation of a run receives the same arguments,
    [--frozen-lockfile] when the ['frozen-lockfile'] option is set followed
    by [--prefer-offline] when the ['prefer-offline'] option is set and
    nothing else, and it is issued for a project of the run that is not a
    workspace project and has dependencies. *)
Theorem install_arguments
    (env : Env) (projects : list Project) (g : ProjectGraph) (options : Options)
    (w : World) (r : Result unit) (w' : World) :
  NoDup (name <$> projects) →
  run env projects g options w = (r, w') →
  ∃ events,
    trace w' = trace w ++ events
    ∧ ∀ n args,
        InstallDependencies n args ∈ events →
        args = (if frozen_lockfile options then ["--frozen-lockfile"] else []) ++
               (if prefer_offline options then ["--prefer-offline"] else [])
        ∧ ("--frozen-lockfile" ∈ args ↔ frozen_lockfile options = true)
        ∧ ("--prefer-offline" ∈ args ↔ prefer_offline options = true)
        ∧ (∀ a, a ∈ args → a = "--frozen-lockfile" ∨ a = "--prefer-offline")
        ∧ ∃ p, p ∈ projects ∧ name p = n
               ∧ isWorkspaceProject p = false ∧ hasDependencies p = true.
Proof.
  intros Hnames Hrun.
  destruct (run_cases _ _ _ _ _ _ _ Hrun)
    as [(-> & _)|(bsW & bs & ri & installed & HbsW & Hbs & Hinstall & Hcases)].
  { exists []. split; [by rewrite app_nil_r|]. intros n args Hin.
    by apply elem_of_nil in Hin. }
  pose proof (behaves_events _ _ _ (installPhase_trace env (extraArgsOf options) bsW))
    as Hevents.
  rewrite (behaves_events _ _ _ Hinstall) in Hevents. subst installed.
  assert (∀ n args,
    InstallDependencies n args
      ∈ omap (installEvent (extraArgsOf options))
             (upToFirst (installStops env (extraArgsOf options)) (mjoin bsW)) →
    args = extraArgsOf options
    ∧ ∃ p, p ∈ projects ∧ name p = n
           ∧ isWorkspaceProject p = false ∧ hasDependencies p = true) as Hinstalled.
  { intros n args (p & Hp & Hev)%list_elem_of_omap.
    apply installEvent_invocation in Hev as (-> & -> & Hneeds).
    split; [done|]. exists p. split.
    - rewrite <- (batched_partition _ _ _ _ HbsW).
      destruct (upToFirst_prefix (installStops env (extraArgsOf options)) (mjoin bsW))
        as [k Hk]. rewrite Hk. apply elem_of_app. by left.
    - unfold needsInstall in Hneeds. apply andb_true_iff in Hneeds as [Hws Hdeps].
      by apply negb_true_iff in Hws. }
  assert (∀ events : list Event,
    (∀ n args, InstallDependencies n args ∈ events →
       InstallDependencies n args
         ∈ omap (installEvent (extraArgsOf options))
                (upToFirst (installStops env (extraArgsOf options)) (mjoin bsW))) →
    ∀ n args, InstallDependencies n args ∈ events →
      args = extraArgsOf options
      ∧ ("--frozen-lockfile" ∈ args ↔ frozen_lockfile options = true)
      ∧ ("--prefer-offline" ∈ args ↔ prefer_offline options = true)
      ∧ (∀ a, a ∈ args → a = "--frozen-lockfile" ∨ a = "--prefer-offline")
      ∧ ∃ p, p ∈ projects ∧ name p = n
             ∧ isWorkspaceProject p = false ∧ hasDependencies p = true) as Hall.
  { intros events Hsub n args Hin.
    destruct (Hinstalled n args (Hsub n args Hin)) as [-> Hp].
    destruct (extraArgsOf_spec options) as (? & ? & ?). done. }
  destruct Hcases as [(_ & _ & ->)|(_ & Hafter)].
  { eexists. split; [done|]. by apply Hall. }
  destruct (afterInstall_spec env projects g options bs
              (extend w (omap (installEvent (extraArgsOf options))
                           (upToFirst (installStops env (extraArgsOf options))
                                      (mjoin bsW)))) Hnames)
    as (r0 & lock & decisions & builds & Hrun' & _ & Hlock & Hdecisions & Hbuilds & _).
  rewrite Hrun', extend_app in Hafter. injection Hafter as _ <-.
  eexists. split; [done|]. apply Hall. intros n args Hin.
  apply elem_of_app in Hin as [Hin|Hin]; [done|]. exfalso.
  apply elem_of_app in Hin as [Hin|Hin].
  { by destruct (lockSteps_events _ _ _ _ Hlock Hin) as [?|[?|[?|?]]]. }
  apply elem_of_app in Hin as [Hin|Hin].
  - rewrite Forall_forall in Hdecisions. by apply Hdecisions in Hin.
  - rewrite Forall_forall in Hbuilds. by apply Hbuilds in Hin.
Qed.

Lemma install_arguments_witness :
  ∃ events,
    trace (run Sample.env Sample.projects Sample.graph Sample.options emptyWorld).2
    = trace emptyWorld ++ events
    ∧ ∀ n args,
        InstallDependencies n args ∈ events →
        args = (if frozen_lockfile Sample.options then ["--frozen-lockfile"] else []) ++
               (if prefer_offline Sample.options then ["--prefer-offline"] else [])
        ∧ ("--frozen-lockfile" ∈ args ↔ frozen_lockfile Sample.options = true)
        ∧ ("--prefer-offline" ∈ args ↔ prefer_offline Sample.options = true)
        ∧ (∀ a, a ∈ args → a = "--frozen-lockfile" ∨ a = "--prefer-offline")
        ∧ ∃ p, p ∈ Sample.projects ∧ name p = n
               ∧ isWorkspaceProject p = false ∧ hasDependencies p = true.
Proof.
  apply (install_arguments Sample.env Sample.projects Sample.graph Sample.options
           emptyWorld
           (run Sample.env Sample.projects Sample.graph Sample.options emptyWorld).1).
  - exact Sample_projects_NoDup.
  - apply surjective_pairing.
Defined.

(** ** A failing install *)

Lemma upToFirst_stop {A} (stops : A → bool) (pre : list A) (item : A) (post : list A) :
  (∀ x, x ∈ pre → stops x = false) → stops item = true →
  upToFirst stops (pre ++ item :: post) = pre ++ [item].
Proof.
  intros Hpre Hitem. induction pre as [|x pre IH]; simpl.
  - by rewrite Hitem.
  - rewrite (Hpre x) by left. f_equal. apply IH. intros y Hy. apply Hpre. by right.
Qed.

Lemma installOutcome_stop env extraArgs (pre : list Project) p post :
  (∀ q, q ∈ pre → installStops env extraArgs q = false) →
  installStops env extraArgs p = true →
  installOutcome env extraArgs (pre ++ p :: post) = installDependencies env p extraArgs.
Proof.
  intros Hpre Hp. induction pre as [|q pre IH]; simpl.
  - by rewrite Hp.
  - rewrite (Hpre q) by left. apply IH. intros y Hy. apply Hpre. by right.
Qed.

(** X4: when the install of a project does not succeed, every install
    before it having succeeded, the run ends there with the outcome of that
    install: the installs and the skip messages up to that project are all
    it has issued, the failing install being the last, so that the lock
    file is not read, nothing is validated, linked or built, no later
    project is installed and the cache store is left as it was. *)
Theorem install_failure_aborts
    (env : Env) (projects : list Project) (g : ProjectGraph) (options : Options)
    (batchesByWorkspace batches : list (list Project))
    (pre : list Project) (p : Project) (post : list Project) (w : World) :
  topologicallyBatchProjects projects g true = Batching.Batched batchesByWorkspace →
  topologicallyBatchProjects projects g false = Batching.Batched batches →
  mjoin batchesByWorkspace = pre ++ p :: post →
  (∀ q, q ∈ pre → isWorkspaceProject q = false → hasDependencies q = true →
        installDependencies env q (extraArgsOf options) = Ok tt) →
  isWorkspaceProject p = false →
  hasDependencies p = true →
  installDependencies env p (extraArgsOf options) ≠ Ok tt →
  ∃ w' events,
    run env projects g options w
    = (installDependencies env p (extraArgsOf options), w')
    ∧ cacheStore w' = cacheStore w
    ∧ trace w' = trace w ++ events ++ [InstallDependencies (name p) (extraArgsOf options)]
    ∧ events = omap (λ q,
                 if isWorkspaceProject q then
                   Some (Log Verbose ("Skipping workspace project: " +:+ name q))
                 else if hasDependencies q then
                   Some (InstallDependencies (name q) (extraArgsOf options))
                 else None) pre.
Proof.
  intros HbsW Hbs Hjoin Hpre Hws Hdeps Hfails.
  set (args := extraArgsOf options) in *.
  assert (installStops env args p = true) as Hstops.
  { unfold installStops, needsInstall. rewrite Hws, Hdeps. simpl.
    destruct (installDependencies env p args) as [[]|e|]; done. }
  assert (∀ q, q ∈ pre → installStops env args q = false) as Hgoes.
  { intros q Hq. unfold installStops, needsInstall.
    destruct (isWorkspaceProject q) eqn:Hq1; [done|].
    destruct (hasDependencies q) eqn:Hq2; [|done]. by rewrite (Hpre q). }
  pose proof (installPhase_trace env args batchesByWorkspace w) as Hinstall.
  rewrite Hjoin, (upToFirst_stop _ _ _ _ Hgoes Hstops),
    (installOutcome_stop _ _ _ _ _ Hgoes Hstops), omap_app in Hinstall.
  simpl in Hinstall. unfold installEvent at 2 in Hinstall.
  rewrite Hws, Hdeps in Hinstall.
  eexists _, _. split; [|split; [|split; [|reflexivity]]].
  - rewrite run_afterInstall, bind_run, HbsW. simpl. rewrite bind_run, Hbs. simpl.
    rewrite bind_run. fold args. rewrite Hinstall.
    destruct (installDependencies env p args) as [[]|e|]; done.
  - apply replay_installs. apply Forall_app. split; [apply installEvents_install|].
    by repeat constructor.
  - done.
Qed.

Lemma install_failure_aborts_witness :
  ∃ w' events,
    run Sample.installFailEnv Sample.projects Sample.graph Sample.options emptyWorld
    = (installDependencies Sample.installFailEnv Sample.core
         (extraArgsOf Sample.options), w')
    ∧ cacheStore w' = cacheStore emptyWorld
    ∧ trace w' = trace emptyWorld ++ events
                 ++ [InstallDependencies (name Sample.core) (extraArgsOf Sample.options)]
    ∧ events = omap (λ q,
                 if isWorkspaceProject q then
                   Some (Log Verbose ("Skipping workspace project: " +:+ name q))
                 else if hasDependencies q then
                   Some (InstallDependencies (name q) (extraArgsOf Sample.options))
                 else None) [Sample.docs; Sample.root].
Proof.
  apply (install_failure_aborts Sample.installFailEnv Sample.projects Sample.graph
           Sample.options Sample.batchesByWorkspace Sample.batches
           [Sample.docs; Sample.root] Sample.core [Sample.plugin; Sample.ui] emptyWorld).
  - exact Sample_batches_by_workspace.
  - exact Sample_batches.
  - reflexivity.
  - intros q Hq _ _.
    repeat (apply elem_of_cons in Hq as [->|Hq]; [reflexivity|]).
    by apply elem_of_nil in Hq.
  - reflexivity.
  - reflexivity.
  - discriminate.
Defined.

(** ** Beyond the install loop *)

Lemma installPhase_completes env extraArgs batches :
  (∀ q, q ∈ mjoin batches → isWorkspaceProject q = false → hasDependencies q = true →
        installDependencies env q extraArgs = Ok tt) →
  behaves (installPhase env extraArgs batches) (Ok tt)
    (omap (installEvent extraArgs) (mjoin batches)).
Proof.
  intros Hok.
  assert (existsb (installStops env extraArgs) (mjoin batches) = false) as Hnone.
  { apply not_true_is_false. intros (q & Hq & Hstops)%existsb_exists.
    apply list_elem_of_In in Hq. unfold installStops, needsInstall in Hstops.
    destruct (isWorkspaceProject q) eqn:Hws; [done|].
    destruct (hasDependencies q) eqn:Hdeps; [|done].
    by rewrite (Hok q Hq Hws Hdeps) in Hstops. }
  pose proof (installPhase_trace env extraArgs batches) as Hinstall.
  by rewrite (upToFirst_all _ _ Hnone), (proj2 (installOutcome_Ok _ _ _) Hnone)
    in Hinstall.
Qed.

Lemma run_reaches env projects g options batchesByWorkspace batches w :
  topologicallyBatchProjects projects g true = Batching.Batched batchesByWorkspace →
  topologicallyBatchProjects projects g false = Batching.Batched batches →
  (∀ q, q ∈ mjoin batchesByWorkspace →
        isWorkspaceProject q = false → hasDependencies q = true →
        installDependencies env q (extraArgsOf options) = Ok tt) →
  run env projects g options w
  = afterInstall env projects g options batches
      (extend w (omap (installEvent (extraArgsOf options)) (mjoin batchesByWorkspace))).
Proof.
  intros HbsW Hbs Hok.
  rewrite run_afterInstall, bind_run, HbsW. simpl. rewrite bind_run, Hbs. simpl.
  by rewrite bind_run, (installPhase_completes _ _ _ Hok).
Qed.

Lemma extend_inert w events :
  Forall (λ e, isCacheMutation e = false) events →
  cacheStore (extend w events) = cacheStore w.
Proof. intros H. by apply replay_inert. Qed.

Lemma installEvents_inert extraArgs (ps : list Project) :
  Forall (λ e, isCacheMutation e = false) (omap (installEvent extraArgs) ps).
Proof.
  eapply Forall_impl; [apply installEvents_install|]. by intros [].
Qed.

(** X5: once every install has succeeded, the run reads the lock file,
    validates it, links the executables and computes the checksums, in
    this order, and the first of these four steps that throws ends the run
    with its error: the steps after it are not taken, the bootstrap cache
    is neither consulted nor changed, and nothing is built. *)
Theorem lock_step_failure
    (env : Env) (projects : list Project) (g : ProjectGraph) (options : Options)
    (batchesByWorkspace batches : list (list Project)) (w : World) :
  topologicallyBatchProjects projects g true = Batching.Batched batchesByWorkspace →
  topologicallyBatchProjects projects g false = Batching.Batched batches →
  (∀ q, q ∈ mjoin batchesByWorkspace →
        isWorkspaceProject q = false → hasDependencies q = true →
        installDependencies env q (extraArgsOf options) = Ok tt) →
  ∃ installs,
    Forall (λ e, isInstallEvent e = true) installs
    ∧ (∀ e, readYarnLock env = Throw e →
         ∃ w', run env projects g options w = (Throw e, w')
               ∧ cacheStore w' = cacheStore w
               ∧ trace w' = trace w ++ installs ++ [ReadYarnLock])
    ∧ (∀ yarnLock e,
         readYarnLock env = Ok yarnLock →
         validateDependencies env yarnLock (toLowerCase env <$> single_version options)
         = Throw e →
         ∃ w', run env projects g options w = (Throw e, w')
               ∧ cacheStore w' = cacheStore w
               ∧ trace w' = trace w ++ installs ++
                   [ReadYarnLock;
                    ValidateDependencies (toLowerCase env <$> single_version options)])
    ∧ (∀ yarnLock e,
         readYarnLock env = Ok yarnLock →
         validateDependencies env yarnLock (toLowerCase env <$> single_version options)
         = Ok tt →
         linkProjectExecutables env projects g = Throw e →
         ∃ w', run env projects g options w = (Throw e, w')
               ∧ cacheStore w' = cacheStore w
               ∧ trace w' = trace w ++ installs ++
                   [ReadYarnLock;
                    ValidateDependencies (toLowerCase env <$> single_version options);
                    LinkProjectExecutables])
    ∧ (∀ yarnLock e,
         readYarnLock env = Ok yarnLock →
         validateDependencies env yarnLock (toLowerCase env <$> single_version options)
         = Ok tt →
         linkProjectExecutables env projects g = Ok tt →
         getAllChecksums env yarnLock = Throw e →
         ∃ w', run env projects g options w = (Throw e, w')
               ∧ cacheStore w' = cacheStore w
               ∧ trace w' = trace w ++ installs ++
                   [ReadYarnLock;
                    ValidateDependencies (toLowerCase env <$> single_version options);
                    LinkProjectExecutables; GetAllChecksums]).
Proof.
  intros HbsW Hbs Hok.
  exists (omap (installEvent (extraArgsOf options)) (mjoin batchesByWorkspace)).
  split; [apply installEvents_install|].
  rewrite (run_reaches _ _ _ _ _ _ w HbsW Hbs Hok).
  set (installs := omap (installEvent (extraArgsOf options)) (mjoin batchesByWorkspace)).
  assert (∀ e lock,
    Forall (λ e, isCacheMutation e = false) lock →
    behaves (afterInstall env projects g options batches) (Throw e) lock →
    ∃ w', afterInstall env projects g options batches (extend w installs) = (Throw e, w')
          ∧ cacheStore w' = cacheStore w
          ∧ trace w' = trace w ++ installs ++ lock) as Hends.
  { intros e lock Hlock Hafter. eexists. split; [apply Hafter|]. split.
    - rewrite extend_app. apply extend_inert, Forall_app.
      split; [apply installEvents_inert|done].
    - by rewrite extend_app. }
  unfold afterInstall, singleVersionOf in Hends.
  split; [|split; [|split]].
  - intros e Hread. apply Hends; [by repeat constructor|].
    apply behaves_bind_throw. rewrite <- Hread. by apply behaves_call.
  - intros yarnLock e Hread Hvalidate. apply Hends; [by repeat constructor|].
    apply (behaves_bind _ _ yarnLock [_]).
    { rewrite <- Hread. by apply behaves_call. }
    apply behaves_bind_throw. rewrite <- Hvalidate. by apply behaves_call.
  - intros yarnLock e Hread Hvalidate Hlink. apply Hends; [by repeat constructor|].
    apply (behaves_bind _ _ yarnLock [_]).
    { rewrite <- Hread. by apply behaves_call. }
    apply (behaves_bind _ _ tt [_]).
    { rewrite <- Hvalidate. by apply behaves_call. }
    apply behaves_bind_throw. rewrite <- Hlink. by apply behaves_call.
  - intros yarnLock e Hread Hvalidate Hlink Hchecksums.
    apply Hends; [by repeat constructor|].
    apply (behaves_bind _ _ yarnLock [_]).
    { rewrite <- Hread. by apply behaves_call. }
    apply (behaves_bind _ _ tt [_]).
    { rewrite <- Hvalidate. by apply behaves_call. }
    apply (behaves_bind _ _ tt [_]).
    { rewrite <- Hlink. by apply behaves_call. }
    apply behaves_bind_throw. rewrite <- Hchecksums. by apply behaves_call.
Qed.

Lemma lock_step_failure_witness :
  ∃ installs,
    Forall (λ e, isInstallEvent e = true) installs
    ∧ (∀ e, readYarnLock Sample.linkFailEnv = Throw e →
         ∃ w', run Sample.linkFailEnv Sample.projects Sample.graph Sample.options
                 emptyWorld = (Throw e, w')
               ∧ cacheStore w' = cacheStore emptyWorld
               ∧ trace w' = trace emptyWorld ++ installs ++ [ReadYarnLock])
    ∧ (∀ yarnLock e,
         readYarnLock Sample.linkFailEnv = Ok yarnLock →
         validateDependencies Sample.linkFailEnv yarnLock
           (toLowerCase Sample.linkFailEnv <$> single_version Sample.options) = Throw e →
         ∃ w', run Sample.linkFailEnv Sample.projects Sample.graph Sample.options
                 emptyWorld = (Throw e, w')
               ∧ cacheStore w' = cacheStore emptyWorld
               ∧ trace w' = trace emptyWorld ++ installs ++
                   [ReadYarnLock;
                    ValidateDependencies
                      (toLowerCase Sample.linkFailEnv <$> single_version Sample.options)])
    ∧ (∀ yarnLock e,
         readYarnLock Sample.linkFailEnv = Ok yarnLock →
         validateDependencies Sample.linkFailEnv yarnLock
           (toLowerCase Sample.linkFailEnv <$> single_version Sample.options) = Ok tt →
         linkProjectExecutables Sample.linkFailEnv Sample.projects Sample.graph
         = Throw e →
         ∃ w', run Sample.linkFailEnv Sample.projects Sample.graph Sample.options
                 emptyWorld = (Throw e, w')
               ∧ cacheStore w' = cacheStore emptyWorld
               ∧ trace w' = trace emptyWorld ++ installs ++
                   [ReadYarnLock;
                    ValidateDependencies
                      (toLowerCase Sample.linkFailEnv <$> single_version Sample.options);
                    LinkProjectExecutables])
    ∧ (∀ yarnLock e,
         readYarnLock Sample.linkFailEnv = Ok yarnLock →
         validateDependencies Sample.linkFailEnv yarnLock
           (toLowerCase Sample.linkFailEnv <$> single_version Sample.options) = Ok tt →
         linkProjectExecutables Sample.linkFailEnv Sample.projects Sample.graph
         = Ok tt →
         getAllChecksums Sample.linkFailEnv yarnLock = Throw e →
         ∃ w', run Sample.linkFailEnv Sample.projects Sample.graph Sample.options
                 emptyWorld = (Throw e, w')
               ∧ cacheStore w' = cacheStore emptyWorld
               ∧ trace w' = trace emptyWorld ++ installs ++
                   [ReadYarnLock;
                    ValidateDependencies
                      (toLowerCase Sample.linkFailEnv <$> single_version Sample.options);
                    LinkProjectExecutables; GetAllChecksums]).
Proof.
  apply (lock_step_failure Sample.linkFailEnv Sample.projects Sample.graph
           Sample.options Sample.batchesByWorkspace Sample.batches emptyWorld).
  - exact Sample_batches_by_workspace.
  - exact Sample_batches.
  - reflexivity.
Defined.

(** The linking fails on the sample workspace: the run ends with its error
    after the three installs, the lock file read and validated. *)
Example Sample_link_failure :
  run Sample.linkFailEnv Sample.projects Sample.graph Sample.options emptyWorld
  = (Throw (InstallError "root" "symlink"),
     {| cacheStore := ∅;
        trace := [InstallDependencies "docs" ["--frozen-lockfile"];
                  Log Verbose "Skipping workspace project: root";
                  InstallDependencies "core" ["--frozen-lockfile"];
                  InstallDependencies "plugin" ["--frozen-lockfile"];
                  ReadYarnLock; ValidateDependencies (Some "lodash");
                  LinkProjectExecutables] |}).
Proof. reflexivity. Qed.

(** The install of [core] fails on the sample workspace: [plugin] is not
    installed and the lock file is not read. *)
Example Sample_install_failure :
  run Sample.installFailEnv Sample.projects Sample.graph Sample.options emptyWorld
  = (Throw (InstallError "core" "network"),
     {| cacheStore := ∅;
        trace := [InstallDependencies "docs" ["--frozen-lockfile"];
                  Log Verbose "Skipping workspace project: root";
                  InstallDependencies "core" ["--frozen-lockfile"]] |}).
Proof. reflexivity. Qed.

(** ** The decision loop, event by event *)

Lemma cacheDecisions_trace options cks projects caches0 count0 w :
  ∃ caches,
    cacheDecisions options cks projects caches0 count0 w
    = (Ok (caches, count0 + length (cachedProjects options cks (cacheStore w) projects)),
       extend w (mjoin (decisionEvents options cks (cacheStore w) <$> projects))).
Proof.
  revert caches0 count0 w.
  induction projects as [|p ps IH]; intros caches0 count0 w.
  { exists caches0. simpl. by rewrite extend_nil, Nat.add_0_r. }
  simpl cacheDecisions. fold (needsBootstrap p).
  rewrite fmap_cons, join_cons. unfold cachedProjects. fold (cachedProjects options cks).
  unfold decisionEvents at 1.
  destruct (needsBootstrap p) eqn:Hneeds.
  2: { rewrite filter_cons_False by (unfold isCached; by rewrite Hneeds).
       destruct (IH caches0 count0 w) as [caches Hrun]. by exists caches. }
  destruct (cache options) eqn:Hcache.
  - rewrite bind_run, isValid_run.
    destruct (BootstrapCacheFile.valid (cacheStore w) (BootstrapCacheFile.new p cks))
      eqn:Hvalid.
    + assert (isCached options cks (cacheStore w) p = true) as Hcached.
      { unfold isCached, decisionFor. simpl. by rewrite Hneeds, Hcache, Hvalid. }
      rewrite Hcached, filter_cons_True by done.
      rewrite !bind_run, behaves_log. unfold mret at 1, M_ret at 1.
      rewrite extend_app.
      destruct (IH (<[name p := {| file := BootstrapCacheFile.new p cks;
                                   valid := true |}]> caches0) (count0 + 1)
                  (extend w [CacheIsValid (name p);
                             Log Debug ("[" +:+ name p +:+ "] cache up to date")]))
        as [caches Hrun].
      change (cacheStore (extend w [CacheIsValid (name p);
                Log Debug ("[" +:+ name p +:+ "] cache up to date")]))
        with (cacheStore w) in Hrun.
      exists caches. simpl andb. cbv iota.
      change ([CacheIsValid (BootstrapCacheFile.project (BootstrapCacheFile.new p cks))]
              ++ [Log Debug ("[" +:+ name p +:+ "] cache up to date")])
        with [CacheIsValid (name p);
              Log Debug ("[" +:+ name p +:+ "] cache up to date")].
      rewrite Hrun, extend_app. simpl length.
      unfold cachedProjects. do 3 f_equal. lia.
    + assert (isCached options cks (cacheStore w) p = false) as Hcached.
      { unfold isCached, decisionFor. simpl. by rewrite Hneeds, Hcache, Hvalid. }
      rewrite Hcached, filter_cons_False by (by rewrite Hcached).
      rewrite !bind_run. unfold mret at 1, M_ret at 1.
      destruct (IH (<[name p := {| file := BootstrapCacheFile.new p cks;
                                   valid := false |}]> caches0) count0
                  (extend w [CacheIsValid (name p)]))
        as [caches Hrun].
      change (cacheStore (extend w [CacheIsValid (name p)]))
        with (cacheStore w) in Hrun.
      exists caches. simpl andb. cbv iota.
      change (BootstrapCacheFile.project (BootstrapCacheFile.new p cks)) with (name p).
      by rewrite Hrun, extend_app.
  - assert (isCached options cks (cacheStore w) p = false) as Hcached.
    { unfold isCached, decisionFor. simpl. by rewrite Hneeds, Hcache. }
    rewrite filter_cons_False by (by rewrite Hcached).
    rewrite bind_run. unfold mret at 1, M_ret at 1.
    rewrite bind_run. unfold mret at 1, M_ret at 1.
    destruct (IH (<[name p := {| file := BootstrapCacheFile.new p cks;
                                 valid := false |}]> caches0) count0 w)
      as [caches Hrun].
    exists caches. by rewrite Hrun.
Qed.

(** X6: the decision loop visits the projects in the order they were
    given, not batch by batch.  With caching enabled it checks the cache
    record of each project that declares the [osd:bootstrap] script or
    build targets, and logs [cache up to date] right after the check when
    the record is valid; with caching disabled it issues nothing.  The
    number in the message [N bootstrap builds are cached] is the number of
    projects whose record was found valid; the message comes after the last
    check and before the first build step, and is left out when the number
    is zero. *)
Theorem cached_count_summary
    (env : Env) (options : Options) (cks : ChecksumMap)
    (projects : list Project) (batches : list (list Project)) (w : World) :
  ∃ r w' builds,
    bootstrapBuilds env options cks projects batches w = (r, w')
    ∧ trace w'
      = trace w
        ++ mjoin ((λ p,
             if (hasScript p "osd:bootstrap" || hasBuildTargets p) && cache options then
               CacheIsValid (name p) ::
               (if isCached options cks (cacheStore w) p
                then [Log Debug ("[" +:+ name p +:+ "] cache up to date")] else [])
             else []) <$> projects)
        ++ (let cachedProjectCount :=
              length (filter (λ p, isCached options cks (cacheStore w) p = true) projects)
            in
            if bool_decide (0 < cachedProjectCount) then
              [Log Success (pretty cachedProjectCount +:+ " bootstrap builds are cached")]
            else [])
        ++ builds
    ∧ Forall (λ e, isBuildEvent e = true) builds
    ∧ (cache options = false →
       trace w' = trace w ++ builds
       ∧ filter (λ p, isCached options cks (cacheStore w) p = true) projects = []).
Proof.
  destruct (cacheDecisions_trace options cks projects ∅ 0 w) as [caches Hdecisions].
  pose proof (buildPhase_behaves env caches batches) as Hbuild.
  exists (scheduleOutcome (unitResult env caches) (settleOrder env batches)).
  eexists _, (buildEvents env caches batches).
  assert (bootstrapBuilds env options cks projects batches w
          = (scheduleOutcome (unitResult env caches) (settleOrder env batches),
             extend w (mjoin (decisionEvents options cks (cacheStore w) <$> projects)
                       ++ cachedSummary
                            (length (cachedProjects options cks (cacheStore w) projects))
                       ++ buildEvents env caches batches))) as Hrun.
  { cbn [Nat.add] in Hdecisions.
    unfold bootstrapBuilds. rewrite bind_run, Hdecisions, bind_run.
    unfold cachedSummary. case_bool_decide.
    - by rewrite behaves_log, Hbuild, !extend_app.
    - unfold mret, M_ret. by rewrite Hbuild, extend_app. }
  split; [exact Hrun|]. split; [done|]. split; [apply buildEvents_build|].
  intros Hcache.
  assert (∀ ps, filter (λ p, isCached options cks (cacheStore w) p = true) ps = [])
    as Hnone.
  { intros ps. induction ps as [|p ps IH]; [done|].
    rewrite filter_cons_False; [done|].
    unfold isCached, decisionFor. simpl. rewrite Hcache.
    by rewrite andb_false_r. }
  split; [|apply Hnone]. simpl. f_equal.
  unfold cachedSummary, cachedProjects. rewrite Hnone. simpl.
  assert (∀ ps, mjoin (decisionEvents options cks (cacheStore w) <$> ps) = []) as ->.
  { intros ps. induction ps as [|p ps IH]; [done|].
    rewrite fmap_cons, join_cons, IH. unfold decisionEvents.
    by rewrite Hcache, andb_false_r. }
  done.
Qed.

Lemma bootstrapBuilds_result env options cks projects batches w :
  NoDup (name <$> projects) → mjoin batches ≡ₚ projects →
  (bootstrapBuilds env options cks projects batches w).1 = Ok tt ↔
  ∀ p, p ∈ projects → isStale options cks (cacheStore w) p = true →
       buildOutcome env p = Ok tt.
Proof.
  intros Hnames Hperm.
  destruct (bootstrapBuilds_spec env options cks projects batches w Hnames)
    as (caches & decisions & _ & _ & Hcaches & ->).
  simpl. unfold settleOrder. rewrite scheduleOutcome_sorted_Ok. split.
  - intros Hall p Hp Hstale. rewrite <- Hperm in Hp. specialize (Hall p Hp).
    rewrite Hperm in Hp.
    destruct (unit_decided env _ _ _ _ _ p Hcaches Hp) as [Hresult _].
    rewrite Hresult, Hstale in Hall. by apply unitOutcome_Ok.
  - intros Hall p Hp. rewrite Hperm in Hp.
    destruct (unit_decided env _ _ _ _ _ p Hcaches Hp) as [-> _].
    destruct (isStale options cks (cacheStore w) p) eqn:Hstale; [|done].
    apply unitOutcome_Ok. by apply Hall.
Qed.

(** X7: the build phase completes exactly when the build step succeeds for
    every stale project, that is, for every project that declares the
    [osd:bootstrap] script or build targets and whose cache record is not
    used (caching is disabled, or no record with the fresh fingerprint
    exists); the build step being the build of the targets when the
    project has any, and the script otherwise.  The outcomes of the build
    steps of the other projects do not matter. *)
Theorem build_phase_succeeds_iff
    (env : Env) (options : Options) (cks : ChecksumMap)
    (projects : list Project) (batches : list (list Project)) (w : World) :
  NoDup (name <$> projects) →
  mjoin batches ≡ₚ projects →
  (bootstrapBuilds env options cks projects batches w).1 = Ok tt ↔
  ∀ p, p ∈ projects →
       hasScript p "osd:bootstrap" = true ∨ hasBuildTargets p = true →
       ¬ (cache options = true ∧ recorded (cacheStore w) (name p) (cks (name p))) →
       (if hasBuildTargets p then buildForTargets env p true
        else runScriptStreaming env p "osd:bootstrap") = Ok tt.
Proof.
  intros Hnames Hperm. rewrite (bootstrapBuilds_result _ _ _ _ _ _ Hnames Hperm).
  split.
  - intros Hall p Hp Hneeds Hstale. apply (Hall p Hp), isStale_true.
    split; [by apply needsBootstrap_true|done].
  - intros Hall p Hp [Hneeds Hstale]%isStale_true.
    apply (Hall p Hp); [by apply needsBootstrap_true|done].
Qed.

Lemma build_phase_succeeds_iff_witness :
  (bootstrapBuilds Sample.failingEnv Sample.options Sample.checksums Sample.projects
     Sample.batches Sample.warmWorld).1 = Ok tt ↔
  ∀ p, p ∈ Sample.projects →
       hasScript p "osd:bootstrap" = true ∨ hasBuildTargets p = true →
       ¬ (cache Sample.options = true
          ∧ recorded (cacheStore Sample.warmWorld) (name p)
                     (Sample.checksums (name p))) →
       (if hasBuildTargets p then buildForTargets Sample.failingEnv p true
        else runScriptStreaming Sample.failingEnv p "osd:bootstrap") = Ok tt.
Proof.
  apply (build_phase_succeeds_iff Sample.failingEnv Sample.options Sample.checksums
           Sample.projects Sample.batches Sample.warmWorld).
  - exact Sample_projects_NoDup.
  - exact Sample_batches_partition.
Defined.

(** The build of [core] would fail, but its record is up to date: the
    build phase over the warm cache store completes. *)
Example Sample_warm_failing :
  (bootstrapBuilds Sample.failingEnv Sample.options Sample.checksums Sample.projects
     Sample.batches Sample.warmWorld).1 = Ok tt
  ∧ (bootstrapBuilds Sample.failingEnv Sample.options Sample.checksums Sample.projects
       Sample.batches emptyWorld).1 = Throw (BuildError "core" "exit code 1").
Proof. split; reflexivity. Qed.

Lemma elem_of_join_fmap {A B} (f : A → list B) (l : list A) (e : B) :
  e ∈ mjoin (f <$> l) ↔ ∃ q, q ∈ l ∧ e ∈ f q.
Proof.
  rewrite list_elem_of_join. split.
  - intros (events & He & (q & -> & Hq)%list_elem_of_fmap). by exists q.
  - intros (q & Hq & He). exists (f q). split; [done|]. by apply list_elem_of_fmap_2.
Qed.

(** The events of a schedule are those of its started units. *)
Lemma elem_of_scheduleEvents {A} (starts finishes : A → list Event)
    (outcome : A → Result unit) (duration : A → nat) (batches : list (list A)) e :
  e ∈ scheduleEvents starts finishes outcome duration batches ↔
  ∃ q, q ∈ startedBatches outcome batches ∧ (e ∈ starts q ∨ e ∈ finishes q).
Proof.
  induction batches as [|batch rest IH]; simpl.
  - split; [by intros ?%elem_of_nil|]. by intros (q & ?%elem_of_nil & _).
  - rewrite !elem_of_app, !elem_of_join_fmap.
    setoid_rewrite elem_of_app. setoid_rewrite (elem_of_sortBy duration batch).
    destruct (forallb _ batch).
    + rewrite IH. split.
      * intros [(q & ? & ?)|[(q & ? & ?)|(q & ? & ?)]]; eauto 6.
      * intros (q & [?|?] & [?|?]); eauto 8.
    + split.
      * intros [(q & ? & ?)|[(q & ? & ?)|?%elem_of_nil]]; eauto 6; done.
      * intros (q & [?|?%elem_of_nil] & [?|?]); eauto 8; done.
Qed.

Lemma buildEvents_elem env caches batches e :
  e ∈ buildEvents env caches batches ↔
  ∃ q, q ∈ startedBatches (unitResult env caches) batches ∧ e ∈ unitEvents env caches q.
Proof.
  unfold buildEvents. rewrite elem_of_scheduleEvents.
  by setoid_rewrite unitEvents_async; setoid_rewrite elem_of_app.
Qed.

Lemma buildEvents_unit env caches batches e :
  e ∈ buildEvents env caches batches →
  ∃ q, q ∈ mjoin batches ∧ e ∈ unitEvents env caches q.
Proof.
  intros (q & Hq & He)%buildEvents_elem. exists q. split; [|done].
  destruct (startedBatches_prefix (unitResult env caches) batches) as [k ->].
  apply elem_of_app. by left.
Qed.

Lemma unitTrace_invocation env cks p e :
  e ∈ unitTrace env cks p → isInvocation e = true → e = buildStep p.
Proof.
  unfold unitTrace. intros He Hinv.
  apply elem_of_app in He as [He|He].
  { destruct (hasBuildTargets p), (hasScript p "osd:bootstrap"); simpl in He;
      repeat (apply elem_of_cons in He as [->|He]; [done|]);
      by apply elem_of_nil in He. }
  apply elem_of_cons in He as [->|He]; [done|].
  apply elem_of_cons in He as [->|He]; [done|].
  destruct (buildOutcome env p);
    repeat (apply elem_of_cons in He as [->|He]; [done|]);
    by apply elem_of_nil in He.
Qed.

(** X8: the build phase builds the targets of a project, always with source
    maps, only when the project has build targets, and it runs no script
    other than [osd:bootstrap], and this one only for a project that
    declares it and has no build targets.  In both cases the project is a
    stale one: its cache record was not used. *)
Theorem build_invocations_declared
    (env : Env) (options : Options) (cks : ChecksumMap)
    (projects : list Project) (batches : list (list Project))
    (w : World) (r : Result unit) (w' : World) :
  NoDup (name <$> projects) →
  mjoin batches ≡ₚ projects →
  bootstrapBuilds env options cks projects batches w = (r, w') →
  ∃ events,
    trace w' = trace w ++ events
    ∧ (∀ n sourceMaps,
         BuildForTargets n sourceMaps ∈ events →
         sourceMaps = true
         ∧ ∃ p, p ∈ projects ∧ name p = n ∧ hasBuildTargets p = true
                ∧ ¬ (cache options = true
                     ∧ recorded (cacheStore w) (name p) (cks (name p))))
    ∧ (∀ n script,
         RunScriptStreaming n script ∈ events →
         script = "osd:bootstrap"
         ∧ ∃ p, p ∈ projects ∧ name p = n
                ∧ hasScript p "osd:bootstrap" = true ∧ hasBuildTargets p = false
                ∧ ¬ (cache options = true
                     ∧ recorded (cacheStore w) (name p) (cks (name p)))).
Proof.
  intros Hnames Hperm Hrun.
  destruct (bootstrapBuilds_spec env options cks projects batches w Hnames)
    as (caches & decisions & Hdecisions & _ & Hcaches & Hrun').
  rewrite Hrun' in Hrun. injection Hrun as _ <-.
  eexists. split; [apply extend_trace|].
  assert (∀ e, e ∈ decisions ++ buildEvents env caches batches →
               isInvocation e = true →
               ∃ p, p ∈ projects ∧ e = buildStep p
                    ∧ isStale options cks (cacheStore w) p = true) as Hinv.
  { intros e [He|He]%elem_of_app Hinv.
    { rewrite Forall_forall in Hdecisions. apply Hdecisions in He. by destruct e. }
    apply buildEvents_unit in He as (q & Hq & He). rewrite Hperm in Hq.
    destruct (unit_decided env _ _ _ _ _ q Hcaches Hq) as [_ Hevents].
    rewrite Hevents in He. exists q. split; [done|].
    destruct (isStale options cks (cacheStore w) q); [|by apply elem_of_nil in He].
    split; [|done]. by eapply unitTrace_invocation. }
  split.
  - intros n sourceMaps He.
    destruct (Hinv _ He eq_refl) as (p & Hp & Hstep & [Hneeds Hstale]%isStale_true).
    unfold buildStep in Hstep.
    destruct (hasBuildTargets p) eqn:Htargets; [|done].
    injection Hstep as -> ->. split; [done|]. by exists p.
  - intros n script He.
    destruct (Hinv _ He eq_refl) as (p & Hp & Hstep & [Hneeds Hstale]%isStale_true).
    unfold buildStep in Hstep.
    destruct (hasBuildTargets p) eqn:Htargets; [done|].
    injection Hstep as -> ->. split; [done|]. exists p.
    apply needsBootstrap_true in Hneeds as [Hscript|Hcontra]; [done|congruence].
Qed.

Lemma build_invocations_declared_witness :
  ∃ events,
    trace (bootstrapBuilds Sample.env Sample.options Sample.checksums Sample.projects
             Sample.batches emptyWorld).2 = trace emptyWorld ++ events
    ∧ (∀ n sourceMaps,
         BuildForTargets n sourceMaps ∈ events →
         sourceMaps = true
         ∧ ∃ p, p ∈ Sample.projects ∧ name p = n ∧ hasBuildTargets p = true
                ∧ ¬ (cache Sample.options = true
                     ∧ recorded (cacheStore emptyWorld) (name p)
                                (Sample.checksums (name p))))
    ∧ (∀ n script,
         RunScriptStreaming n script ∈ events →
         script = "osd:bootstrap"
         ∧ ∃ p, p ∈ Sample.projects ∧ name p = n
                ∧ hasScript p "osd:bootstrap" = true ∧ hasBuildTargets p = false
                ∧ ¬ (cache Sample.options = true
                     ∧ recorded (cacheStore emptyWorld) (name p)
                                (Sample.checksums (name p)))).
Proof.
  apply (build_invocations_declared Sample.env Sample.options Sample.checksums
           Sample.projects Sample.batches emptyWorld
           (bootstrapBuilds Sample.env Sample.options Sample.checksums Sample.projects
              Sample.batches emptyWorld).1).
  - exact Sample_projects_NoDup.
  - exact Sample_batches_partition.
  - apply surjective_pairing.
Defined.

(** X9: what the build phase leaves in the cache store.  A record changes
    only under the name of a stale project: every other record, also one
    that belongs to no project of the run, is the same after the build
    phase as before, whatever the result.  And when the build phase
    completes, the store holds a record with the fresh fingerprint for
    every project that declares the [osd:bootstrap] script or build
    targets. *)
Theorem build_phase_store
    (env : Env) (options : Options) (cks : ChecksumMap)
    (projects : list Project) (batches : list (list Project))
    (w : World) (r : Result unit) (w' : World) :
  NoDup (name <$> projects) →
  mjoin batches ≡ₚ projects →
  bootstrapBuilds env options cks projects batches w = (r, w') →
  (∀ n,
     (∀ p, p ∈ projects →
           hasScript p "osd:bootstrap" = true ∨ hasBuildTargets p = true →
           ¬ (cache options = true ∧ recorded (cacheStore w) (name p) (cks (name p))) →
           name p ≠ n) →
     cacheStore w' !! n = cacheStore w !! n)
  ∧ (r = Ok tt →
     ∀ p, p ∈ projects →
          hasScript p "osd:bootstrap" = true ∨ hasBuildTargets p = true →
          recorded (cacheStore w') (name p) (cks (name p))).
Proof.
  intros Hnames Hperm Hrun. split.
  - intros n Hn.
    destruct (bootstrapBuilds_spec env options cks projects batches w Hnames)
      as (caches & decisions & Hdecisions & _ & Hcaches & Hrun').
    rewrite Hrun' in Hrun. injection Hrun as _ <-.
    apply extend_frame, Forall_app. split; [by apply decisions_no_effect|].
    apply buildEvents_frame; [by eapply decides_ownHandles|].
    intros q Hq. rewrite Hperm in Hq.
    destruct (unit_decided env _ _ _ _ _ q Hcaches Hq) as [_ ->].
    destruct (isStale options cks (cacheStore w) q) eqn:Hstale; [left|by right].
    apply isStale_true in Hstale as [Hneeds Hstale].
    apply Hn; [done|by apply needsBootstrap_true|done].
  - intros -> p Hp Hneeds.
    eapply (built_project_recorded env options cks projects batches w (Ok tt) w'
              (drop (length (trace w)) (trace w')) p); try done.
    + destruct (bootstrapBuilds_spec env options cks projects batches w Hnames)
        as (caches & decisions & _ & _ & _ & Hrun').
      rewrite Hrun' in Hrun. injection Hrun as _ <-.
      by rewrite extend_trace, drop_app_length.
    + by apply needsBootstrap_true.
    + by left.
Qed.

Lemma build_phase_store_witness :
  (∀ n,
     (∀ p, p ∈ Sample.projects →
           hasScript p "osd:bootstrap" = true ∨ hasBuildTargets p = true →
           ¬ (cache Sample.options = true
              ∧ recorded (cacheStore Sample.warmWorld) (name p)
                         (Sample.checksums (name p))) →
           name p ≠ n) →
     cacheStore (bootstrapBuilds Sample.env Sample.options Sample.checksums
                   Sample.projects Sample.batches Sample.warmWorld).2 !! n
     = cacheStore Sample.warmWorld !! n)
  ∧ ((bootstrapBuilds Sample.env Sample.options Sample.checksums
        Sample.projects Sample.batches Sample.warmWorld).1 = Ok tt →
     ∀ p, p ∈ Sample.projects →
          hasScript p "osd:bootstrap" = true ∨ hasBuildTargets p = true →
          recorded (cacheStore (bootstrapBuilds Sample.env Sample.options
                                  Sample.checksums Sample.projects Sample.batches
                                  Sample.warmWorld).2)
                   (name p) (Sample.checksums (name p))).
Proof.
  apply (build_phase_store Sample.env Sample.options Sample.checksums
           Sample.projects Sample.batches Sample.warmWorld).
  - exact Sample_projects_NoDup.
  - exact Sample_batches_partition.
  - apply surjective_pairing.
Defined.

(** ** A run from end to end *)

Lemma afterInstall_reaches env projects g options batches yarnLock cks w :
  readYarnLock env = Ok yarnLock →
  validateDependencies env yarnLock (singleVersionOf env options) = Ok tt →
  linkProjectExecutables env projects g = Ok tt →
  getAllChecksums env yarnLock = Ok cks →
  afterInstall env projects g options batches w
  = bootstrapBuilds env options cks projects batches (extend w (lockSteps env options)).
Proof.
  intros Hread Hvalidate Hlink Hchecksums. unfold afterInstall.
  rewrite bind_run, (behaves_call ReadYarnLock (readYarnLock env) eq_refl w), Hread.
  rewrite bind_run,
    (behaves_call (ValidateDependencies (singleVersionOf env options))
       (validateDependencies env yarnLock (singleVersionOf env options)) eq_refl),
    Hvalidate.
  rewrite bind_run,
    (behaves_call LinkProjectExecutables (linkProjectExecutables env projects g) eq_refl),
    Hlink.
  rewrite bind_run,
    (behaves_call GetAllChecksums (getAllChecksums env yarnLock) eq_refl), Hchecksums.
  rewrite !extend_app. reflexivity.
Qed.

Lemma afterInstall_Ok env projects g options batches w :
  (afterInstall env projects g options batches w).1 = Ok tt →
  ∃ yarnLock cks,
    readYarnLock env = Ok yarnLock
    ∧ validateDependencies env yarnLock (singleVersionOf env options) = Ok tt
    ∧ linkProjectExecutables env projects g = Ok tt
    ∧ getAllChecksums env yarnLock = Ok cks.
Proof.
  unfold afterInstall, call. rewrite bind_run.
  destruct (readYarnLock env) as [yarnLock|e|] eqn:Hread; [|done..].
  rewrite bind_run.
  destruct (validateDependencies env yarnLock (singleVersionOf env options))
    as [[]|e|] eqn:Hvalidate; [|done..].
  rewrite bind_run.
  destruct (linkProjectExecutables env projects g) as [[]|e|] eqn:Hlink; [|done..].
  rewrite bind_run.
  destruct (getAllChecksums env yarnLock) as [cks|e|] eqn:Hchecksums; [|done..].
  intros _. by exists yarnLock, cks.
Qed.

Lemma installs_succeed env extraArgs (ps : list Project) :
  installOutcome env extraArgs ps = Ok tt ↔
  ∀ p, p ∈ ps → isWorkspaceProject p = false → hasDependencies p = true →
       installDependencies env p extraArgs = Ok tt.
Proof.
  rewrite installOutcome_Ok. split.
  - intros Hnone p Hp Hws Hdeps.
    destruct (installDependencies env p extraArgs) as [[]|e|] eqn:Hinstall; [done|..];
      exfalso; apply not_true_iff_false in Hnone; apply Hnone, existsb_exists;
      exists p; (split; [by apply list_elem_of_In|]);
      unfold installStops, needsInstall; by rewrite Hws, Hdeps, Hinstall.
  - intros Hall. apply not_true_is_false. intros (q & Hq & Hstops)%existsb_exists.
    apply list_elem_of_In in Hq. unfold installStops, needsInstall in Hstops.
    destruct (isWorkspaceProject q) eqn:Hws; [done|].
    destruct (hasDependencies q) eqn:Hdeps; [|done].
    by rewrite (Hall q Hq Hws Hdeps) in Hstops.
Qed.

(** X10: a run completes exactly when both batchings of the projects
    succeed, the install succeeds for every project that is not a
    workspace project and has dependencies, the lock file is read and
    validated, the executables are linked and the checksums computed
    without error, and the build step succeeds for every project that
    declares the [osd:bootstrap] script or build targets and has no usable
    cache record under these checksums. *)
Theorem run_succeeds_iff
    (env : Env) (projects : list Project) (g : ProjectGraph) (options : Options)
    (w : World) :
  NoDup (name <$> projects) →
  (run env projects g options w).1 = Ok tt ↔
  ∃ batchesByWorkspace batches yarnLock cks,
    topologicallyBatchProjects projects g true = Batching.Batched batchesByWorkspace
    ∧ topologicallyBatchProjects projects g false = Batching.Batched batches
    ∧ (∀ p, p ∈ projects → isWorkspaceProject p = false → hasDependencies p = true →
            installDependencies env p
              ((if frozen_lockfile options then ["--frozen-lockfile"] else []) ++
               (if prefer_offline options then ["--prefer-offline"] else []))
            = Ok tt)
    ∧ readYarnLock env = Ok yarnLock
    ∧ validateDependencies env yarnLock (toLowerCase env <$> single_version options) = Ok tt
    ∧ linkProjectExecutables env projects g = Ok tt
    ∧ getAllChecksums env yarnLock = Ok cks
    ∧ ∀ p, p ∈ projects →
           hasScript p "osd:bootstrap" = true ∨ hasBuildTargets p = true →
           ¬ (cache options = true ∧ recorded (cacheStore w) (name p) (cks (name p))) →
           (if hasBuildTargets p then buildForTargets env p true
            else runScriptStreaming env p "osd:bootstrap") = Ok tt.
Proof.
  intros Hnames.
  fold (extraArgsOf options) (singleVersionOf env options).
  assert (∀ batchesByWorkspace batches yarnLock cks,
    topologicallyBatchProjects projects g true = Batching.Batched batchesByWorkspace →
    topologicallyBatchProjects projects g false = Batching.Batched batches →
    (∀ p, p ∈ projects → isWorkspaceProject p = false → hasDependencies p = true →
          installDependencies env p (extraArgsOf options) = Ok tt) →
    readYarnLock env = Ok yarnLock →
    validateDependencies env yarnLock (singleVersionOf env options) = Ok tt →
    linkProjectExecutables env projects g = Ok tt →
    getAllChecksums env yarnLock = Ok cks →
    (run env projects g options w).1 = Ok tt ↔
    ∀ p, p ∈ projects →
         hasScript p "osd:bootstrap" = true ∨ hasBuildTargets p = true →
         ¬ (cache options = true ∧ recorded (cacheStore w) (name p) (cks (name p))) →
         (if hasBuildTargets p then buildForTargets env p true
          else runScriptStreaming env p "osd:bootstrap") = Ok tt) as Hbuilds.
  { intros bsW bs yarnLock cks HbsW Hbs Hinstalls Hread Hvalidate Hlink Hchecksums.
    rewrite (run_reaches env projects g options bsW bs w HbsW Hbs).
    2: { intros q Hq. apply Hinstalls. by rewrite <- (batched_partition _ _ _ _ HbsW). }
    rewrite (afterInstall_reaches _ _ _ _ _ yarnLock cks) by done.
    rewrite (bootstrapBuilds_result _ _ _ _ _ _ Hnames (batched_partition _ _ _ _ Hbs)).
    rewrite extend_app, extend_inert.
    2: { apply Forall_app. split; [apply installEvents_inert|].
         by apply (lockSteps_inert env options). }
    split.
    - intros Hall p Hp Hneeds Hstale. apply (Hall p Hp), isStale_true.
      split; [by apply needsBootstrap_true|done].
    - intros Hall p Hp [Hneeds Hstale]%isStale_true.
      apply (Hall p Hp); [by apply needsBootstrap_true|done]. }
  split.
  - intros Hok.
    destruct (run env projects g options w) as [r w'] eqn:Hrun. simpl in Hok. subst r.
    destruct (run_cases _ _ _ _ _ _ _ Hrun)
      as [(_ & ? & _)|(bsW & bs & ri & installed & HbsW & Hbs & Hinstall & Hcases)];
      [done|].
    destruct Hcases as [(? & <- & _)|(-> & Hafter)]; [done|].
    pose proof (behaves_result _ _ _ (installPhase_trace env (extraArgsOf options) bsW))
      as Hresult.
    rewrite (behaves_result _ _ _ Hinstall) in Hresult. symmetry in Hresult.
    pose proof (proj1 (installs_succeed _ _ _) Hresult) as Hinstalled.
    destruct (afterInstall_Ok env projects g options bs (extend w installed))
      as (yarnLock & cks & Hread & Hvalidate & Hlink & Hchecksums);
      [by rewrite Hafter|].
    assert (∀ p, p ∈ projects → isWorkspaceProject p = false →
                 hasDependencies p = true →
                 installDependencies env p (extraArgsOf options) = Ok tt) as Hinstalls.
    { intros p Hp. apply Hinstalled. by rewrite (batched_partition _ _ _ _ HbsW). }
    exists bsW, bs, yarnLock, cks. repeat (split; [done|]).
    by apply (Hbuilds bsW bs yarnLock cks).
  - intros (bsW & bs & yarnLock & cks & HbsW & Hbs & Hinstalls & Hread & Hvalidate
            & Hlink & Hchecksums & Hall).
    by apply (Hbuilds bsW bs yarnLock cks).
Qed.

Lemma run_succeeds_iff_witness :
  (run Sample.env Sample.projects Sample.graph Sample.options emptyWorld).1 = Ok tt ↔
  ∃ batchesByWorkspace batches yarnLock cks,
    topologicallyBatchProjects Sample.projects Sample.graph true
    = Batching.Batched batchesByWorkspace
    ∧ topologicallyBatchProjects Sample.projects Sample.graph false
      = Batching.Batched batches
    ∧ (∀ p, p ∈ Sample.projects →
            isWorkspaceProject p = false → hasDependencies p = true →
            installDependencies Sample.env p
              ((if frozen_lockfile Sample.options then ["--frozen-lockfile"] else []) ++
               (if prefer_offline Sample.options then ["--prefer-offline"] else []))
            = Ok tt)
    ∧ readYarnLock Sample.env = Ok yarnLock
    ∧ validateDependencies Sample.env yarnLock
        (toLowerCase Sample.env <$> single_version Sample.options) = Ok tt
    ∧ linkProjectExecutables Sample.env Sample.projects Sample.graph = Ok tt
    ∧ getAllChecksums Sample.env yarnLock = Ok cks
    ∧ ∀ p, p ∈ Sample.projects →
           hasScript p "osd:bootstrap" = true ∨ hasBuildTargets p = true →
           ¬ (cache Sample.options = true
              ∧ recorded (cacheStore emptyWorld) (name p) (cks (name p))) →
           (if hasBuildTargets p then buildForTargets Sample.env p true
            else runScriptStreaming Sample.env p "osd:bootstrap") = Ok tt.
Proof.
  apply (run_succeeds_iff Sample.env Sample.projects Sample.graph Sample.options
           emptyWorld).
  exact Sample_projects_NoDup.
Defined.

(** ** What the log says about the cache *)

Lemma append_length (s t : string) :
  String.length (s +:+ t) = String.length s + String.length t.
Proof. induction s as [|c s IH]; simpl; [done|]. by rewrite IH. Qed.

Lemma append_inv_tail (s1 s2 t : string) : s1 +:+ t = s2 +:+ t → s1 = s2.
Proof.
  revert s2. induction s1 as [|c s1 IH]; intros [|d s2] Heq; simpl in Heq.
  - done.
  - apply (f_equal String.length) in Heq.
    rewrite ?append_length in Heq. simpl in Heq. rewrite ?append_length in Heq. lia.
  - apply (f_equal String.length) in Heq.
    rewrite ?append_length in Heq. simpl in Heq. rewrite ?append_length in Heq. lia.
  - injection Heq as -> Heq. f_equal. by apply IH.
Qed.

Lemma unitTrace_complete env cks q n :
  Log Success ("[" +:+ n +:+ "] bootstrap complete") ∈ unitTrace env cks q
  ↔ (∃ fp, CacheWrite n fp ∈ unitTrace env cks q).
Proof.
  assert (Log Success ("[" +:+ name q +:+ "] bootstrap complete") ∈ unitTrace env cks q
          ↔ buildOutcome env q = Ok tt) as Hlog.
  { unfold unitTrace, buildStep.
    destruct (hasBuildTargets q), (hasScript q "osd:bootstrap"),
      (buildOutcome env q) as [[]|e|]; simpl;
      (split;
       [intros H; try done;
        repeat (apply elem_of_cons in H as [H|H]; [done|]);
        by apply elem_of_nil in H
       |intros Hok; try done; repeat first [by left|right]]). }
  assert (∀ fp, CacheWrite n fp ∈ unitTrace env cks q →
                n = name q ∧ buildOutcome env q = Ok tt) as Hwrite.
  { intros fp. unfold unitTrace, buildStep.
    destruct (hasBuildTargets q), (hasScript q "osd:bootstrap"),
      (buildOutcome env q) as [[]|e|]; simpl; intros H;
      repeat (apply elem_of_cons in H as [H|H];
              [first [done|by injection H as -> _]|]);
      by apply elem_of_nil in H. }
  assert (buildOutcome env q = Ok tt →
          CacheWrite (name q) (cks (name q)) ∈ unitTrace env cks q) as Hwritten.
  { intros Hok. unfold unitTrace. rewrite Hok.
    apply elem_of_app. right. by repeat first [left|right]. }
  assert (Log Success ("[" +:+ n +:+ "] bootstrap complete") ∈ unitTrace env cks q →
          n = name q) as Hname.
  { unfold unitTrace, buildStep.
    destruct (hasBuildTargets q), (hasScript q "osd:bootstrap"),
      (buildOutcome env q) as [[]|e|]; simpl; intros H;
      repeat (apply elem_of_cons in H as [H|H];
              [first [done
                     |injection H as H;
                      exact (append_inv_tail n (name q) "] bootstrap complete" H)]|]);
      by apply elem_of_nil in H. }
  split.
  - intros H. pose proof (Hname H) as ->. exists (cks (name q)).
    by apply Hwritten, Hlog.
  - intros [fp [-> Hok]%Hwrite]. by apply Hlog.
Qed.

Lemma lastChar_append (s t : string) :
  t ≠ EmptyString → lastChar (s +:+ t) = lastChar t.
Proof.
  intros Ht. induction s as [|c s IH]; [done|].
  change (lastChar (String c (s +:+ t)) = lastChar t). simpl.
  destruct (s +:+ t) eqn:Hst; [|done].
  destruct s; [|done]. by destruct t.
Qed.

Lemma complete_not_summary (n : string) (count : nat) :
  "[" +:+ n +:+ "] bootstrap complete" ≠ pretty count +:+ " bootstrap builds are cached".
Proof.
  intros Heq. apply (f_equal lastChar) in Heq.
  rewrite (lastChar_append (pretty count)) in Heq by done.
  change ("[" +:+ n +:+ "] bootstrap complete")
    with (("[" +:+ n) +:+ "] bootstrap complete") in Heq.
  by rewrite lastChar_append in Heq.
Qed.

Lemma bootstrapBuilds_exact env options cks projects batches w :
  NoDup (name <$> projects) →
  ∃ caches,
    decides options cks (cacheStore w) projects caches
    ∧ bootstrapBuilds env options cks projects batches w
      = (scheduleOutcome (unitResult env caches) (settleOrder env batches),
         extend w (mjoin (decisionEvents options cks (cacheStore w) <$> projects)
                   ++ cachedSummary
                        (length (cachedProjects options cks (cacheStore w) projects))
                   ++ buildEvents env caches batches)).
Proof.
  intros Hnames.
  destruct (cacheDecisions_trace options cks projects ∅ 0 w) as [caches Hdecisions].
  destruct (cacheDecisions_spec options cks projects w Hnames)
    as (caches' & count & events & Hrun & _ & _ & Hcaches).
  rewrite Hdecisions in Hrun. injection Hrun as <- _ _.
  exists caches. split; [done|].
  pose proof (buildPhase_behaves env caches batches) as Hbuild.
  cbn [Nat.add] in Hdecisions.
  unfold bootstrapBuilds. rewrite bind_run, Hdecisions, bind_run.
  unfold cachedSummary. case_bool_decide.
  - by rewrite behaves_log, Hbuild, !extend_app.
  - unfold mret, M_ret. by rewrite Hbuild, extend_app.
Qed.

Lemma decisionEvents_decision options cks store (projects : list Project) :
  Forall (λ e, isDecisionEvent e = true ∧ ∀ message, e ≠ Log Success message)
         (mjoin (decisionEvents options cks store <$> projects)).
Proof.
  induction projects as [|p ps IH]; [done|].
  rewrite fmap_cons, join_cons. apply Forall_app. split; [|done].
  unfold decisionEvents.
  destruct (needsBootstrap p && cache options); [|done].
  destruct (isCached options cks store p); by repeat constructor.
Qed.

(** X11: what the log says about the cache.  The build phase logs
    [bootstrap complete] for a project exactly when it writes the cache
    record of that project; and it writes a record only with the fresh
    fingerprint, and only for a stale project whose build step has
    succeeded. *)
Theorem bootstrap_complete_logged
    (env : Env) (options : Options) (cks : ChecksumMap)
    (projects : list Project) (batches : list (list Project))
    (w : World) (r : Result unit) (w' : World) :
  NoDup (name <$> projects) →
  mjoin batches ≡ₚ projects →
  bootstrapBuilds env options cks projects batches w = (r, w') →
  ∃ events,
    trace w' = trace w ++ events
    ∧ (∀ n, Log Success ("[" +:+ n +:+ "] bootstrap complete") ∈ events
            ↔ ∃ fp, CacheWrite n fp ∈ events)
    ∧ (∀ n fp,
         CacheWrite n fp ∈ events →
         fp = cks n
         ∧ ∃ p, p ∈ projects ∧ name p = n
                ∧ (hasScript p "osd:bootstrap" = true ∨ hasBuildTargets p = true)
                ∧ ¬ (cache options = true
                     ∧ recorded (cacheStore w) (name p) (cks (name p)))
                ∧ (if hasBuildTargets p then buildForTargets env p true
                   else runScriptStreaming env p "osd:bootstrap") = Ok tt).
Proof.
  intros Hnames Hperm Hrun.
  destruct (bootstrapBuilds_exact env options cks projects batches w Hnames)
    as (caches & Hcaches & Hrun').
  rewrite Hrun' in Hrun. injection Hrun as _ <-.
  eexists. split; [apply extend_trace|].
  set (decisions := mjoin (decisionEvents options cks (cacheStore w) <$> projects)).
  set (summary := cachedSummary
                    (length (cachedProjects options cks (cacheStore w) projects))).
  assert (∀ e, e ∈ decisions ++ summary ++ buildEvents env caches batches →
               isDecisionEvent e = false ∨
               (∃ n, e = Log Success ("[" +:+ n +:+ "] bootstrap complete")) →
               e ∈ buildEvents env caches batches) as Hbuilds.
  { intros e [He|[He|He]%elem_of_app]%elem_of_app Hkind; [exfalso..|done].
    - pose proof (decisionEvents_decision options cks (cacheStore w) projects) as Hd.
      rewrite Forall_forall in Hd. destruct (Hd e He) as [Hdecision Hlog].
      destruct Hkind as [?|[n ->]]; [congruence|]. by eapply Hlog.
    - unfold summary, cachedSummary in He. case_bool_decide; [|by apply elem_of_nil in He].
      apply elem_of_cons in He as [->|He]; [|by apply elem_of_nil in He].
      destruct Hkind as [?|[n Heq]]; [done|]. injection Heq as Heq.
      symmetry in Heq. by apply complete_not_summary in Heq. }
  assert (∀ e, e ∈ buildEvents env caches batches ↔
               ∃ q, q ∈ startedBatches (unitResult env caches) batches
                    ∧ q ∈ projects
                    ∧ isStale options cks (cacheStore w) q = true
                    ∧ e ∈ unitTrace env cks q) as Hunits.
  { intros e. rewrite buildEvents_elem. split.
    - intros (q & Hq & He). exists q. split; [done|].
      assert (q ∈ projects) as Hin by by eapply started_in_projects.
      split; [done|].
      destruct (unit_decided env _ _ _ _ _ q Hcaches Hin) as [_ Hevents].
      rewrite Hevents in He.
      destruct (isStale options cks (cacheStore w) q); [done|by apply elem_of_nil in He].
    - intros (q & Hq & Hin & Hstale & He). exists q. split; [done|].
      destruct (unit_decided env _ _ _ _ _ q Hcaches Hin) as [_ ->].
      by rewrite Hstale. }
  split.
  - intros n. split.
    + intros He. apply Hbuilds in He; [|right; by exists n].
      apply Hunits in He as (q & Hq & Hin & Hstale & He).
      apply unitTrace_complete in He as [fp He]. exists fp.
      apply elem_of_app. right. apply elem_of_app. right.
      apply Hunits. by exists q.
    + intros [fp He]. apply Hbuilds in He; [|by left].
      apply Hunits in He as (q & Hq & Hin & Hstale & He).
      apply elem_of_app. right. apply elem_of_app. right.
      apply Hunits. exists q. repeat (split; [done|]).
      apply unitTrace_complete. by exists fp.
  - intros n fp He. apply Hbuilds in He; [|by left].
    apply Hunits in He as (q & Hq & Hin & [Hneeds Hstale]%isStale_true & He).
    assert (n = name q ∧ fp = cks (name q) ∧ buildOutcome env q = Ok tt)
      as (-> & -> & Hok).
    { clear -He. unfold unitTrace, buildStep in He.
      destruct (hasBuildTargets q), (hasScript q "osd:bootstrap"),
        (buildOutcome env q) as [[]|e|]; simpl in He;
        repeat (apply elem_of_cons in He as [He|He];
                [first [done|by injection He as -> ->]|]);
        by apply elem_of_nil in He. }
    split; [done|]. exists q. split; [done|]. split; [done|].
    split; [by apply needsBootstrap_true|]. done.
Qed.

Lemma bootstrap_complete_logged_witness :
  ∃ events,
    trace (bootstrapBuilds Sample.env Sample.options Sample.checksums
             Sample.projects Sample.batches emptyWorld).2 = trace emptyWorld ++ events
    ∧ (∀ n, Log Success ("[" +:+ n +:+ "] bootstrap complete") ∈ events
            ↔ ∃ fp, CacheWrite n fp ∈ events)
    ∧ (∀ n fp,
         CacheWrite n fp ∈ events →
         fp = Sample.checksums n
         ∧ ∃ p, p ∈ Sample.projects ∧ name p = n
                ∧ (hasScript p "osd:bootstrap" = true ∨ hasBuildTargets p = true)
                ∧ ¬ (cache Sample.options = true
                     ∧ recorded (cacheStore emptyWorld) (name p)
                                (Sample.checksums (name p)))
                ∧ (if hasBuildTargets p then buildForTargets Sample.env p true
                   else runScriptStreaming Sample.env p "osd:bootstrap") = Ok tt).
Proof.
  apply (bootstrap_complete_logged Sample.env Sample.options Sample.checksums
           Sample.projects Sample.batches emptyWorld
           (bootstrapBuilds Sample.env Sample.options Sample.checksums
              Sample.projects Sample.batches emptyWorld).1).
  - exact Sample_projects_NoDup.
  - exact Sample_batches_partition.
  - apply surjective_pairing.
Defined.

(** ** Running the command twice *)

Lemma run_Ok_reaches env projects g options w w' :
  run env projects g options w = (Ok tt, w') →
  ∃ batches cks events,
    topologicallyBatchProjects projects g false = Batching.Batched batches
    ∧ Forall (λ e, isInvocation e = false ∧ isCacheMutation e = false) events
    ∧ ∀ w0, run env projects g options w0
            = bootstrapBuilds env options cks projects batches (extend w0 events).
Proof.
  intros Hrun.
  destruct (run_cases _ _ _ _ _ _ _ Hrun)
    as [(_ & ? & _)|(bsW & bs & ri & installed & HbsW & Hbs & Hinstall & Hcases)];
    [done|].
  destruct Hcases as [(? & <- & _)|(-> & Hafter)]; [done|].
  pose proof (behaves_result _ _ _ (installPhase_trace env (extraArgsOf options) bsW))
    as Hresult.
  rewrite (behaves_result _ _ _ Hinstall) in Hresult. symmetry in Hresult.
  pose proof (proj1 (installs_succeed _ _ _) Hresult) as Hinstalled.
  destruct (afterInstall_Ok env projects g options bs (extend w installed))
    as (yarnLock & cks & Hread & Hvalidate & Hlink & Hchecksums);
    [by rewrite Hafter|].
  exists bs, cks,
    (omap (installEvent (extraArgsOf options)) (mjoin bsW) ++ lockSteps env options).
  split; [done|]. split.
  - apply Forall_app. split.
    + eapply Forall_impl; [apply installEvents_install|]. by intros [].
    + by repeat constructor.
  - intros w0. rewrite (run_reaches env projects g options bsW bs w0 HbsW Hbs Hinstalled).
    rewrite (afterInstall_reaches _ _ _ _ _ yarnLock cks) by done.
    by rewrite extend_app.
Qed.

(** X12: running the command again after a run that completed, with
    caching enabled and the cache store as the first run left it, builds
    nothing: the second run completes as well, it issues no build of build
    targets and runs no script, it neither deletes nor writes a cache
    record, and the cache store is the same after it as before. *)
Theorem run_twice
    (env : Env) (projects : list Project) (g : ProjectGraph) (options : Options)
    (w w1 w2 : World) :
  NoDup (name <$> projects) →
  cache options = true →
  run env projects g options w = (Ok tt, w1) →
  cacheStore w2 = cacheStore w1 →
  ∃ w3 events,
    run env projects g options w2 = (Ok tt, w3)
    ∧ trace w3 = trace w2 ++ events
    ∧ cacheStore w3 = cacheStore w2
    ∧ (∀ n sourceMaps, BuildForTargets n sourceMaps ∉ events)
    ∧ (∀ n script, RunScriptStreaming n script ∉ events)
    ∧ (∀ n, CacheDelete n ∉ events)
    ∧ (∀ n fp, CacheWrite n fp ∉ events).
Proof.
  intros Hnames Hcache Hrun Hstore.
  destruct (run_Ok_reaches _ _ _ _ _ _ Hrun) as (bs & cks & before & Hbs & Hbefore & Hreach).
  pose proof (batched_partition _ _ _ _ Hbs) as Hperm.
  assert (Forall (λ e, isCacheMutation e = false) before) as Hinert.
  { eapply Forall_impl; [exact Hbefore|]. by intros e [_ ?]. }
  assert (∀ p, p ∈ projects → needsBootstrap p = true →
               recorded (cacheStore (extend w2 before)) (name p) (cks (name p)))
    as Hrecorded.
  { intros p Hp Hneeds. rewrite extend_inert, Hstore by done.
    rewrite Hreach in Hrun.
    eapply (built_project_recorded env options cks projects bs (extend w before)
              (Ok tt) w1 (drop (length (trace (extend w before))) (trace w1)) p);
      try done; [|by left].
    destruct (bootstrapBuilds_spec env options cks projects bs (extend w before) Hnames)
      as (caches & decisions & _ & _ & _ & Hrun').
    rewrite Hrun' in Hrun. injection Hrun as _ <-.
    by rewrite (extend_trace (extend w before)), drop_app_length. }
  destruct (bootstrapBuilds_cached env options cks projects bs (extend w2 before)
              Hnames Hcache Hrecorded) as (decisions & Hrun2 & Hdecisions).
  assert (Forall (λ e, isInvocation e = false ∧ isCacheMutation e = false)
                 (before ++ decisions)) as Hquiet.
  { apply Forall_app. split; [done|].
    eapply Forall_impl; [exact Hdecisions|]. by intros []. }
  exists (extend w2 (before ++ decisions)), (before ++ decisions).
  split; [by rewrite Hreach, Hrun2, extend_app|]. split; [done|].
  split.
  { apply extend_inert. eapply Forall_impl; [exact Hquiet|]. by intros e [_ ?]. }
  rewrite Forall_forall in Hquiet.
  split; [|split; [|split]]; intros; intros [? ?]%Hquiet; done.
Qed.

Lemma run_twice_witness :
  ∃ w3 events,
    run Sample.env Sample.projects Sample.graph Sample.options
      (run Sample.env Sample.projects Sample.graph Sample.options emptyWorld).2
    = (Ok tt, w3)
    ∧ trace w3
      = trace (run Sample.env Sample.projects Sample.graph Sample.options emptyWorld).2
        ++ events
    ∧ cacheStore w3
      = cacheStore (run Sample.env Sample.projects Sample.graph Sample.options
                      emptyWorld).2
    ∧ (∀ n sourceMaps, BuildForTargets n sourceMaps ∉ events)
    ∧ (∀ n script, RunScriptStreaming n script ∉ events)
    ∧ (∀ n, CacheDelete n ∉ events)
    ∧ (∀ n fp, CacheWrite n fp ∉ events).
Proof.
  apply (run_twice Sample.env Sample.projects Sample.graph Sample.options emptyWorld
           (run Sample.env Sample.projects Sample.graph Sample.options emptyWorld).2
           (run Sample.env Sample.projects Sample.graph Sample.options emptyWorld).2).
  - exact Sample_projects_NoDup.
  - reflexivity.
  - reflexivity.
  - reflexivity.
Defined.
